(** * Lowering of ONNX Resize / Upsample to reshape, gather and blend
    instructions: a shallow embedding of [src/onnx/parse_resize.cpp].

    The file follows the source top to bottom: machine integers and
    doubles, the collaborators the parser calls (shapes, instructions, the
    graph builder), then [calc_neighbor_points], the attribute readers,
    [parse_args], [make_gather_instruction] and [parse], and finally the
    properties of the lowering. *)

From Stdlib Require Import ZArith Lia.
From Stdlib Require Floats.
From stdpp Require Import gmap strings list.

Local Open Scope Z_scope.

(** ** Machine numbers *)

(** [std::numeric_limits<std::size_t>::digits]. *)
Definition size_t_digits : Z := 64.

(** Arithmetic on [std::size_t] is modulo [2^64]. *)
Definition wrap_size_t (z : Z) : Z := z mod 2 ^ size_t_digits.

(** Conversion of an integer to [int] (32 bits, two's complement), as done
    when a [std::size_t] or [int64_t] is stored in a [std::vector<int>]. *)
Definition to_int (z : Z) : Z := (z + 2 ^ 31) mod 2 ^ 32 - 2 ^ 31.

(** Conversion to [int64_t]. *)
Definition to_int64 (z : Z) : Z := (z + 2 ^ 63) mod 2 ^ 64 - 2 ^ 63.

(** C++ [double] is IEEE binary64, the kernel's primitive float. *)
Abbreviation double := PrimFloat.float.

(** [static_cast<double>(z)] for an integer [z]: round to nearest even. *)
Definition double_of_Z (z : Z) : double :=
  FloatOps.SF2Prim (SpecFloat.binary_normalize FloatOps.prec FloatOps.emax z 0 false).

(** The integer part of a double, truncated toward zero; [None] for
    infinities and NaN. *)
Definition double_trunc (x : double) : option Z :=
  match FloatOps.Prim2SF x with
  | SpecFloat.S754_zero _ => Some 0
  | SpecFloat.S754_finite s m e =>
      let t := if 0 <=? e then Z.shiftl (Z.pos m) e else Z.shiftr (Z.pos m) (- e) in
      Some (if s then - t else t)
  | _ => None
  end.

(** [static_cast<std::size_t>(x)]: the truncated value when it is
    representable; the conversion is undefined otherwise ([None]). *)
Definition size_t_of_double (x : double) : option Z :=
  match double_trunc x with
  | Some t => if (0 <=? t) && (t <? 2 ^ size_t_digits) then Some t else None
  | None => None
  end.

(** Narrowing of a double to [float] (IEEE binary32), kept as the double
    with the same value. *)
Definition float_of_double (x : double) : double :=
  match FloatOps.Prim2SF x with
  | SpecFloat.S754_finite s m e =>
      FloatOps.SF2Prim
        (SpecFloat.binary_normalize 24 128 (if s then Z.neg m else Z.pos m) e s)
  | _ => x
  end.

(** ** Errors *)

(** The failures of the lowering, one per [MIGRAPHX_THROW] site of the
    source, under the names the specification gives them. *)
Inductive error : Set :=
| UnsupportedCoordinateTransformMode (* "tf_crop_and_resize" mode is not supported! *)
| UnsupportedInterpolationMode       (* only nearest and linear modes are supported! *)
| UnsupportedExcludeOutside          (* exclude_outside 1 is not supported! *)
| RankMismatch                       (* ranks of input and scale are different! *)
| OutputRankMismatch                 (* specified output size's rank does not match input size *)
| MissingScaleOrSizeInput            (* no shapes or scales input provided *)
| DimensionOverflow                  (* Shape dimension n exceeds 64 *)
| UnsupportedDynamicLinear.          (* linear mode not supported for non-constant inputs *)

(** Result of running a piece of the source: a value, an exception, or
    undefined behaviour of the C++ abstract machine (a read outside a
    vector, an integer division by zero, an unrepresentable conversion). *)
Inductive outcome (A : Type) : Type :=
| Ok (a : A)
| Throw (e : error)
| Undefined.
Arguments Ok {A} a.
Arguments Throw {A} e.
Arguments Undefined {A}.

Definition outcome_bind {A B} (x : outcome A) (f : A → outcome B) : outcome B :=
  match x with
  | Ok a => f a
  | Throw e => Throw e
  | Undefined => Undefined
  end.

(** ** Shapes *)

Inductive type_t : Set :=
| bool_type | half_type | float_type | double_type
| uint8_type | int8_type | uint16_type | int16_type
| int32_type | int64_type | uint32_type | uint64_type.

Global Instance type_t_eq_dec : EqDecision type_t.
Proof. solve_decision. Defined.

(** Modelled from the spec: the [shape] class of the library is not part of
    the sources at hand.  A shape is an element type and an ordered sequence
    of dimension lengths, each with a flag telling whether the dimension is
    only known at run time. *)
Record shape : Type := mk_shape {
  type : type_t;
  dims : list (Z * bool)
}.

(** Modelled from the spec: the constructor [shape{t, lens}], the static
    shape with the given lengths. *)
Definition static_shape (t : type_t) (l : list Z) : shape :=
  mk_shape t ((λ n, (n, false)) <$> l).

(** Modelled from the spec: [s.lens()], the sequence of lengths, and
    [s.dynamic()], whether some dimension is only known at run time. *)
Definition lens (s : shape) : list Z := fst <$> dims s.

Definition dynamic (s : shape) : bool := existsb snd (dims s).

(** Modelled from the spec: [s.to_static(x)], the static shape in which
    every run-time dimension is given the length [x] and the others keep
    theirs. *)
Definition to_static (x : Z) (s : shape) : shape :=
  mk_shape (type s) ((λ d : Z * bool, (if d.2 then x else d.1, false)) <$> dims s).

Definition product (l : list Z) : Z := foldr Z.mul 1 l.

(** Modelled from the spec: [s.elements()], the number of elements, the
    product of the lengths. *)
Definition elements (s : shape) : Z := product (lens s).

(** Modelled from the spec: row-major strides, the stride of a dimension
    being the product of the lengths after it. *)
Fixpoint strides (l : list Z) : list Z :=
  match l with
  | [] => []
  | _ :: t => product t :: strides t
  end.

Definition dot (a b : list Z) : Z := foldr Z.add 0 (zip_with Z.mul a b).

(** Modelled from the spec: [s.index(idx)], the flat offset of a
    coordinate tuple through the row-major strides. *)
Definition index (s : shape) (idx : list Z) : Z := dot idx (strides (lens s)).

(** Modelled from the spec: [s.multi(i)], the coordinate tuple of a flat
    offset. *)
Definition multi (s : shape) (i : Z) : list Z :=
  zip_with (λ n st, (i `div` st) `mod` n) (lens s) (strides (lens s)).

(** ** Enumeration of the interpolation corners *)

(** [bits_val[bit]] of the [std::bitset] built from [val]: position [0] is
    the least significant bit. *)
Definition bitset_at (val : Z) (bit : nat) : nat :=
  if Z.testbit val (Z.of_nat bit) then 1%nat else 0%nat.

(** The inner [transform]: dimension [bit] of the coordinate tuple is read
    from [vvv_ind[bit][bits_val[bit]][i_element]]. *)
Definition corner_indices (vvv_ind : list (list (list Z))) (val : Z)
    (i_element : nat) : list Z :=
  imap (λ bit vv_ind, (vv_ind !!! bitset_at val bit) !!! i_element) vvv_ind.

(** The outer loop runs over the corner values [val] in ascending order,
    the middle one over the output elements; every flat offset is stored
    in a [std::vector<int>].  Reading [vvv_ind[0][0]] of a table without
    a first row is undefined; a read outside a row, undefined in the
    source, gives [0] here and does not occur on a table of the stated
    dimensions. *)
Definition calc_neighbor_points (vvv_ind : list (list (list Z))) (in_s : shape)
    : outcome (list Z) :=
  let n_bits := Z.of_nat (length vvv_ind) in
  match vvv_ind with
  | (v00 :: _) :: _ =>
      let m_elements := length v00 in
      if size_t_digits <=? n_bits then Throw DimensionOverflow
      else
        Ok (mjoin
              ((λ val, (λ i_element,
                          to_int (index in_s (corner_indices vvv_ind val i_element)))
                         <$> seq 0 m_elements)
                 <$> seqZ 0 (2 ^ n_bits)))
  | _ => Undefined
  end.

(** ** Instructions, operators and the graph builder *)

(** Modelled from the spec: the buffer [arg->eval()] produces, either
    "unavailable" or the materialized elements. *)
Inductive argument : Type :=
| arg_empty                     (* nothing could be read at compile time *)
| arg_int (v : list Z)          (* elements of an integral type *)
| arg_real (v : list double).   (* elements of a floating type *)

(** Modelled from the spec: what the lowering reads of an instruction that
    is already in the graph (the class itself is not part of the sources at
    hand): its identity, its name, its shape, and its compile-time value. *)
Record instruction : Type := mk_instruction {
  ins_id : nat;
  name : string;
  get_shape : shape;
  eval : argument
}.

(** A handle either designates an instruction that was in the graph before
    the call or the node inserted at a given position by the builder. *)
Inductive instruction_ref : Type :=
| ref_arg (a : instruction)
| ref_new (pos : nat).

(** The operators the lowering builds with [make_op], with their static
    parameters. *)
Inductive operation : Type :=
| op_resize (nearest_mode coordinate_transformation_mode : string)
| op_reshape (dims : list Z)
| op_gather (axis : Z)
| op_slice (axes starts ends : list Z)
| op_sub
| op_mul
| op_add.

(** A node of the graph: an instruction or a literal. *)
Inductive node : Type :=
| ins (op : operation) (inputs : list instruction_ref)
| lit (s : shape) (data : argument).

(** Code that inserts nodes: it runs on the sequence of nodes inserted so
    far and leaves the sequence it has reached, also when it throws. *)
Definition builder (A : Type) : Type := list node → outcome A * list node.

Global Instance outcome_ret : MRet outcome := λ A, Ok.
Global Instance outcome_mbind : MBind outcome := λ A B f x, outcome_bind x f.

Global Instance builder_ret : MRet builder := λ A a g, (Ok a, g).
Global Instance builder_mbind : MBind builder := λ A B f m g,
  match m g with
  | (Ok a, g') => f a g'
  | (Throw e, g') => (Throw e, g')
  | (Undefined, g') => (Undefined, g')
  end.

(** A computation that does not touch the graph. *)
Definition lift {A} (x : outcome A) : builder A := λ g, (x, g).

(** Modelled from the spec: [add_instruction(op, inputs...)] and
    [add_literal(shape, data)] of the graph builder append one node and
    return its handle. *)
Definition add_instruction (op : operation) (inputs : list instruction_ref)
    : builder instruction_ref :=
  λ g, (Ok (ref_new (length g)), g ++ [ins op inputs]).

Definition add_literal (s : shape) (data : argument) : builder instruction_ref :=
  λ g, (Ok (ref_new (length g)), g ++ [lit s data]).

(** Modelled from the spec: [shape_for_each(s, f)] calls [f] on the
    coordinate tuple and the flat offset of every element of [s], in
    ascending offset order.  The state [S] is what [f] captures by
    reference. *)
Definition shape_for_each {S : Type} (s : shape) (f : list Z → nat → S → S)
    (st : S) : S :=
  foldl (λ st i, f (multi s (Z.of_nat i)) i st) st (seq 0 (Z.to_nat (elements s))).

(** ** Attributes *)

(** The fields of an ONNX attribute the parser reads: [s()], [i()] and
    [floats()]. *)
Module AttributeProto.
Record t : Type := mk { s : string; i : Z; floats : list double }.
End AttributeProto.

Abbreviation attribute_map := (gmap string AttributeProto.t).

Record op_desc : Type := mk_op_desc { onnx_name : string; op_name : string }.

Definition operators : list op_desc :=
  [mk_op_desc "Resize" "resize"; mk_op_desc "Upsample" "upsample"].

(** The attribute readers.  [contains(attr, k)] and [attr.at(k)] are the
    lookup [attr !! k]. *)
Definition get_coord_trans_mode (attr : attribute_map) : outcome string :=
  match attr !! "coordinate_transformation_mode" with
  | Some a =>
      let coord_trans_mode := AttributeProto.s a in
      if decide (coord_trans_mode = "tf_crop_and_resize")
      then Throw UnsupportedCoordinateTransformMode
      else Ok coord_trans_mode
  | None => Ok "half_pixel"
  end.

Definition get_mode (attr : attribute_map) : outcome string :=
  match attr !! "mode" with
  | Some a =>
      let mode := AttributeProto.s a in
      if decide (mode ≠ "nearest" ∧ mode ≠ "linear")
      then Throw UnsupportedInterpolationMode
      else Ok mode
  | None => Ok "nearest"
  end.

Definition get_nearest_mode (attr : attribute_map) : string :=
  match attr !! "nearest_mode" with
  | Some a => AttributeProto.s a
  | None => "round_prefer_floor"
  end.

Definition get_scales (attr : attribute_map) : list double :=
  match attr !! "scales" with
  | Some a => AttributeProto.floats a
  | None => []
  end.

(** ** Scanning the arguments for scales or sizes *)

Global Instance double_inhabited : Inhabited double := populate PrimFloat.zero.

(** [out_lens.assign(ol.begin(), ol.end())]: the elements as [std::size_t]. *)
Definition assign_size_t (a : argument) : outcome (list Z) :=
  match a with
  | arg_empty => Ok []
  | arg_int v => Ok (wrap_size_t <$> v)
  | arg_real v =>
      match mapM size_t_of_double v with
      | Some l => Ok l
      | None => Undefined
      end
  end.

(** [vec_scale.assign(v.begin(), v.end())]: the elements as [double]. *)
Definition assign_double (a : argument) : list double :=
  match a with
  | arg_empty => []
  | arg_int v => double_of_Z <$> v
  | arg_real v => v
  end.

(** The scale back-computed from an input and an output length at lines
    218 to 222, [1.0 * oss / iss]. *)
Definition scale_of (iss oss : Z) : double :=
  PrimFloat.div (PrimFloat.mul PrimFloat.one (double_of_Z oss)) (double_of_Z iss).

(** The variables [parse_args] returns or writes through its reference
    parameters. *)
Record scan : Type := mk_scan {
  non_static : bool;
  scan_scale : list double;
  scan_out_lens : list Z;
  r_arg : instruction
}.

(** The [for] loop of [parse_args] from the argument at the head of [rest]
    on; [front] is [args.front()], a [continue] is the recursive call, and
    falling out of the loop is the final throw. *)
Fixpoint parse_args_from (front : instruction) (rest : list instruction)
    (in_lens : list Z) (vec_scale : list double) (out_lens : list Z)
    (r : instruction) : outcome scan :=
  match rest with
  | [] => Throw MissingScaleOrSizeInput
  | arg :: rest' =>
      if decide (name arg = "undefined" ∨ ins_id arg = ins_id front)
      then parse_args_from front rest' in_lens vec_scale out_lens r
      else
        let lens := lens (get_shape arg) in
        match lens with
        | [] => parse_args_from front rest' in_lens vec_scale out_lens r
        | lens0 :: _ =>
            if decide (type (get_shape arg) = int64_type) then
              match eval arg with
              | arg_empty => Ok (mk_scan true vec_scale out_lens arg)
              | arg_out_s =>
                  out_lens' ← assign_size_t arg_out_s;
                  if decide (length out_lens' ≠ length in_lens)
                  then Throw OutputRankMismatch
                  else
                    Ok (mk_scan false (zip_with scale_of in_lens out_lens')
                                out_lens' arg)
              end
            else if decide (lens0 = Z.of_nat (length in_lens)) then
              match eval arg with
              | arg_empty => Ok (mk_scan true vec_scale out_lens arg)
              | arg_scale => Ok (mk_scan false (assign_double arg_scale) out_lens arg)
              end
            else Ok (mk_scan false vec_scale out_lens arg)
        end
  end.

Definition parse_args (args : list instruction) (in_lens : list Z)
    (vec_scale : list double) (out_lens : list Z) (r : instruction)
    : outcome scan :=
  match args with
  | [] => Throw MissingScaleOrSizeInput
  | front :: _ => parse_args_from front args in_lens vec_scale out_lens r
  end.

(** ** The lowering *)

Section Lowering.

(** Modelled from the spec: the two policy tables of [op::resize] are not
    part of the sources at hand; the specification leaves their formulas
    open ("an external, pluggable table") and fixes their signatures: a
    rounding policy [g(in_len, continuous_coord)] and a coordinate
    transform [f(in_len, out_len, out_coord, scale)], each looked up by
    name. *)
Variable get_nearest_op : string → Z → double → Z.
Variable get_original_idx_op : string → Z → Z → Z → double → double.

(** The loop over [ii] in the callback of [make_gather_instruction]. *)
Definition nearest_in_idx (nearest_op : Z → double → Z)
    (idx_op : Z → Z → Z → double → double)
    (in_lens out_lens : list Z) (vec_scale : list double)
    (out_idx_v : list Z) : list Z :=
  foldl (λ in_idx ii,
           let idx_val := idx_op (in_lens !!! ii) (out_lens !!! ii)
                                 (out_idx_v !!! ii) (vec_scale !!! ii) in
           <[ii := nearest_op (in_lens !!! ii) idx_val]> in_idx)
        (replicate (length out_idx_v) 0) (seq 0 (length in_lens)).

(** The vector [ind] of [make_gather_instruction] after its
    [shape_for_each]: the flat source offset of every output element. *)
Definition gather_ind (nearest_op : Z → double → Z)
    (idx_op : Z → Z → Z → double → double) (out_elements : Z)
    (in_s out_s : shape) (in_lens out_lens : list Z)
    (vec_scale : list double) : list Z :=
  shape_for_each out_s
    (λ out_idx_v out_idx ind,
       let in_idx :=
         nearest_in_idx nearest_op idx_op in_lens out_lens vec_scale out_idx_v in
       <[out_idx := to_int (to_int64 (index in_s in_idx))]> ind)
    (replicate (Z.to_nat out_elements) 0).

Definition make_gather_instruction (attributes : attribute_map)
    (out_elements : Z) (in_s out_s : shape) (in_lens out_lens : list Z)
    (vec_scale : list double) (args_0 : instruction)
    : builder instruction_ref :=
  let nearest_mode := get_nearest_mode attributes in
  let nearest_op := get_nearest_op nearest_mode in
  coord_trans_mode ← lift (get_coord_trans_mode attributes);
  let idx_op := get_original_idx_op coord_trans_mode in
  let ind := gather_ind nearest_op idx_op out_elements in_s out_s
                        in_lens out_lens vec_scale in
  let rsp_lens := [to_int64 (elements in_s)] in
  rsp ← add_instruction (op_reshape rsp_lens) [ref_arg args_0];
  let ind_s := static_shape int32_type out_lens in
  ins_ind ← add_literal ind_s (arg_int ind);
  add_instruction (op_gather 0) [rsp; ins_ind].

(** What [parse] has resolved once the scales and sizes are read
    (the local variables live at line 356 of the source). *)
Record resolved : Type := mk_resolved {
  in_s : shape;
  in_lens : list Z;
  out_lens : list Z;
  vec_scale : list double;
  scales_sizes_arg : instruction;
  is_constant_scale_input : bool
}.

(** [static_cast<std::size_t>(idx * scale)] over the dimensions. *)
Definition scaled_lens (in_lens : list Z) (vec_scale : list double)
    : outcome (list Z) :=
  match mapM (λ p : Z * double,
                size_t_of_double (PrimFloat.mul (double_of_Z p.1) p.2))
             (zip in_lens vec_scale) with
  | Some l => Ok l
  | None => Undefined
  end.

(** Lines 311 to 355 of [parse]: the input shape, the scales and the
    output lengths. *)
Definition resolve (opd : op_desc) (attributes : attribute_map)
    (args_0 : instruction) (args : list instruction) : outcome resolved :=
  let in_s := to_static 1 (get_shape args_0) in
  let in_lens := lens in_s in
  let out_lens := replicate (length in_lens) 0 in
  let vec_scale := get_scales attributes in
  let scales_sizes_arg := args_0 in
  let is_constant_scale_input := bool_decide (vec_scale ≠ []) in
  sc ← (if is_constant_scale_input
        then Ok (mk_scan false vec_scale out_lens scales_sizes_arg)
        else parse_args args in_lens vec_scale out_lens scales_sizes_arg);
  let is_constant_scale_input := negb (non_static sc) in
  let vec_scale := scan_scale sc in
  let out_lens := scan_out_lens sc in
  let scales_sizes_arg := r_arg sc in
  if is_constant_scale_input then
    if decide (length in_lens ≠ length vec_scale) then Throw RankMismatch
    else
      out_lens' ← (if forallb (λ o, o =? 0) out_lens
                   then scaled_lens in_lens vec_scale
                   else Ok out_lens);
      Ok (mk_resolved in_s in_lens out_lens' vec_scale scales_sizes_arg true)
  else
    Ok (mk_resolved in_s in_lens out_lens vec_scale scales_sizes_arg false).

(** The tables filled by the [shape_for_each] of the linear branch:
    [vvv_ind[ii][0|1][out_idx]] and [delta[ii][out_idx]]. *)
Definition linear_tables (idx_op : Z → Z → Z → double → double)
    (in_lens out_lens : list Z) (vec_scale : list double) (out_s : shape)
    (out_elements : Z) : list (list (list Z)) * list (list double) :=
  let nearest_floor := get_nearest_op "floor" in
  let nearest_ceil := get_nearest_op "ceil" in
  let n_dim := length out_lens in
  let vv_ind := replicate 2 (replicate (Z.to_nat out_elements) 0) in
  let vvv_ind := replicate n_dim vv_ind in
  let delta := replicate n_dim (replicate (Z.to_nat out_elements) PrimFloat.zero) in
  shape_for_each out_s
    (λ out_idx_v out_idx st,
       foldl (λ (st : list (list (list Z)) * list (list double)) ii,
                let '(vvv_ind, delta) := st in
                let idx_val := idx_op (in_lens !!! ii) (out_lens !!! ii)
                                      (out_idx_v !!! ii) (vec_scale !!! ii) in
                let vvv_ind :=
                  alter (alter (λ v, <[out_idx := nearest_floor (in_lens !!! ii) idx_val]> v)
                               0%nat) ii vvv_ind in
                let vvv_ind :=
                  alter (alter (λ v, <[out_idx := nearest_ceil (in_lens !!! ii) idx_val]> v)
                               1%nat) ii vvv_ind in
                let delta :=
                  alter (λ v, <[out_idx :=
                                 float_of_double
                                   (PrimFloat.sub idx_val
                                      (double_of_Z (((vvv_ind !!! ii) !!! 0%nat) !!! out_idx)))]> v)
                        ii delta in
                (vvv_ind, delta))
             st (seq 0 (length in_lens)))
    (vvv_ind, delta).

(** [v[0] = f(v[0])] on a vector; undefined on an empty one. *)
Definition update_front (f : Z → Z) (v : list Z) : outcome (list Z) :=
  match v with
  | [] => Undefined
  | x :: t => Ok (f x :: t)
  end.

(** One turn of the blending loop (lines 431 to 452), for the dimension
    [n_dim - i - 1]. *)
Definition blend_step (out_lens : list Z) (delta : list (list double))
    (n_dim i : nat) (st : instruction_ref * list Z)
    : builder (instruction_ref * list Z) :=
  let '(data, dim_lens) := st in
  let dim_s := static_shape float_type dim_lens in
  let dim_delta := delta !!! (n_dim - i - 1)%nat in
  match dim_lens, out_lens with
  | dim_lens0 :: _, out_lens0 :: _ =>
      if decide (out_lens0 = 0) then lift Undefined
      else
        let delta_data :=
          foldl (λ acc _, dim_delta ++ acc) []
                (seq 0 (Z.to_nat (dim_lens0 `div` out_lens0))) in
        ins_delta ← add_literal dim_s (arg_real delta_data);
        let slc_stride := to_int64 dim_lens0 in
        low ← add_instruction (op_slice [0] [0] [slc_stride]) [data];
        hi ← add_instruction
               (op_slice [0] [slc_stride] [to_int64 (2 * slc_stride)]) [data];
        diff ← add_instruction op_sub [hi; low];
        ddf ← add_instruction op_mul [diff; ins_delta];
        data ← add_instruction op_add [ddf; low];
        dim_lens ← lift (update_front (λ x, x `div` 2) dim_lens);
        mret (data, dim_lens)
  | _, _ => lift Undefined
  end.

Fixpoint blend_loop (out_lens : list Z) (delta : list (list double))
    (n_dim : nat) (steps : list nat) (st : instruction_ref * list Z)
    : builder (instruction_ref * list Z) :=
  match steps with
  | [] => mret st
  | i :: steps' =>
      st' ← blend_step out_lens delta n_dim i st;
      blend_loop out_lens delta n_dim steps' st'
  end.

(** The branch [mode == "nearest"] of [parse] (lines 359 to 382). *)
Definition nearest_branch (attributes : attribute_map)
    (coord_trans_mode nearest_mode : string) (r : resolved)
    (args_0 : instruction) : builder instruction_ref :=
  if dynamic (get_shape args_0) || negb (is_constant_scale_input r) then
    add_instruction (op_resize nearest_mode coord_trans_mode)
                    [ref_arg args_0; ref_arg (scales_sizes_arg r)]
  else
    let out_s := static_shape (type (in_s r)) (out_lens r) in
    let out_elements := elements out_s in
    make_gather_instruction attributes out_elements (in_s r) out_s
                            (in_lens r) (out_lens r) (vec_scale r) args_0.

(** The linear branch of [parse] (lines 389 to 455). *)
Definition linear_branch (idx_op : Z → Z → Z → double → double)
    (r : resolved) (args_0 : instruction) : builder instruction_ref :=
  if negb (is_constant_scale_input r)
  then lift (Throw UnsupportedDynamicLinear)
  else
    let out_s := static_shape (type (in_s r)) (out_lens r) in
    let out_elements := elements out_s in
    let rsp_lens := [to_int64 (elements (in_s r))] in
    rsp ← add_instruction (op_reshape rsp_lens) [ref_arg args_0];
    let n_dim := length (out_lens r) in
    let tables :=
      linear_tables idx_op (in_lens r) (out_lens r) (vec_scale r)
                    out_s out_elements in
    let vvv_ind := tables.1 in
    let delta := tables.2 in
    ind ← lift (calc_neighbor_points vvv_ind (in_s r));
    ind_lens ← lift (update_front
                       (λ x, wrap_size_t (x * Z.shiftl 1 (Z.of_nat n_dim)))
                       (out_lens r));
    let ind_s := static_shape int32_type ind_lens in
    ins_ind ← add_literal ind_s (arg_int ind);
    data ← add_instruction (op_gather 0) [rsp; ins_ind];
    dim_lens ← lift (update_front
                       (λ x, wrap_size_t (x * Z.shiftl 1 (Z.of_nat n_dim - 1)))
                       (out_lens r));
    st ← blend_loop (out_lens r) delta n_dim (seq 0 n_dim) (data, dim_lens);
    mret st.1.

Definition parse (opd : op_desc) (attributes : attribute_map)
    (args : list instruction) : builder instruction_ref :=
  coord_trans_mode ← lift (get_coord_trans_mode attributes);
  mode ← lift (get_mode attributes);
  let nearest_mode := get_nearest_mode attributes in
  let idx_op := get_original_idx_op coord_trans_mode in
  if bool_decide (AttributeProto.i <$> attributes !! "exclude_outside" = Some 1)
  then lift (Throw UnsupportedExcludeOutside)
  else
    match args with
    | [] => lift Undefined
    | args_0 :: _ =>
        r ← lift (resolve opd attributes args_0 args);
        if decide (mode = "nearest")
        then nearest_branch attributes coord_trans_mode nearest_mode r args_0
        else linear_branch idx_op r args_0
    end.

End Lowering.

(** ** A sample policy table

    Concrete policies on which the lowering can be run: rounding by floor
    or ceiling followed by the clamp to [[0, in_len - 1]], and the
    asymmetric and half-pixel coordinate transforms. *)

Definition double_floor (x : double) : Z :=
  match FloatOps.Prim2SF x with
  | SpecFloat.S754_finite s m e =>
      let sm := if s then Z.neg m else Z.pos m in
      if 0 <=? e then sm * 2 ^ e else sm `div` 2 ^ (- e)
  | _ => 0
  end.

Definition double_ceil (x : double) : Z := - double_floor (PrimFloat.opp x).

Definition clamp (in_len v : Z) : Z := Z.max 0 (Z.min (in_len - 1) v).

Definition sample_nearest_op (mode : string) (in_len : Z) (x : double) : Z :=
  if decide (mode = "ceil") then clamp in_len (double_ceil x)
  else clamp in_len (double_floor x).

Definition one_half : double := PrimFloat.div PrimFloat.one PrimFloat.two.

Definition sample_idx_op (mode : string) (in_len out_len idx : Z)
    (scale : double) : double :=
  if decide (mode = "asymmetric") then PrimFloat.div (double_of_Z idx) scale
  else PrimFloat.sub
         (PrimFloat.div (PrimFloat.add (double_of_Z idx) one_half) scale)
         one_half.

Definition sample_parse := parse sample_nearest_op sample_idx_op.

(** ** Vocabulary of the properties *)

(** The sign of a double, read off its representation. *)
Definition is_negative (x : double) : bool :=
  match FloatOps.Prim2SF x with
  | SpecFloat.S754_zero s | SpecFloat.S754_infinity s => s
  | SpecFloat.S754_finite s _ _ => s
  | SpecFloat.S754_nan => false
  end.

(** The table has two rows of [m_elements] entries per dimension. *)
Definition table_dims (vvv_ind : list (list (list Z))) (m_elements : nat) : Prop :=
  Forall (λ vv, length vv = 2%nat ∧ Forall (λ v, length v = m_elements) vv) vvv_ind.

(** Every entry of dimension [d] is a valid index of dimension [d] of the
    input shape (which also makes the table as long as the rank). *)
Definition table_valid (vvv_ind : list (list (list Z))) (in_s : shape) : Prop :=
  Forall2 (λ vv n, Forall (Forall (λ x, 0 ≤ x < n)) vv) vvv_ind (lens in_s).

(** The coordinate tuple read for corner [val] and element [e]: dimension
    [d] takes row [bit d of val] of the table, the bits counted from the
    least significant one. *)
Definition corner_tuple (vvv_ind : list (list (list Z))) (val : Z) (e : nat)
    : list Z :=
  (λ d : nat, ((vvv_ind !!! d) !!! bitset_at val d) !!! e) <$> seq 0 (length vvv_ind).

(** The selection of rows as the specification words it: the bits of the
    corner value read from the most significant to the least significant,
    dimension [0] taking the most significant of the rank bits. *)
Definition msb_first_tuple (vvv_ind : list (list (list Z))) (val : Z) (e : nat)
    : list Z :=
  (λ d : nat, ((vvv_ind !!! d) !!! bitset_at val (length vvv_ind - 1 - d)) !!! e)
    <$> seq 0 (length vvv_ind).

(** An argument the scan of [parse_args] stops at: it is not a placeholder,
    not the data argument, and its shape has a rank. *)
Definition eligible (front arg : instruction) : Prop :=
  ¬ (name arg = "undefined" ∨ ins_id arg = ins_id front) ∧ lens (get_shape arg) ≠ [].

Global Instance eligible_dec front arg : Decision (eligible front arg).
Proof. unfold eligible. apply _. Defined.

Definition first_eligible (args : list instruction) : option instruction :=
  match args with
  | [] => None
  | front :: _ => snd <$> list_find (eligible front) args
  end.

(** The argument the scan stops at gives explicit output sizes. *)
Definition sizes_supplied (attributes : attribute_map) (args : list instruction) : Prop :=
  get_scales attributes = [] ∧
  ∃ a, first_eligible args = Some a ∧ type (get_shape a) = int64_type.

(** What [parse_args] returns when it stops at the argument [a]. *)
Inductive scan_of (in_lens : list Z) (vec_scale : list double) (out_lens : list Z)
    (a : instruction) : scan → Prop :=
| scan_sizes_runtime :
    type (get_shape a) = int64_type → eval a = arg_empty →
    scan_of in_lens vec_scale out_lens a (mk_scan true vec_scale out_lens a)
| scan_sizes sizes :
    type (get_shape a) = int64_type → eval a ≠ arg_empty →
    assign_size_t (eval a) = Ok sizes → length sizes = length in_lens →
    scan_of in_lens vec_scale out_lens a
            (mk_scan false (zip_with scale_of in_lens sizes) sizes a)
| scan_scales_runtime :
    type (get_shape a) ≠ int64_type →
    head (lens (get_shape a)) = Some (Z.of_nat (length in_lens)) →
    eval a = arg_empty →
    scan_of in_lens vec_scale out_lens a (mk_scan true vec_scale out_lens a)
| scan_scales :
    type (get_shape a) ≠ int64_type →
    head (lens (get_shape a)) = Some (Z.of_nat (length in_lens)) →
    eval a ≠ arg_empty →
    scan_of in_lens vec_scale out_lens a
            (mk_scan false (assign_double (eval a)) out_lens a)
| scan_other :
    type (get_shape a) ≠ int64_type →
    head (lens (get_shape a)) ≠ Some (Z.of_nat (length in_lens)) →
    scan_of in_lens vec_scale out_lens a (mk_scan false vec_scale out_lens a).

(** Every output length is the input length times the scale, converted to
    [std::size_t]: the product truncated, which is its floor when the
    product is not negative. *)
Definition lengths_from_scales (r : resolved) : Prop :=
  ∀ (i : nat) (in_len : Z) (scale : double),
    in_lens r !! i = Some in_len → vec_scale r !! i = Some scale →
    ∃ out_len, out_lens r !! i = Some out_len ∧
      size_t_of_double (PrimFloat.mul (double_of_Z in_len) scale) = Some out_len ∧
      (is_negative (PrimFloat.mul (double_of_Z in_len) scale) = false →
         out_len = double_floor (PrimFloat.mul (double_of_Z in_len) scale)).

(** Every scale is the output length divided by the input length,
    [1.0 * out_len / in_len] in doubles. *)
Definition scales_from_sizes (r : resolved) : Prop :=
  ∀ (i : nat) (in_len out_len : Z),
    in_lens r !! i = Some in_len → out_lens r !! i = Some out_len →
    vec_scale r !! i =
      Some (PrimFloat.div (PrimFloat.mul PrimFloat.one (double_of_Z out_len))
                          (double_of_Z in_len)).

(** The elements of an evaluated argument read as doubles: the reals
    themselves, or the integers converted. *)
Definition elements_as_doubles (a : argument) (vs : list double) : Prop :=
  match a with
  | arg_empty => False
  | arg_int v => vs = double_of_Z <$> v
  | arg_real v => vs = v
  end.

(** The elements of an evaluated argument read as [std::size_t]: the
    integers modulo [2^64], or the reals truncated. *)
Definition elements_as_sizes (a : argument) (ol : list Z) : Prop :=
  match a with
  | arg_empty => False
  | arg_int v => ol = (λ z, z `mod` 2 ^ 64) <$> v
  | arg_real v => Forall2 (λ x o, size_t_of_double x = Some o) v ol
  end.

(** Where the scale vector [vs] of a call without explicit sizes comes
    from, for data of the given rank: it is the value of the non-empty
    [scales] attribute; or, without such an attribute, the first eligible
    argument is not of type [int64], its leading length is the rank and its
    elements are the scales.  (For data of rank zero an argument of another
    leading length leaves the scale vector empty.) *)
Definition scales_read (attributes : attribute_map) (args : list instruction)
    (rank : nat) (vs : list double) : Prop :=
  (∃ t, attributes !! "scales" = Some t ∧ AttributeProto.floats t ≠ [] ∧
        vs = AttributeProto.floats t) ∨
  ((∀ t, attributes !! "scales" = Some t → AttributeProto.floats t = []) ∧
   ∃ a, first_eligible args = Some a ∧ type (get_shape a) ≠ int64_type ∧
        ((head (lens (get_shape a)) = Some (Z.of_nat rank) ∧
          elements_as_doubles (eval a) vs) ∨
         (head (lens (get_shape a)) ≠ Some (Z.of_nat rank) ∧
          rank = 0%nat ∧ vs = []))).

(** The per-dimension source indices of an output coordinate, as the
    specification words them:
    [nearest_op(in_len[d], idx_op(in_len[d], out_len[d], out_coord[d], scale[d]))]. *)
Definition nearest_tuple (nearest_op : Z → double → Z)
    (idx_op : Z → Z → Z → double → double) (in_lens out_lens : list Z)
    (vec_scale : list double) (out_coord : list Z) : list Z :=
  (λ d : nat, nearest_op (in_lens !!! d)
                (idx_op (in_lens !!! d) (out_lens !!! d) (out_coord !!! d)
                        (vec_scale !!! d))) <$> seq 0 (length in_lens).

(** The three nodes of the compile-time nearest lowering: the reshape of
    the input to one dimension, the literal of source offsets, the gather. *)
Definition gather_nodes (args_0 : instruction) (in_elements : Z)
    (out_lens ind : list Z) (pos : nat) : list node :=
  [ ins (op_reshape [in_elements]) [ref_arg args_0];
    lit (static_shape int32_type out_lens) (arg_int ind);
    ins (op_gather 0) [ref_new pos; ref_new (pos + 1)] ].

(** The six nodes of one blending turn as the specification words them: the
    delta values tiled to the block, the low and the high half of the
    current tensor, and [low + (high - low) * delta].  [pos] is the position
    of the first of them. *)
Definition blend_nodes (rest : list Z) (dim_delta : list double) (tiles : nat)
    (block : Z) (data : instruction_ref) (pos : nat) : list node :=
  [ lit (static_shape float_type (block :: rest))
        (arg_real (mjoin (replicate tiles dim_delta)));
    ins (op_slice [0] [0] [block]) [data];
    ins (op_slice [0] [block] [2 * block]) [data];
    ins op_sub [ref_new (pos + 2); ref_new (pos + 1)];
    ins op_mul [ref_new (pos + 3); ref_new pos];
    ins op_add [ref_new (pos + 4); ref_new (pos + 1)] ].

(** Turn [j] of the blending loop for a rank [n] and a leading output
    length [o0]: it takes the delta row of dimension [n - 1 - j], tiled
    [2^(n-1-j)] times to the block of leading length [o0 * 2^(n-1-j)], and
    blends the tensor left by the turn before (the gather, at position
    [base], for the first turn). *)
Definition blend_turn (o0 : Z) (ol : list Z) (delta : list (list double))
    (n base j : nat) : list node :=
  blend_nodes ol (delta !!! (n - 1 - j)%nat) (2 ^ (n - 1 - j))
              (o0 * 2 ^ Z.of_nat (n - 1 - j))
              (ref_new (base + 6 * j)) (base + 1 + 6 * j).

(** The attributes the parser reads besides [exclude_outside]. *)
Definition read_keys : list string :=
  ["coordinate_transformation_mode"; "mode"; "nearest_mode"; "scales"].

(** Two attribute maps that agree on the four keys of [read_keys] and on
    whether [exclude_outside] is [1]. *)
Definition same_read_attributes (a b : attribute_map) : Prop :=
  (∀ k, k ∈ read_keys → a !! k = b !! k) ∧
  (AttributeProto.i <$> a !! "exclude_outside" = Some 1 ↔
   AttributeProto.i <$> b !! "exclude_outside" = Some 1).

(** The attributes pass the three checks at the head of [parse]. *)
Definition config_accepted (attributes : attribute_map) : Prop :=
  (∃ c, get_coord_trans_mode attributes = Ok c) ∧
  (∃ mode, get_mode attributes = Ok mode) ∧
  AttributeProto.i <$> attributes !! "exclude_outside" ≠ Some 1.

(** The handles a node reads. *)
Definition node_inputs (n : node) : list instruction_ref :=
  match n with
  | ins _ inputs => inputs
  | lit _ _ => []
  end.

(** A handle that a node inserted at position [pos] may read, in a call
    that found [base] nodes in the graph: one of the arguments of the call,
    or a node the call itself inserted before it (the positions from
    [base] on and below [pos]).  The nodes that were in the graph before
    the call are not in scope. *)
Definition handle_in_scope (args : list instruction) (base pos : nat)
    (r : instruction_ref) : Prop :=
  match r with
  | ref_arg a => a ∈ args
  | ref_new p => (base ≤ p < pos)%nat
  end.

(** Every input of every node of [nodes], inserted from position [from]
    on by a call that found [base] nodes in the graph, is in scope. *)
Definition inserted_from (args : list instruction) (base from : nat)
    (nodes : list node) : Prop :=
  ∀ (k : nat) (n : node),
    nodes !! k = Some n →
    Forall (handle_in_scope args base (from + k)) (node_inputs n).

(** The nodes a call appends to a graph of [base] nodes are in scope. *)
Definition inserted_in_scope (args : list instruction) (base : nat)
    (nodes : list node) : Prop :=
  inserted_from args base base nodes.

(** A literal holds as many elements as its shape has. *)
Definition literal_sized (n : node) : Prop :=
  match n with
  | lit s (arg_int v) => Z.of_nat (length v) = elements s
  | lit s (arg_real v) => Z.of_nat (length v) = elements s
  | _ => True
  end.

(** ** Inputs on which the lowering is run below *)

Definition table_2x3 : list (list (list Z)) := [[[0; 1]; [1; 1]]; [[0; 2]; [1; 2]]].
Definition shape_2x3 : shape := static_shape float_type [2; 3].
Definition table_2x2 : list (list (list Z)) := [[[0]; [1]]; [[0]; [1]]].
Definition shape_2x2 : shape := static_shape float_type [2; 2].
Definition table_wide : list (list (list Z)) := [[[2147483648]; [2147483648]]].
Definition shape_wide : shape := static_shape float_type [2147483649].

Definition Resize : op_desc := mk_op_desc "Resize" "resize".
Definition Upsample : op_desc := mk_op_desc "Upsample" "upsample".

Definition attr_s (v : string) : AttributeProto.t := AttributeProto.mk v 0 [].
Definition attr_i (v : Z) : AttributeProto.t := AttributeProto.mk "" v [].
Definition attr_floats (v : list double) : AttributeProto.t := AttributeProto.mk "" 0 v.

Definition linear_mode : attribute_map := {["mode" := attr_s "linear"]}.

(** A float input of shape [1 x 1 x 4], one of shape [1 x 1 x 2], and the
    constant scales [1, 1, 2]. *)
Definition data_1x1x4 : instruction :=
  mk_instruction 0 "@param" (static_shape float_type [1; 1; 4]) arg_empty.
Definition data_1x1x2 : instruction :=
  mk_instruction 0 "@param" (static_shape float_type [1; 1; 2]) arg_empty.
Definition scales_1_1_2 : instruction :=
  mk_instruction 1 "@literal" (static_shape float_type [3])
    (arg_real [PrimFloat.one; PrimFloat.one; PrimFloat.two]).

(** Constant sizes [1, 1, 8] and [2]; scales that are only known at run
    time. *)
Definition sizes_1_1_8 : instruction :=
  mk_instruction 2 "@literal" (static_shape int64_type [3]) (arg_int [1; 1; 8]).
Definition sizes_2 : instruction :=
  mk_instruction 2 "@literal" (static_shape int64_type [1]) (arg_int [2]).
Definition scales_runtime : instruction :=
  mk_instruction 1 "@param" (static_shape float_type [3]) arg_empty.

(** A one-dimensional input of [2^32] elements. *)
Definition data_wide : instruction :=
  mk_instruction 0 "@param" (static_shape float_type [4294967296]) arg_empty.

(** An input of 64 dimensions of length one, with its 64 scales. *)
Definition data_rank64 : instruction :=
  mk_instruction 0 "@param" (static_shape float_type (replicate 64 1)) arg_empty.
Definition scales_rank64 : attribute_map :=
  <["scales" := attr_floats (replicate 64 PrimFloat.one)]> linear_mode.

(** An input whose second dimension is only known at run time, and the
    [scales] attribute of an Upsample node. *)
Definition data_dynamic : instruction :=
  mk_instruction 0 "@param" (mk_shape float_type [(1, false); (4, true)]) arg_empty.
Definition scales_1_2 : attribute_map :=
  <["scales" := attr_floats [PrimFloat.one; PrimFloat.two]]> linear_mode.

(** An empty input of shape [2^62 x 0], and one of shape [1 x 4] scaled by
    one half along its first dimension. *)
Definition data_tall : instruction :=
  mk_instruction 0 "@param" (static_shape float_type [4611686018427387904; 0]) arg_empty.
Definition scales_1_1 : attribute_map :=
  <["scales" := attr_floats [PrimFloat.one; PrimFloat.one]]> linear_mode.
Definition data_1x4 : instruction :=
  mk_instruction 0 "@param" (static_shape float_type [1; 4]) arg_empty.
Definition scales_half_1 : attribute_map :=
  <["scales" := attr_floats [one_half; PrimFloat.one]]> linear_mode.

(** The values [resolve] reaches on [data_1x1x4] with [scales_1_1_2] and
    on [data_1x1x2] with [scales_1_1_2]. *)
Definition resolved_1x1x8 : resolved :=
  mk_resolved (static_shape float_type [1; 1; 4]) [1; 1; 4] [1; 1; 8]
              [PrimFloat.one; PrimFloat.one; PrimFloat.two] scales_1_1_2 true.
Definition resolved_1x1x4 : resolved :=
  mk_resolved (static_shape float_type [1; 1; 2]) [1; 1; 2] [1; 1; 4]
              [PrimFloat.one; PrimFloat.one; PrimFloat.two] scales_1_1_2 true.
Definition resolved_sizes_1x1x8 : resolved :=
  mk_resolved (static_shape float_type [1; 1; 4]) [1; 1; 4] [1; 1; 8]
              [PrimFloat.one; PrimFloat.one; PrimFloat.two] sizes_1_1_8 true.
Definition resolved_runtime : resolved :=
  mk_resolved (static_shape float_type [1; 1; 4]) [1; 1; 4] [0; 0; 0]
              [] scales_runtime false.

(** The tables of the linear lowering of [data_1x1x2] by the scales
    [1, 1, 2]. *)
Definition tables_1x1x4 : list (list (list Z)) * list (list double) :=
  linear_tables sample_nearest_op (sample_idx_op "half_pixel") [1; 1; 2] [1; 1; 4]
                [PrimFloat.one; PrimFloat.one; PrimFloat.two]
                (static_shape float_type [1; 1; 4]) 4.

(** Attributes the lowering does not read, and an [exclude_outside] of
    zero, added to the linear mode. *)
Definition linear_mode_antialias : attribute_map :=
  <["antialias" := attr_i 1]> (<["exclude_outside" := attr_i 0]> linear_mode).
Definition linear_mode_exclude_0 : attribute_map :=
  <["exclude_outside" := attr_i 0]> linear_mode.

(** The [scales] attribute [1, 2] of an Upsample node in nearest mode. *)
Definition upsample_1_2 : attribute_map :=
  {["scales" := attr_floats [PrimFloat.one; PrimFloat.two]]}.

(** A placeholder for an omitted optional input, an input of empty shape,
    and a region of interest of six values. *)
Definition arg_undefined : instruction :=
  mk_instruction 3 "undefined" (static_shape float_type [3]) arg_empty.
Definition arg_no_lens : instruction :=
  mk_instruction 4 "@literal" (static_shape float_type []) (arg_real [PrimFloat.one]).
Definition roi_6 : instruction :=
  mk_instruction 5 "@literal" (static_shape float_type [6])
    (arg_real [PrimFloat.zero; PrimFloat.zero; PrimFloat.zero;
               PrimFloat.one; PrimFloat.one; PrimFloat.one]).

(** The values [resolve] reaches on [data_rank64] with [scales_rank64] and
    on [data_dynamic] with [upsample_1_2]. *)
Definition resolved_rank64 : resolved :=
  mk_resolved (static_shape float_type (replicate 64 1)) (replicate 64 1)
              (replicate 64 1) (replicate 64 PrimFloat.one) data_rank64 true.
Definition resolved_dynamic : resolved :=
  mk_resolved (static_shape float_type [1; 1]) [1; 1] [1; 2]
              [PrimFloat.one; PrimFloat.two] data_dynamic true.

(** Sizes [1, 1, 8] given as 32-bit integers, and what [resolve] reaches
    with them on [data_1x1x4]. *)
Definition sizes_int32_1_1_8 : instruction :=
  mk_instruction 2 "@literal" (static_shape int32_type [3]) (arg_int [1; 1; 8]).
Definition resolved_int32_1_1_8 : resolved :=
  mk_resolved (static_shape float_type [1; 1; 4]) [1; 1; 4] [1; 1; 32]
              (double_of_Z <$> [1; 1; 8]) sizes_int32_1_1_8 true.

(** A one-dimensional input of one element, and the [scales] attribute
    [-0.5]. *)
Definition data_1 : instruction :=
  mk_instruction 0 "@param" (static_shape float_type [1]) arg_empty.
Definition scales_neg_half : attribute_map :=
  {["scales" := attr_floats [PrimFloat.opp one_half]]}.

(** * Properties *)

(** ** Machine numbers and flat offsets *)

Lemma to_int_small (z : Z) : - 2 ^ 31 ≤ z < 2 ^ 31 → to_int z = z.
Proof.
  intros Hz. unfold to_int.
  rewrite Z.mod_small by lia. lia.
Qed.

Lemma to_int64_small (z : Z) : - 2 ^ 63 ≤ z < 2 ^ 63 → to_int64 z = z.
Proof.
  intros Hz. unfold to_int64.
  rewrite Z.mod_small by lia. lia.
Qed.

(** Going through [int64_t] first does not change the [int] obtained. *)
Lemma to_int_to_int64 (z : Z) : to_int (to_int64 z) = to_int z.
Proof.
  unfold to_int, to_int64.
  f_equal.
  replace (2 ^ 64) with (2 ^ 32 * 2 ^ 32) by reflexivity.
  pose proof (Z.div_mod (z + 2 ^ 63) (2 ^ 32 * 2 ^ 32) ltac:(lia)) as Hdm.
  set (q := (z + 2 ^ 63) `div` (2 ^ 32 * 2 ^ 32)) in *.
  set (w := (z + 2 ^ 63) `mod` (2 ^ 32 * 2 ^ 32)) in *.
  replace (w - 2 ^ 63 + 2 ^ 31) with (z + 2 ^ 31 + (- q * 2 ^ 32) * 2 ^ 32) by lia.
  apply Z.mod_add. lia.
Qed.

Lemma Z_to_nat_pow2 (r : nat) : Z.to_nat (2 ^ Z.of_nat r) = (2 ^ r)%nat.
Proof.
  change 2 with (Z.of_nat 2). rewrite <- Nat2Z.inj_pow. apply Nat2Z.id.
Qed.

(** A coordinate tuple within the lengths has its flat offset within the
    number of elements. *)
Lemma dot_strides_bounds (idx l : list Z) :
  Forall2 (λ i n, 0 ≤ i < n) idx l →
  0 ≤ dot idx (strides l) < product l.
Proof.
  induction 1 as [|i n idx l Hi _ IH]; [unfold dot, product; simpl; lia|].
  unfold dot in *. simpl.
  change (foldr Z.mul 1 l) with (product l). nia.
Qed.

Lemma index_bounds (s : shape) (idx : list Z) :
  Forall2 (λ i n, 0 ≤ i < n) idx (lens s) →
  0 ≤ index s idx < elements s.
Proof. apply dot_strides_bounds. Qed.

Lemma multi_dot_strides (c l : list Z) :
  Forall2 (λ i n, 0 ≤ i < n) c l →
  ∀ q, zip_with (λ n st, ((q * product l + dot c (strides l)) `div` st) `mod` n)
                l (strides l) = c.
Proof.
  induction 1 as [|i n c l Hi Hcl IH]; intros q; [done|].
  pose proof (dot_strides_bounds c l Hcl) as Hd.
  assert (Heq : q * product (n :: l) + dot (i :: c) (strides (n :: l))
                = (q * n + i) * product l + dot c (strides l)).
  { change (product (n :: l)) with (n * product l).
    change (dot (i :: c) (strides (n :: l)))
      with (i * product l + dot c (strides l)).
    lia. }
  rewrite Heq. cbn [strides zip_with]. f_equal.
  - rewrite Z.div_add_l by lia.
    rewrite (Z.div_small (dot c (strides l))) by lia.
    rewrite Z.add_0_r, Z.add_comm, Z.mod_add by lia.
    apply Z.mod_small. lia.
  - apply IH.
Qed.

(** The coordinate tuple of the flat offset of a coordinate tuple is that
    tuple: the entry of a tensor for the coordinate [c] is the one at flat
    position [index s c]. *)
Lemma multi_index (s : shape) (c : list Z) :
  Forall2 (λ i n, 0 ≤ i < n) c (lens s) → multi s (index s c) = c.
Proof.
  intros Hc. unfold multi, index.
  pose proof (multi_dot_strides c (lens s) Hc 0) as H.
  by rewrite Z.mul_0_l, Z.add_0_l in H.
Qed.

Lemma length_strides (l : list Z) : length (strides l) = length l.
Proof. induction l as [|x l IH]; simpl; by rewrite ?IH. Qed.

Lemma length_multi (s : shape) (i : Z) : length (multi s i) = length (lens s).
Proof. unfold multi. rewrite length_zip_with, length_strides. lia. Qed.

Lemma lens_static_shape (t : type_t) (l : list Z) : lens (static_shape t l) = l.
Proof.
  unfold lens, static_shape. simpl. rewrite <- list_fmap_compose.
  by rewrite list_fmap_id.
Qed.

(** A shape without run-time dimensions is its own static version. *)
Lemma to_static_static (x : Z) (s : shape) : dynamic s = false → to_static x s = s.
Proof.
  destruct s as [t d]. unfold dynamic, to_static. simpl. intros H. f_equal.
  induction d as [|[n b] d IH]; [done|].
  rewrite fmap_cons. simpl in H. apply orb_false_iff in H as [-> H].
  by rewrite IH.
Qed.

(** ** Vectors written by index, blocks and tiles *)

Lemma foldl_invariant {A B} (P : A → Prop) (f : A → B → A) (l : list B) (a : A) :
  P a → (∀ a x, P a → P (f a x)) → P (foldl f a l).
Proof.
  intros Ha Hf. revert a Ha. induction l as [|x l IH]; intros a Ha; simpl; auto.
Qed.

(** Writing [f i] at every position [i < k] of a vector of [n] defaults. *)
Lemma foldl_insert_seq_prefix {A} (f : nat → A) (n k : nat) (d : A) :
  (k ≤ n)%nat →
  foldl (λ acc i, <[i := f i]> acc) (replicate n d) (seq 0 k) =
    (f <$> seq 0 k) ++ replicate (n - k) d.
Proof.
  induction k as [|k IH]; intros Hk.
  - simpl. by rewrite Nat.sub_0_r.
  - rewrite seq_S, foldl_app, IH by lia. simpl.
    rewrite fmap_app. simpl.
    rewrite insert_app_r_alt by (rewrite length_fmap, length_seq; lia).
    rewrite length_fmap, length_seq, Nat.sub_diag.
    replace (n - k)%nat with (S (n - S k)) by lia. simpl.
    by rewrite <- app_assoc.
Qed.

Lemma foldl_insert_seq {A} (f : nat → A) (n : nat) (d : A) :
  foldl (λ acc i, <[i := f i]> acc) (replicate n d) (seq 0 n) = f <$> seq 0 n.
Proof.
  rewrite foldl_insert_seq_prefix by lia.
  by rewrite Nat.sub_diag, app_nil_r.
Qed.

Lemma length_join_uniform {A B} (f : A → list B) (m : nat) (l : list A) :
  (∀ x, length (f x) = m) →
  length (mjoin (f <$> l)) = (length l * m)%nat.
Proof.
  intros Hf. induction l as [|x l IH]; [done|].
  change (mjoin (f <$> x :: l)) with (f x ++ mjoin (f <$> l)).
  rewrite length_app, Hf, IH. done.
Qed.

(** Element [e] of block [v] of a sequence of blocks of length [m]. *)
Lemma lookup_join_uniform {A B} (f : A → list B) (m : nat) (l : list A)
    (v e : nat) (x : A) :
  (∀ x, length (f x) = m) →
  l !! v = Some x → (e < m)%nat →
  mjoin (f <$> l) !! (v * m + e)%nat = f x !! e.
Proof.
  intros Hf. revert v. induction l as [|y l IH]; intros v Hv He; [done|].
  change (mjoin (f <$> y :: l)) with (f y ++ mjoin (f <$> l)).
  destruct v as [|v]; simpl in Hv.
  - injection Hv as ->. rewrite lookup_app_l by (rewrite Hf; lia). done.
  - rewrite lookup_app_r by (rewrite Hf; lia).
    rewrite Hf. replace (S v * m + e - m)%nat with (v * m + e)%nat by lia.
    by apply IH.
Qed.

Lemma join_replicate_comm {A} (d : list A) (k : nat) :
  mjoin (replicate k d) ++ d = d ++ mjoin (replicate k d).
Proof.
  induction k as [|k IH]; simpl; [by rewrite app_nil_r|].
  change (mjoin (d :: replicate k d)) with (d ++ mjoin (replicate k d)).
  by rewrite <- app_assoc, IH.
Qed.

(** Inserting the row at the front [k] times tiles it [k] times. *)
Lemma tile_front {A} (d : list A) (k s : nat) (acc : list A) :
  foldl (λ acc _, d ++ acc) acc (seq s k) = mjoin (replicate k d) ++ acc.
Proof.
  revert s acc. induction k as [|k IH]; intros s acc; [done|].
  simpl. rewrite IH.
  change (mjoin (d :: replicate k d)) with (d ++ mjoin (replicate k d)).
  by rewrite app_assoc, join_replicate_comm, <- app_assoc.
Qed.

Lemma forallb_replicate_zero (n : nat) :
  forallb (λ o, o =? 0) (replicate n 0) = true.
Proof. induction n as [|n IH]; [done|]. simpl. done. Qed.

Lemma forallb_zero_replicate (l : list Z) :
  forallb (λ o, o =? 0) l = true → l = replicate (length l) 0.
Proof.
  induction l as [|x l IH]; [done|]. simpl.
  intros [Hx Hl]%andb_true_iff. apply Z.eqb_eq in Hx as ->. by rewrite <- IH.
Qed.

(** ** The corner enumeration *)

Lemma corner_indices_tuple (vvv_ind : list (list (list Z))) (val : Z) (e : nat) :
  corner_indices vvv_ind val e = corner_tuple vvv_ind val e.
Proof.
  unfold corner_indices, corner_tuple.
  apply list_eq. intros d.
  rewrite list_lookup_imap, list_lookup_fmap.
  destruct (vvv_ind !! d) as [vv|] eqn:Hd; simpl.
  - rewrite lookup_seq_lt by (by eapply lookup_lt_Some).
    simpl. by rewrite (list_lookup_total_correct _ _ _ Hd).
  - rewrite lookup_seq_ge by (by apply lookup_ge_None). done.
Qed.

Lemma bitset_at_lt (val : Z) (bit : nat) : (bitset_at val bit < 2)%nat.
Proof. unfold bitset_at. destruct (Z.testbit _ _); lia. Qed.

Lemma corner_indices_valid (vvv_ind : list (list (list Z))) (in_s : shape)
    (m : nat) (val : Z) (e : nat) :
  table_dims vvv_ind m → table_valid vvv_ind in_s → (e < m)%nat →
  Forall2 (λ i n, 0 ≤ i < n) (corner_indices vvv_ind val e) (lens in_s).
Proof.
  intros Hdims Hvalid He.
  unfold corner_indices, table_dims, table_valid in *.
  apply Forall2_same_length_lookup. split.
  - rewrite length_imap. by eapply Forall2_length.
  - intros d i n Hi Hn.
    rewrite list_lookup_imap in Hi.
    destruct (vvv_ind !! d) as [vv|] eqn:Hd; [|done].
    simpl in Hi. injection Hi as <-.
    pose proof (Forall2_lookup_lr _ _ _ _ _ _ Hvalid Hd Hn) as Hvv.
    rewrite Forall_lookup in Hdims. destruct (Hdims _ _ Hd) as [Hlen Hrows].
    pose proof (bitset_at_lt val d) as Hb.
    destruct (lookup_lt_is_Some_2 vv (bitset_at val d) ltac:(lia)) as [v Hv].
    rewrite (list_lookup_total_correct _ _ _ Hv).
    rewrite Forall_lookup in Hrows. pose proof (Hrows _ _ Hv) as Hlv.
    destruct (lookup_lt_is_Some_2 v e ltac:(lia)) as [x Hx].
    rewrite (list_lookup_total_correct _ _ _ Hx).
    rewrite Forall_lookup in Hvv. pose proof (Hvv _ _ Hv) as Hall.
    rewrite Forall_lookup in Hall. by eapply Hall.
Qed.

(** The result as the source builds it, once the rank is accepted. *)
Lemma calc_neighbor_points_unfold (vvv_ind : list (list (list Z))) (in_s : shape)
    (m : nat) :
  table_dims vvv_ind m → (0 < length vvv_ind < 64)%nat →
  calc_neighbor_points vvv_ind in_s =
    Ok (mjoin ((λ val, (λ e, to_int (index in_s (corner_indices vvv_ind val e)))
                         <$> seq 0 m)
                 <$> seqZ 0 (2 ^ Z.of_nat (length vvv_ind)))).
Proof.
  intros Hdims Hr. unfold calc_neighbor_points, table_dims in *.
  destruct vvv_ind as [|vv rest] eqn:Hv; [simpl in Hr; lia|].
  apply Forall_cons in Hdims as [[Hlen Hrows] _].
  destruct vv as [|v00 vv']; [done|].
  apply Forall_cons in Hrows as [Hm _].
  rewrite <- Hv in *.
  destruct (Z.leb_spec size_t_digits (Z.of_nat (length vvv_ind))) as [Hd|Hd].
  - unfold size_t_digits in Hd. lia.
  - by rewrite Hm.
Qed.

(** The only exception of the enumeration is the guard on the rank. *)
Lemma calc_neighbor_points_throw (vvv_ind : list (list (list Z))) (in_s : shape)
    (e : error) :
  calc_neighbor_points vvv_ind in_s = Throw e →
  e = DimensionOverflow ∧ 64 ≤ Z.of_nat (length vvv_ind).
Proof.
  unfold calc_neighbor_points.
  destruct vvv_ind as [|[|v00 vv] rest]; [done..|].
  destruct (Z.leb_spec size_t_digits (Z.of_nat (length ((v00 :: vv) :: rest)))); [|done].
  intros [= <-]. done.
Qed.

Lemma calc_neighbor_points_in_range (m : nat) (vvv_ind : list (list (list Z)))
    (in_s : shape) (offsets : list Z) :
  (0 < length vvv_ind < 64)%nat →
  table_dims vvv_ind m →
  table_valid vvv_ind in_s →
  elements in_s ≤ 2 ^ 31 →
  calc_neighbor_points vvv_ind in_s = Ok offsets →
  length offsets = (2 ^ length vvv_ind * m)%nat ∧
  ∀ v e : nat, (v < 2 ^ length vvv_ind)%nat → (e < m)%nat →
    offsets !! (v * m + e)%nat = Some (index in_s (corner_tuple vvv_ind (Z.of_nat v) e)) ∧
    0 ≤ index in_s (corner_tuple vvv_ind (Z.of_nat v) e) < elements in_s.
Proof.
  intros Hr Hdims Hvalid Hfit Hcalc.
  rewrite (calc_neighbor_points_unfold _ _ m Hdims Hr) in Hcalc.
  injection Hcalc as <-.
  set (row := λ val : Z, (λ e, to_int (index in_s (corner_indices vvv_ind val e)))
                           <$> seq 0 m).
  assert (Hrow : ∀ val, length (row val) = m).
  { intros val. unfold row. by rewrite length_fmap, length_seq. }
  split.
  - rewrite (length_join_uniform row m) by done.
    by rewrite length_seqZ, Z_to_nat_pow2.
  - intros v e Hv He.
    pose proof (corner_indices_valid vvv_ind in_s m (Z.of_nat v) e Hdims Hvalid He) as Hidx.
    apply index_bounds in Hidx.
    rewrite <- corner_indices_tuple. split; [|done].
    rewrite (lookup_join_uniform row m _ v e (Z.of_nat v)); [|done| |done].
    + unfold row. rewrite list_lookup_fmap, lookup_seq_lt by done. simpl.
      f_equal. apply to_int_small. lia.
    + rewrite lookup_seqZ. split; [lia|].
      rewrite <- (Z2Nat.id (2 ^ Z.of_nat (length vvv_ind))) by lia.
      rewrite Z_to_nat_pow2. lia.
Qed.

(** C1, as the code has it: for a rank [0 < r < 63], a static input shape
    of [r] dimensions with at most [2^31] elements and an [r x 2 x m] table
    of valid indices, [calc_neighbor_points] returns exactly [2^r * m]
    offsets, each within [[0, elements)].  The bound on the number of
    elements is what keeps an offset within the [int] it is stored in. *)
Theorem calc_neighbor_points_count_and_range (r m : nat)
    (vvv_ind : list (list (list Z))) (in_s : shape) :
  (0 < r < 63)%nat →
  dynamic in_s = false →
  length (lens in_s) = r →
  table_dims vvv_ind m →
  table_valid vvv_ind in_s →
  elements in_s ≤ 2 ^ 31 →
  ∃ offsets, calc_neighbor_points vvv_ind in_s = Ok offsets ∧
    length offsets = (2 ^ r * m)%nat ∧
    Forall (λ o, 0 ≤ o < elements in_s) offsets.
Proof.
  intros Hr _ Hrank Hdims Hvalid Hfit.
  assert (Hlen : length vvv_ind = r).
  { rewrite <- Hrank. by eapply Forall2_length. }
  assert (Hr' : (0 < length vvv_ind < 64)%nat) by lia.
  eexists. split; [by apply (calc_neighbor_points_unfold _ _ m)|].
  destruct (calc_neighbor_points_in_range m vvv_ind in_s _ Hr' Hdims Hvalid Hfit
              (calc_neighbor_points_unfold _ _ m Hdims Hr')) as [Hcount Hat].
  split; [by rewrite <- Hlen|].
  apply Forall_lookup. intros k o Hk.
  pose proof (lookup_lt_Some _ _ _ Hk) as Hlt. rewrite Hcount in Hlt.
  assert (Hm : (0 < m)%nat) by (destruct m; lia).
  destruct (Hat (k / m)%nat (k mod m)%nat) as [Hget Hrange].
  - apply Nat.Div0.div_lt_upper_bound. lia.
  - apply Nat.mod_upper_bound. lia.
  - replace (k `div` m * m + k `mod` m)%nat with k in Hget
      by (rewrite (Nat.div_mod_eq k m) at 1; lia).
    rewrite Hget in Hk. by injection Hk as <-.
Qed.

Lemma calc_neighbor_points_count_and_range_witness :
  ∃ offsets, calc_neighbor_points table_2x3 shape_2x3 = Ok offsets ∧
    length offsets = (2 ^ 2 * 2)%nat ∧
    Forall (λ o, 0 ≤ o < elements shape_2x3) offsets.
Proof.
  apply (calc_neighbor_points_count_and_range 2 2 table_2x3 shape_2x3).
  - lia.
  - reflexivity.
  - reflexivity.
  - unfold table_dims, table_2x3. repeat constructor.
  - unfold table_valid, table_2x3. simpl. repeat constructor; lia.
  - vm_compute. discriminate.
Defined.

(** C1 as stated fails on a shape of more than [2^31] elements: the offset
    [2^31] of a valid corner comes back as a negative [int]. *)
Lemma calc_neighbor_points_offset_negative :
  dynamic shape_wide = false ∧ length (lens shape_wide) = 1%nat ∧
  table_dims table_wide 1 ∧ table_valid table_wide shape_wide ∧
  calc_neighbor_points table_wide shape_wide = Ok [-2147483648; -2147483648] ∧
  - 2147483648 < 0.
Proof.
  split; [reflexivity|]. split; [reflexivity|].
  split; [unfold table_dims, table_wide; repeat constructor|].
  split; [unfold table_valid, table_wide; simpl; repeat constructor; lia|].
  split; [vm_compute; reflexivity|lia].
Qed.

(** C2, as the code has it: the result is [2^rank] blocks of [m] offsets in
    ascending corner value; in the block of corner [v] the offset of element
    [e] is the flat index of the tuple taking, for dimension [d], row
    [bit d of v] of the table, the bits counted from the least significant
    one (dimension [0] is the least significant bit, the last dimension the
    most significant of the rank bits), for a shape of at most [2^31]
    elements. *)
Theorem calc_neighbor_points_blocks (m : nat) (vvv_ind : list (list (list Z)))
    (in_s : shape) :
  (0 < length vvv_ind < 64)%nat →
  table_dims vvv_ind m →
  table_valid vvv_ind in_s →
  elements in_s ≤ 2 ^ 31 →
  ∃ offsets, calc_neighbor_points vvv_ind in_s = Ok offsets ∧
    length offsets = (2 ^ length vvv_ind * m)%nat ∧
    ∀ v e : nat, (v < 2 ^ length vvv_ind)%nat → (e < m)%nat →
      offsets !! (v * m + e)%nat =
        Some (index in_s
                ((λ d : nat, ((vvv_ind !!! d) !!! (if Z.testbit (Z.of_nat v) (Z.of_nat d)
                                                   then 1%nat else 0%nat)) !!! e)
                   <$> seq 0 (length vvv_ind))).
Proof.
  intros Hr Hdims Hvalid Hfit.
  eexists. split; [by apply (calc_neighbor_points_unfold _ _ m)|].
  destruct (calc_neighbor_points_in_range m vvv_ind in_s _ Hr Hdims Hvalid Hfit
              (calc_neighbor_points_unfold _ _ m Hdims Hr)) as [Hcount Hat].
  split; [done|].
  intros v e Hv He. by destruct (Hat v e Hv He) as [-> _].
Qed.

Lemma calc_neighbor_points_blocks_witness :
  ∃ offsets, calc_neighbor_points table_2x3 shape_2x3 = Ok offsets ∧
    length offsets = (2 ^ length table_2x3 * 2)%nat ∧
    ∀ v e : nat, (v < 2 ^ length table_2x3)%nat → (e < 2)%nat →
      offsets !! (v * 2 + e)%nat =
        Some (index shape_2x3
                ((λ d : nat, ((table_2x3 !!! d) !!! (if Z.testbit (Z.of_nat v) (Z.of_nat d)
                                                     then 1%nat else 0%nat)) !!! e)
                   <$> seq 0 (length table_2x3))).
Proof.
  apply (calc_neighbor_points_blocks 2 table_2x3 shape_2x3).
  - simpl. lia.
  - unfold table_dims, table_2x3. repeat constructor.
  - unfold table_valid, table_2x3. simpl. repeat constructor; lia.
  - vm_compute. discriminate.
Defined.

(** C2 as stated fails: on the 2 x 2 table the block of corner [1] holds
    offset [2] (dimension [0] took the row of bit [0]), where reading the
    bits from the most significant one gives offset [1]; and on the wide
    shape the stored offset is not the flat index. *)
Lemma calc_neighbor_points_not_msb_first :
  (∃ offsets, calc_neighbor_points table_2x2 shape_2x2 = Ok offsets ∧
     offsets !! (1 * 1 + 0)%nat = Some 2 ∧
     index shape_2x2 (msb_first_tuple table_2x2 1 0) = 1) ∧
  (∃ offsets, calc_neighbor_points table_wide shape_wide = Ok offsets ∧
     offsets !! (0 * 1 + 0)%nat = Some (- 2147483648) ∧
     index shape_wide (corner_tuple table_wide 0 0) = 2147483648).
Proof.
  split; eexists; (split; [vm_compute; reflexivity|]); split; reflexivity.
Qed.

(** ** Steps of the builder *)

Lemma bind_add_instruction {B} (op : operation) (inputs : list instruction_ref)
    (k : instruction_ref → builder B) (g : list node) :
  (add_instruction op inputs ≫= k) g = k (ref_new (length g)) (g ++ [ins op inputs]).
Proof. reflexivity. Qed.

Lemma bind_add_literal {B} (s : shape) (data : argument)
    (k : instruction_ref → builder B) (g : list node) :
  (add_literal s data ≫= k) g = k (ref_new (length g)) (g ++ [lit s data]).
Proof. reflexivity. Qed.

Lemma bind_lift {A B} (x : outcome A) (k : A → builder B) (g : list node) :
  (lift x ≫= k) g =
    match x with
    | Ok a => k a g
    | Throw e => (Throw e, g)
    | Undefined => (Undefined, g)
    end.
Proof. by destruct x. Qed.

Ltac step_builder :=
  repeat first
    [ rewrite bind_add_instruction
    | rewrite bind_add_literal
    | rewrite bind_lift ].

(** ** The scan of the arguments *)

Lemma parse_args_from_throw (front : instruction) (rest : list instruction)
    (in_lens : list Z) (vs : list double) (ol : list Z) (r : instruction) (e : error) :
  parse_args_from front rest in_lens vs ol r = Throw e →
  e = OutputRankMismatch ∨ e = MissingScaleOrSizeInput.
Proof.
  induction rest as [|arg rest IH]; simpl; [intros [= <-]; by right|].
  case_decide; [done|].
  destruct (lens (get_shape arg)) as [|l0 ls]; [done|].
  case_decide.
  - destruct (eval arg) as [|v|v]; [done| |].
    + simpl. case_decide; [intros [= <-]; by left|done].
    + unfold mbind, outcome_mbind. simpl.
      destruct (mapM _ _); simpl; [|done].
      case_decide; [intros [= <-]; by left|done].
  - case_decide; [|done]. by destruct (eval arg).
Qed.

(** A scan that returns has stopped at the first eligible argument. *)
Lemma parse_args_from_Ok (front : instruction) (rest : list instruction)
    (in_lens : list Z) (vs : list double) (ol : list Z) (r0 : instruction) (sc : scan) :
  parse_args_from front rest in_lens vs ol r0 = Ok sc →
  ∃ a, snd <$> list_find (eligible front) rest = Some a ∧ r_arg sc = a ∧
       scan_of in_lens vs ol a sc.
Proof.
  induction rest as [|arg rest IH]; simpl; [done|].
  destruct (decide (name arg = "undefined" ∨ ins_id arg = ins_id front)) as [Hskip|Hskip].
  { intros H. destruct (IH H) as (a & Hfind & Ha).
    exists a. split; [|done].
    rewrite decide_False by (unfold eligible; tauto).
    destruct (list_find _ rest) as [[i x]|]; simpl in *; [done|done]. }
  destruct (lens (get_shape arg)) as [|l0 ls] eqn:Hlens.
  { intros H. destruct (IH H) as (a & Hfind & Ha).
    exists a. split; [|done].
    rewrite decide_False by (unfold eligible; rewrite Hlens; tauto).
    destruct (list_find _ rest) as [[i x]|]; simpl in *; [done|done]. }
  intros H. exists arg.
  rewrite decide_True by (unfold eligible; rewrite Hlens; done). split; [done|].
  destruct (decide (type (get_shape arg) = int64_type)) as [Ht|Ht].
  - destruct (eval arg) as [|v|v] eqn:He.
    + injection H as <-. split; [done|]. by constructor.
    + simpl in H. case_decide as Hl; [done|]. injection H as <-.
      split; [done|]. apply (scan_sizes _ _ _ _ (wrap_size_t <$> v)); try done.
      all: rewrite ?He; try done; try by apply dec_stable.
    + unfold mbind, outcome_mbind in H. simpl in H.
      destruct (mapM size_t_of_double v) as [l|] eqn:Hm; simpl in H; [|done].
      case_decide as Hl; [done|]. injection H as <-.
      split; [done|]. apply (scan_sizes _ _ _ _ l); try done.
      all: rewrite ?He; simpl; rewrite ?Hm; try done; try by apply dec_stable.
  - destruct (decide (l0 = Z.of_nat (length in_lens))) as [Hl|Hl].
    + assert (Hhd : head (lens (get_shape arg)) = Some (Z.of_nat (length in_lens))).
      { rewrite Hlens. simpl. by f_equal. }
      destruct (eval arg) as [|v|v] eqn:He; injection H as <-; (split; [done|]).
      * by apply scan_scales_runtime.
      * pose proof (scan_scales in_lens vs ol arg Ht Hhd) as Hs.
        rewrite He in Hs. by apply Hs.
      * pose proof (scan_scales in_lens vs ol arg Ht Hhd) as Hs.
        rewrite He in Hs. by apply Hs.
    + injection H as <-. split; [done|]. apply scan_other; [done|].
      rewrite Hlens. simpl. intros [= ?]. done.
Qed.

Lemma parse_args_Ok (args : list instruction) (in_lens : list Z) (vs : list double)
    (ol : list Z) (r0 : instruction) (sc : scan) :
  parse_args args in_lens vs ol r0 = Ok sc →
  first_eligible args = Some (r_arg sc) ∧ scan_of in_lens vs ol (r_arg sc) sc.
Proof.
  unfold parse_args, first_eligible. destruct args as [|front rest]; [done|].
  intros H. apply parse_args_from_Ok in H as (a & Hfind & -> & Hscan). done.
Qed.

Lemma scan_of_out_lens_length (in_lens : list Z) (vs : list double)
    (a : instruction) (sc : scan) :
  scan_of in_lens vs (replicate (length in_lens) 0) a sc →
  length (scan_out_lens sc) = length in_lens.
Proof. destruct 1; simpl; by rewrite ?length_replicate. Qed.

(** ** Conversions of doubles *)

Lemma scaled_lens_Ok (in_lens : list Z) (vec_scale : list double) (l : list Z) :
  scaled_lens in_lens vec_scale = Ok l →
  Forall2 (λ (p : Z * double) o,
             size_t_of_double (PrimFloat.mul (double_of_Z p.1) p.2) = Some o)
          (zip in_lens vec_scale) l.
Proof.
  unfold scaled_lens. destruct (mapM _ _) as [l'|] eqn:Hm; [|done].
  intros [= <-]. by apply mapM_Some_1 in Hm.
Qed.

(** The conversion to [std::size_t] is the floor on the doubles that are
    not negative. *)
Lemma size_t_of_double_floor (x : double) (t : Z) :
  size_t_of_double x = Some t → is_negative x = false → t = double_floor x.
Proof.
  unfold size_t_of_double, double_trunc, is_negative, double_floor.
  destruct (FloatOps.Prim2SF x) as [s|s| |s m e]; try done.
  - intros H _. vm_compute in H. by injection H as <-.
  - intros H ->. destruct (Z.leb_spec 0 e).
    + rewrite Z.shiftl_mul_pow2 in H by done.
      destruct (_ && _); [by injection H as <-|done].
    + rewrite Z.shiftr_div_pow2 in H by lia.
      destruct (_ && _); [by injection H as <-|done].
Qed.

(** A length multiplied by the scale back-computed from a zero size is
    zero again, whenever the conversion is defined. *)
Lemma size_t_of_zero_scale (d : double) (o : Z) :
  size_t_of_double
    (PrimFloat.mul d (PrimFloat.div (PrimFloat.mul PrimFloat.one (double_of_Z 0)) d))
    = Some o →
  o = 0.
Proof.
  unfold size_t_of_double, double_trunc.
  rewrite FloatAxioms.mul_spec, FloatAxioms.div_spec.
  change (FloatOps.Prim2SF (PrimFloat.mul PrimFloat.one (double_of_Z 0)))
    with (SpecFloat.S754_zero false).
  destruct (FloatOps.Prim2SF d) as [s|s| |s m e]; simpl; try done.
  intros [= <-]. done.
Qed.

(** ** Resolving the scales and the output lengths *)

Lemma resolve_throw (opd : op_desc) (attributes : attribute_map) (a0 : instruction)
    (args : list instruction) (e : error) :
  resolve opd attributes a0 args = Throw e →
  e = RankMismatch ∨ e = OutputRankMismatch ∨ e = MissingScaleOrSizeInput.
Proof.
  unfold resolve.
  set (sc0 := if bool_decide _ then _ else _).
  destruct sc0 as [sc| e' |] eqn:Hsc; simpl; [| |done].
  - destruct (negb (non_static sc)); [|done].
    case_decide; [intros [= <-]; by left|].
    destruct (forallb _ _); [|done].
    unfold scaled_lens. by destruct (mapM _ _).
  - intros [= <-]. subst sc0. case_bool_decide; [done|].
    unfold parse_args in Hsc. destruct args; [injection Hsc as <-; auto|].
    apply parse_args_from_throw in Hsc. tauto.
Qed.

(** What a successful [resolve] has computed, in terms of the scan. *)
Lemma resolve_Ok (opd : op_desc) (attributes : attribute_map) (a0 : instruction)
    (args : list instruction) (r : resolved) :
  resolve opd attributes a0 args = Ok r →
  in_s r = to_static 1 (get_shape a0) ∧ in_lens r = lens (in_s r) ∧
  ∃ sc,
    (if decide (get_scales attributes = [])
     then parse_args args (in_lens r) [] (replicate (length (in_lens r)) 0) a0 = Ok sc
     else sc = mk_scan false (get_scales attributes)
                       (replicate (length (in_lens r)) 0) a0) ∧
    scales_sizes_arg r = r_arg sc ∧ vec_scale r = scan_scale sc ∧
    is_constant_scale_input r = negb (non_static sc) ∧
    (non_static sc = true → out_lens r = scan_out_lens sc) ∧
    (non_static sc = false →
       length (in_lens r) = length (vec_scale r) ∧
       if forallb (λ o, o =? 0) (scan_out_lens sc)
       then scaled_lens (in_lens r) (vec_scale r) = Ok (out_lens r)
       else out_lens r = scan_out_lens sc).
Proof.
  unfold resolve.
  set (sc0 := if bool_decide _ then _ else _).
  destruct sc0 as [sc| |] eqn:Hsc; simpl; [|done..].
  assert (Hsc' : if decide (get_scales attributes = [])
     then parse_args args (lens (to_static 1 (get_shape a0))) []
            (replicate (length (lens (to_static 1 (get_shape a0)))) 0) a0 = Ok sc
     else sc = mk_scan false (get_scales attributes)
                 (replicate (length (lens (to_static 1 (get_shape a0)))) 0) a0).
  { subst sc0. case_bool_decide as Hs; case_decide as Hd; try done.
    - congruence.
    - by rewrite Hd in Hsc. }
  clear Hsc sc0.
  destruct (non_static sc) eqn:Hns; cbn [negb].
  - intros [= <-]. simpl. split; [done|]. split; [done|].
    exists sc. rewrite Hns. done.
  - destruct (decide (length _ ≠ length _)) as [Hlen|Hlen]; [done|].
    apply dec_stable in Hlen.
    destruct (forallb _ _) eqn:Hz.
    + destruct (scaled_lens _ _) as [l| |] eqn:Hl; simpl; [|done..].
      intros [= <-]. simpl. split; [done|]. split; [done|].
      exists sc. rewrite Hns, Hz. done.
    + simpl. intros [= <-]. simpl. split; [done|]. split; [done|].
      exists sc. rewrite Hns, Hz. done.
Qed.

(** With constant scales or sizes there is one scale and one output length
    per input dimension. *)
Lemma resolve_lengths (opd : op_desc) (attributes : attribute_map)
    (a0 : instruction) (args : list instruction) (r : resolved) :
  resolve opd attributes a0 args = Ok r →
  is_constant_scale_input r = true →
  length (vec_scale r) = length (in_lens r) ∧
  length (out_lens r) = length (in_lens r).
Proof.
  intros Hr Hc.
  destruct (resolve_Ok _ _ _ _ _ Hr) as (_ & _ & sc & Hsc & _ & _ & Hk & _ & Hout).
  rewrite Hc in Hk. destruct (non_static sc); [done|].
  destruct (Hout eq_refl) as [Hlen Hol]. split; [done|].
  destruct (forallb _ _).
  - apply scaled_lens_Ok, Forall2_length in Hol.
    rewrite length_zip in Hol. lia.
  - rewrite Hol. case_decide.
    + apply parse_args_Ok in Hsc as [_ Hsc].
      by apply scan_of_out_lens_length in Hsc.
    + subst sc. simpl. by rewrite length_replicate.
Qed.

Lemma scaled_lens_from_scales (r : resolved) :
  scaled_lens (in_lens r) (vec_scale r) = Ok (out_lens r) → lengths_from_scales r.
Proof.
  intros Hs i in_len scale Hi Hv.
  apply scaled_lens_Ok in Hs.
  assert (Hz : zip (in_lens r) (vec_scale r) !! i = Some (in_len, scale)).
  { by rewrite lookup_zip_with, Hi, Hv. }
  destruct (Forall2_lookup_l _ _ _ _ _ Hs Hz) as (o & Ho & Hcast).
  exists o. split; [done|]. split; [done|].
  intros Hneg. by apply size_t_of_double_floor.
Qed.

(** C7, as the code has it: once the scales or sizes are resolved at
    compile time, the input lengths are those of the data argument (a
    dimension only known at run time counting as [1]) and there is one
    scale and one output length per dimension.  When no explicit sizes were
    supplied, the scale vector is the value of the non-empty [scales]
    attribute or else the elements of the first eligible argument read as
    doubles, and every output length is [in_len * scale] computed in
    doubles and converted to [std::size_t], that is truncated toward zero:
    it is [floor(in_len * scale)] whenever the product is not negative.
    When explicit sizes are supplied and evaluate at compile time, the
    output lengths are the elements of that argument as [std::size_t] and
    every scale is [out_len / in_len]. *)
Theorem resolve_output_lengths_and_scales (opd : op_desc)
    (attributes : attribute_map) (a0 : instruction) (rest : list instruction)
    (r : resolved) :
  resolve opd attributes a0 (a0 :: rest) = Ok r →
  is_constant_scale_input r = true →
  in_lens r = lens (to_static 1 (get_shape a0)) ∧
  (dynamic (get_shape a0) = false → in_lens r = lens (get_shape a0)) ∧
  length (vec_scale r) = length (in_lens r) ∧
  length (out_lens r) = length (in_lens r) ∧
  (¬ sizes_supplied attributes (a0 :: rest) →
     scales_read attributes (a0 :: rest) (length (in_lens r)) (vec_scale r) ∧
     lengths_from_scales r) ∧
  (sizes_supplied attributes (a0 :: rest) →
     ∃ a, first_eligible (a0 :: rest) = Some a ∧
          elements_as_sizes (eval a) (out_lens r) ∧
          assign_size_t (eval a) = Ok (out_lens r) ∧
          scales_from_sizes r).
Proof.
  intros Hr Hc.
  pose proof (resolve_lengths _ _ _ _ _ Hr Hc) as [Hlv Hlo].
  destruct (resolve_Ok _ _ _ _ _ Hr)
    as (Hin & Hl & sc & Hsc & Harg & Hvs & Hk & _ & Hout).
  rewrite Hc in Hk. destruct (non_static sc) eqn:Hns; [done|].
  destruct (Hout eq_refl) as [_ Hol]. clear Hout Hk.
  split; [by rewrite Hl, Hin|].
  split; [intros Hdyn; by rewrite Hl, Hin, to_static_static|].
  split; [done|]. split; [done|].
  split.
  - intros Hns'. case_decide as Hd.
    + assert (Hnone : ∀ t, attributes !! "scales" = Some t →
                           AttributeProto.floats t = []).
      { intros t Ht. unfold get_scales in Hd. by rewrite Ht in Hd. }
      apply parse_args_Ok in Hsc as [Hfirst Hscan].
      revert Hfirst Hns Hol Hvs.
      destruct Hscan as [| |Ht Hhd He|Ht Hhd He|Ht Hhd]; simpl;
        intros Hfirst Hns Hol Hvs; try done.
      * exfalso. apply Hns'. split; [done|]. by eexists.
      * rewrite forallb_replicate_zero in Hol.
        split; [|by apply scaled_lens_from_scales].
        right. split; [done|]. eexists. split; [done|]. split; [done|].
        left. split; [done|]. rewrite Hvs.
        destruct (eval (r_arg sc)); done.
      * rewrite forallb_replicate_zero in Hol.
        split; [|by apply scaled_lens_from_scales].
        right. split; [done|]. eexists. split; [done|]. split; [done|].
        right. split; [done|]. rewrite Hvs in Hlv. simpl in Hlv.
        split; [done|]. done.
    + subst sc. simpl in *.
      rewrite forallb_replicate_zero in Hol.
      split; [|by apply scaled_lens_from_scales].
      left. unfold get_scales in Hd, Hvs.
      destruct (attributes !! "scales") as [t|]; [|done]. by exists t.
  - intros [Hd (a & Hfirst & Ht)]. rewrite decide_True in Hsc by done.
    apply parse_args_Ok in Hsc as [Hfirst' Hscan].
    rewrite Hfirst in Hfirst'. injection Hfirst' as ->.
    exists (r_arg sc). split; [done|].
    revert Hns Hol Hvs Ht.
    destruct Hscan as [| sizes _ Hev Hassign Hlen | | |]; simpl;
      intros Hns Hol Hvs Ht; try done.
    assert (Hsizes : out_lens r = sizes).
    { destruct (forallb _ sizes) eqn:Hz; [|done].
      apply forallb_zero_replicate in Hz. rewrite Hlen in Hz.
      apply scaled_lens_Ok in Hol.
      apply list_eq_same_length with (length sizes); [done|lia|].
      intros i x y Hi Hx Hy.
      destruct (lookup_lt_is_Some_2 (in_lens r) i ltac:(lia)) as [n Hn].
      assert (Hs : vec_scale r !! i = Some (scale_of n 0)).
      { rewrite Hvs, lookup_zip_with, Hn. simpl.
        rewrite Hz, lookup_replicate_2 by lia. done. }
      assert (Hzip : zip (in_lens r) (vec_scale r) !! i = Some (n, scale_of n 0)).
      { by rewrite lookup_zip_with, Hn, Hs. }
      destruct (Forall2_lookup_l _ _ _ _ _ Hol Hzip) as (o & Ho & Hcast).
      simpl in Hcast. apply size_t_of_zero_scale in Hcast.
      rewrite Hx in Ho. injection Ho as ->.
      rewrite Hz in Hy. apply lookup_replicate in Hy as [-> _]. done. }
    split.
    { rewrite Hsizes. revert Hev Hassign.
      destruct (eval (r_arg sc)) as [|v|v]; simpl; [done| |].
      - by intros _ [= <-].
      - intros _. destruct (mapM size_t_of_double v) as [l|] eqn:Hm; [|done].
        intros [= <-]. by apply mapM_Some_1. }
    split; [by rewrite Hsizes|].
    intros i in_len out_len Hi Ho.
    rewrite Hvs, lookup_zip_with, Hi. simpl. rewrite <- Hsizes, Ho. done.
Qed.

Lemma resolve_output_lengths_and_scales_witness :
  (in_lens resolved_1x1x8 = lens (get_shape data_1x1x4) ∧
   scales_read ∅ [data_1x1x4; scales_1_1_2] (length (in_lens resolved_1x1x8))
               (vec_scale resolved_1x1x8) ∧
   lengths_from_scales resolved_1x1x8) ∧
  (∃ a, first_eligible [data_1x1x4; sizes_1_1_8] = Some a ∧
        elements_as_sizes (eval a) (out_lens resolved_sizes_1x1x8) ∧
        assign_size_t (eval a) = Ok (out_lens resolved_sizes_1x1x8) ∧
        scales_from_sizes resolved_sizes_1x1x8).
Proof.
  split.
  - destruct (resolve_output_lengths_and_scales Resize ∅ data_1x1x4 [scales_1_1_2]
                resolved_1x1x8) as (_ & Hin & _ & _ & Hscales & _);
      [vm_compute; reflexivity|reflexivity|].
    split; [by apply Hin|]. apply Hscales.
    intros [_ (a & Hfirst & Ht)].
    vm_compute in Hfirst. injection Hfirst as <-. discriminate Ht.
  - destruct (resolve_output_lengths_and_scales Resize ∅ data_1x1x4 [sizes_1_1_8]
                resolved_sizes_1x1x8) as (_ & _ & _ & _ & _ & Hsizes);
      [vm_compute; reflexivity|reflexivity|].
    apply Hsizes. split; [reflexivity|].
    exists sizes_1_1_8. split; [vm_compute; reflexivity|reflexivity].
Defined.

(** C7 as stated fails for a negative scale: with the [scales] attribute
    [-0.5] on an input of length [1] the product is [-0.5], the output
    length is its truncation [0], and its floor is [-1]. *)
Lemma negative_scale_not_floor :
  ∃ r,
    resolve Upsample scales_neg_half data_1 [data_1] = Ok r ∧
    is_constant_scale_input r = true ∧
    get_scales scales_neg_half = [PrimFloat.opp one_half] ∧
    in_lens r = [1] ∧
    vec_scale r = [PrimFloat.opp one_half] ∧
    out_lens r = [0] ∧
    double_floor (PrimFloat.mul (double_of_Z 1) (PrimFloat.opp one_half)) = - 1.
Proof.
  eexists. split; [vm_compute; reflexivity|].
  repeat split; vm_compute; reflexivity.
Qed.

(** ** The branches of the lowering *)

Section LoweringFacts.

Variable get_nearest_op : string → Z → double → Z.
Variable get_original_idx_op : string → Z → Z → Z → double → double.

Lemma nearest_in_idx_eq (nearest_op : Z → double → Z)
    (idx_op : Z → Z → Z → double → double) (in_lens out_lens : list Z)
    (vec_scale : list double) (out_idx_v : list Z) :
  length out_idx_v = length in_lens →
  nearest_in_idx nearest_op idx_op in_lens out_lens vec_scale out_idx_v =
    nearest_tuple nearest_op idx_op in_lens out_lens vec_scale out_idx_v.
Proof.
  intros Hlen. unfold nearest_in_idx, nearest_tuple. rewrite Hlen.
  apply (foldl_insert_seq (λ d : nat, nearest_op (in_lens !!! d)
                  (idx_op (in_lens !!! d) (out_lens !!! d) (out_idx_v !!! d)
                          (vec_scale !!! d)))).
Qed.

(** The vector of source offsets, element by element. *)
Lemma gather_ind_eq (nearest_op : Z → double → Z)
    (idx_op : Z → Z → Z → double → double) (in_s out_s : shape)
    (in_lens out_lens : list Z) (vec_scale : list double) :
  gather_ind nearest_op idx_op (elements out_s) in_s out_s in_lens out_lens vec_scale =
    (λ k : nat, to_int (index in_s
        (nearest_in_idx nearest_op idx_op in_lens out_lens vec_scale
           (multi out_s (Z.of_nat k))))) <$> seq 0 (Z.to_nat (elements out_s)).
Proof.
  unfold gather_ind, shape_for_each.
  rewrite (foldl_insert_seq (λ k : nat, to_int (to_int64 (index in_s
        (nearest_in_idx nearest_op idx_op in_lens out_lens vec_scale
           (multi out_s (Z.of_nat k))))))).
  apply list_fmap_ext. intros _ k _. apply to_int_to_int64.
Qed.

Lemma make_gather_instruction_eq (attributes : attribute_map) (c : string)
    (oe : Z) (in_s out_s : shape) (in_lens out_lens : list Z)
    (vs : list double) (a0 : instruction) (g : list node) :
  get_coord_trans_mode attributes = Ok c →
  make_gather_instruction get_nearest_op get_original_idx_op attributes oe in_s out_s
      in_lens out_lens vs a0 g =
    (Ok (ref_new (length g + 2)),
     g ++ gather_nodes a0 (to_int64 (elements in_s)) out_lens
            (gather_ind (get_nearest_op (get_nearest_mode attributes))
               (get_original_idx_op c) oe in_s out_s in_lens out_lens vs)
            (length g)).
Proof.
  intros Hc. unfold make_gather_instruction, gather_nodes.
  rewrite bind_lift, Hc. step_builder.
  unfold add_instruction. rewrite !length_app. simpl.
  rewrite <- !app_assoc. simpl.
  by replace (length g + 1 + 1)%nat with (length g + 2)%nat by lia.
Qed.

Lemma nearest_branch_outcome (attributes : attribute_map) (c nm : string)
    (r : resolved) (a0 : instruction) (g : list node) :
  get_coord_trans_mode attributes = Ok c →
  ∃ h nodes, nearest_branch get_nearest_op get_original_idx_op attributes c nm r a0 g
             = (Ok h, g ++ nodes).
Proof.
  intros Hc. unfold nearest_branch.
  destruct (_ || _).
  - eexists _, _. reflexivity.
  - rewrite (make_gather_instruction_eq _ c) by done. eexists _, _. reflexivity.
Qed.

Lemma table_dims_alter_row (vvv_ind : list (list (list Z))) (m ii c out_idx : nat)
    (x : Z) :
  table_dims vvv_ind m →
  table_dims (alter (alter (λ v, <[out_idx := x]> v) c) ii vvv_ind) m.
Proof.
  unfold table_dims. intros H.
  apply Forall_alter; [done|].
  intros vv _ [Hlen Hrows]. split; [by rewrite length_alter|].
  apply Forall_alter; [done|].
  intros v _ Hv. by rewrite length_insert.
Qed.

(** The tables of the linear branch keep their dimensions: one entry per
    output dimension, two rows of [out_elements] indices each. *)
Lemma linear_tables_dims (idx_op : Z → Z → Z → double → double)
    (in_lens out_lens : list Z) (vec_scale : list double) (out_s : shape)
    (out_elements : Z) :
  let tables := linear_tables get_nearest_op idx_op in_lens out_lens vec_scale
                              out_s out_elements in
  length tables.1 = length out_lens ∧
  table_dims tables.1 (Z.to_nat out_elements) ∧
  length tables.2 = length out_lens.
Proof.
  unfold linear_tables, shape_for_each.
  apply (foldl_invariant (λ st : list (list (list Z)) * list (list double),
           length st.1 = length out_lens ∧
           table_dims st.1 (Z.to_nat out_elements) ∧
           length st.2 = length out_lens)).
  - cbn [fst snd]. rewrite !length_replicate. split; [done|]. split; [|done].
    unfold table_dims. apply Forall_replicate.
    rewrite length_replicate. split; [done|].
    apply Forall_replicate. by rewrite length_replicate.
  - intros st out_idx Hst.
    apply foldl_invariant; [done|].
    intros [vvv_ind delta] ii (Hlen & Hdims & Hdelta). simpl in *.
    rewrite !length_alter. split; [done|]. split; [|done].
    by do 2 apply table_dims_alter_row.
Qed.

(** One turn of the blending loop inserts the six nodes of
    [blend_nodes]. *)
Lemma blend_step_eq (o0 : Z) (ol : list Z) (delta : list (list double)) (n i : nat)
    (data : instruction_ref) (d0 : Z) (g : list node) :
  o0 ≠ 0 → 0 ≤ d0 → 2 * d0 < 2 ^ 63 →
  blend_step (o0 :: ol) delta n i (data, d0 :: ol) g =
    (Ok (ref_new (length g + 5), d0 `div` 2 :: ol),
     g ++ blend_nodes ol (delta !!! (n - i - 1)%nat) (Z.to_nat (d0 `div` o0)) d0
                      data (length g)).
Proof.
  intros Ho Hd0 Hd1. unfold blend_step.
  rewrite decide_False by done.
  rewrite tile_front, app_nil_r.
  step_builder. simpl. unfold mret, builder_ret.
  rewrite !length_app. simpl.
  rewrite !to_int64_small by (rewrite ?to_int64_small; lia).
  rewrite <- !app_assoc. simpl.
  unfold blend_nodes.
  repeat (f_equal; try lia).
Qed.

(** A turn of the loop never throws: it returns or is undefined. *)
Lemma blend_step_outcome (out_lens : list Z) (delta : list (list double))
    (n i : nat) (st : instruction_ref * list Z) (g : list node) :
  (∃ st' nodes, blend_step out_lens delta n i st g = (Ok st', g ++ nodes)) ∨
  blend_step out_lens delta n i st g = (Undefined, g).
Proof.
  unfold blend_step. destruct st as [data dim_lens].
  destruct dim_lens as [|d0 dl]; [right; done|].
  destruct out_lens as [|o0 ol]; [right; done|].
  case_decide; [right; done|].
  left. step_builder. simpl. step_builder.
  eexists _, _. unfold mret, builder_ret.
  rewrite <- !app_assoc. reflexivity.
Qed.

Lemma blend_loop_outcome (out_lens : list Z) (delta : list (list double))
    (n : nat) (steps : list nat) (st : instruction_ref * list Z) (g : list node) :
  (∃ st' nodes, blend_loop out_lens delta n steps st g = (Ok st', g ++ nodes)) ∨
  (∃ nodes, blend_loop out_lens delta n steps st g = (Undefined, g ++ nodes)).
Proof.
  revert st g. induction steps as [|i steps IH]; intros st g; simpl.
  - left. exists st, []. by rewrite app_nil_r.
  - unfold mbind, builder_mbind.
    destruct (blend_step_outcome out_lens delta n i st g) as [(st' & nodes & ->)| ->].
    + destruct (IH st' (g ++ nodes)) as [(st'' & nodes' & ->)|(nodes' & ->)].
      * left. exists st'', (nodes ++ nodes'). by rewrite app_assoc.
      * right. exists (nodes ++ nodes'). by rewrite app_assoc.
    + right. exists []. by rewrite app_nil_r.
Qed.

Section BlendLoop.

Variable o0 : Z.
Variable ol : list Z.
Variable delta : list (list double).
Variable n : nat.
Variable base : nat.
Hypothesis o0_pos : 0 < o0.
Hypothesis fits : o0 * 2 ^ Z.of_nat n < 2 ^ 63.

(** The block size tracked by the loop after [j] halvings. *)
Lemma block_div (j : nat) :
  (j < n)%nat →
  (o0 * 2 ^ Z.of_nat (n - 1)) `div` 2 ^ Z.of_nat j = o0 * 2 ^ Z.of_nat (n - 1 - j).
Proof.
  intros Hj.
  replace (Z.of_nat (n - 1)) with (Z.of_nat (n - 1 - j) + Z.of_nat j) by lia.
  rewrite Z.pow_add_r by lia.
  rewrite Z.mul_assoc, Z.div_mul by lia. done.
Qed.

(** The turns [i, i + k) of the loop, started on a graph whose last node
    is the tensor to blend. *)
Lemma blend_loop_eq (k i : nat) (G : list node) :
  (i + k ≤ n)%nat →
  length G = (base + 1 + 6 * i)%nat →
  blend_loop (o0 :: ol) delta n (seq i k)
             (ref_new (base + 6 * i),
              (o0 * 2 ^ Z.of_nat (n - 1)) `div` 2 ^ Z.of_nat i :: ol) G =
    (Ok (ref_new (base + 6 * (i + k)),
         (o0 * 2 ^ Z.of_nat (n - 1)) `div` 2 ^ Z.of_nat (i + k) :: ol),
     G ++ mjoin (blend_turn o0 ol delta n base <$> seq i k)).
Proof.
  revert i G. induction k as [|k IH]; intros i G Hik HG.
  - cbn [seq blend_loop]. unfold mret, builder_ret.
    rewrite Nat.add_0_r. cbn [fmap list_fmap mjoin list_join].
    by rewrite app_nil_r.
  - cbn [seq blend_loop]. unfold mbind at 1, builder_mbind at 1.
    assert (Hi : (i < n)%nat) by lia.
    assert (Hpow : 0 < 2 ^ Z.of_nat (n - 1 - i)) by (apply Z.pow_pos_nonneg; lia).
    assert (Hle : o0 * 2 ^ Z.of_nat (n - 1 - i) * 2 ≤ o0 * 2 ^ Z.of_nat n).
    { replace (Z.of_nat n) with (Z.of_nat (n - 1 - i) + 1 + Z.of_nat i) by lia.
      rewrite !Z.pow_add_r by lia.
      assert (0 < 2 ^ Z.of_nat i) by (apply Z.pow_pos_nonneg; lia).
      change (2 ^ 1) with 2. nia. }
    rewrite blend_step_eq; [|lia| |].
    + rewrite HG.
      replace (base + 1 + 6 * i + 5)%nat with (base + 6 * S i)%nat by lia.
      replace (((o0 * 2 ^ Z.of_nat (n - 1)) `div` 2 ^ Z.of_nat i) `div` 2)
        with ((o0 * 2 ^ Z.of_nat (n - 1)) `div` 2 ^ Z.of_nat (S i)).
      2:{ rewrite Z.div_div by lia. f_equal.
          rewrite Nat2Z.inj_succ, Z.pow_succ_r by lia. lia. }
      rewrite IH.
      * replace (S i + k)%nat with (i + S k)%nat by lia.
        f_equal.
        change (mjoin (blend_turn o0 ol delta n base <$> i :: seq (S i) k))
          with (blend_turn o0 ol delta n base i
                  ++ mjoin (blend_turn o0 ol delta n base <$> seq (S i) k)).
        rewrite app_assoc. f_equal. f_equal.
        unfold blend_turn. rewrite block_div by done.
        f_equal; [f_equal; lia|].
        rewrite Z.mul_comm, Z.div_mul by lia.
        by rewrite Z_to_nat_pow2.
      * lia.
      * rewrite length_app. unfold blend_nodes. simpl. lia.
    + rewrite block_div by done. nia.
    + rewrite block_div by done. lia.
Qed.

End BlendLoop.

(** The exceptions of the linear branch: the refusal of run-time scales,
    raised before anything is inserted, and the guard on the rank, raised by
    the enumeration once the reshape is in the graph. *)
Lemma linear_branch_throw (idx_op : Z → Z → Z → double → double) (r : resolved)
    (a0 : instruction) (g : list node) (e : error) (g' : list node) :
  linear_branch get_nearest_op idx_op r a0 g = (Throw e, g') →
  (e = UnsupportedDynamicLinear ∧ is_constant_scale_input r = false ∧ g' = g) ∨
  (e = DimensionOverflow ∧ is_constant_scale_input r = true ∧
   (64 ≤ length (out_lens r))%nat ∧
   g' = g ++ [ins (op_reshape [to_int64 (elements (in_s r))]) [ref_arg a0]]).
Proof.
  unfold linear_branch.
  destruct (is_constant_scale_input r); cbn [negb].
  2:{ unfold lift. intros [= <- <-]. by left. }
  rewrite bind_add_instruction, bind_lift.
  pose proof (linear_tables_dims idx_op (in_lens r) (out_lens r) (vec_scale r)
                (static_shape (type (in_s r)) (out_lens r))
                (elements (static_shape (type (in_s r)) (out_lens r)))) as (Hlen & _ & _).
  destruct (calc_neighbor_points _ _) as [ind|e'|] eqn:Hcalc; [| |done].
  - rewrite bind_lift. unfold update_front.
    destruct (out_lens r) as [|o0 ol] eqn:Ho; [done|].
    step_builder.
    unfold mbind at 1, builder_mbind at 1.
    match goal with |- context [blend_loop ?o ?d ?n ?l ?st ?g0] =>
      destruct (blend_loop_outcome o d n l st g0) as [(st' & nodes & ->)|(nodes & ->)]
    end; done.
  - apply calc_neighbor_points_throw in Hcalc as [-> Hn].
    intros [= <- <-]. right. rewrite Hlen in Hn.
    split; [done|]. split; [done|]. split; [lia|done].
Qed.

(** Where an exception of [parse] comes from, and what the graph holds
    then. *)
Lemma parse_throw (opd : op_desc) (attributes : attribute_map)
    (args : list instruction) (g : list node) (e : error) (g' : list node) :
  parse get_nearest_op get_original_idx_op opd attributes args g = (Throw e, g') →
  match e with
  | UnsupportedCoordinateTransformMode =>
      get_coord_trans_mode attributes = Throw e ∧ g' = g
  | UnsupportedInterpolationMode =>
      get_mode attributes = Throw e ∧ g' = g
  | UnsupportedExcludeOutside =>
      AttributeProto.i <$> attributes !! "exclude_outside" = Some 1 ∧ g' = g
  | RankMismatch | OutputRankMismatch | MissingScaleOrSizeInput =>
      (∃ a0 rest, args = a0 :: rest ∧ resolve opd attributes a0 args = Throw e) ∧ g' = g
  | UnsupportedDynamicLinear =>
      (∃ a0 rest r, args = a0 :: rest ∧ resolve opd attributes a0 args = Ok r ∧
         is_constant_scale_input r = false ∧ get_mode attributes = Ok "linear") ∧ g' = g
  | DimensionOverflow =>
      ∃ a0 rest r, args = a0 :: rest ∧ resolve opd attributes a0 args = Ok r ∧
         is_constant_scale_input r = true ∧ get_mode attributes = Ok "linear" ∧
         (64 ≤ length (out_lens r))%nat ∧
         g' = g ++ [ins (op_reshape [to_int64 (elements (in_s r))]) [ref_arg a0]]
  end.
Proof.
  unfold parse. rewrite bind_lift.
  destruct (get_coord_trans_mode attributes) as [c|e1|] eqn:Hc; [| |done].
  2:{ intros [= <- <-]. unfold get_coord_trans_mode in Hc.
      destruct (attributes !! "coordinate_transformation_mode"); [|done].
      case_decide; [|done]. by injection Hc as <-. }
  rewrite bind_lift.
  destruct (get_mode attributes) as [mode|e1|] eqn:Hm; [| |done].
  2:{ intros [= <- <-]. unfold get_mode in Hm.
      destruct (attributes !! "mode"); [|done].
      case_decide; [|done]. by injection Hm as <-. }
  case_bool_decide as Hex.
  { intros [= <- <-]. done. }
  destruct args as [|a0 rest]; [done|].
  rewrite bind_lift.
  destruct (resolve opd attributes a0 (a0 :: rest)) as [r|e1|] eqn:Hr; [| |done].
  2:{ intros [= <- <-]. destruct (resolve_throw _ _ _ _ _ Hr) as [->|[->| ->]]; eauto. }
  assert (Hmode : mode = "nearest" ∨ mode = "linear").
  { unfold get_mode in Hm. destruct (attributes !! "mode"); [|injection Hm as <-; auto].
    case_decide as Hd; [done|]. injection Hm as <-.
    destruct (decide (AttributeProto.s t = "nearest")); [auto|].
    destruct (decide (AttributeProto.s t = "linear")); [auto|]. tauto. }
  case_decide as Hn.
  - destruct (nearest_branch_outcome attributes c (get_nearest_mode attributes) r a0 g Hc)
      as (h & nodes & ->). done.
  - destruct Hmode as [->| ->]; [done|].
    intros Hl. apply linear_branch_throw in Hl as [(-> & Hk & ->)|(-> & Hk & Hlen & ->)].
    + split; [|done]. by exists a0, rest, r.
    + by exists a0, rest, r.
Qed.

(** Once the attributes are accepted and the scales are resolved, [parse]
    is one of its two branches. *)
Lemma parse_branches (opd : op_desc) (attributes : attribute_map) (a0 : instruction)
    (rest : list instruction) (r : resolved) (c mode : string) (g : list node) :
  get_coord_trans_mode attributes = Ok c →
  get_mode attributes = Ok mode →
  AttributeProto.i <$> attributes !! "exclude_outside" ≠ Some 1 →
  resolve opd attributes a0 (a0 :: rest) = Ok r →
  parse get_nearest_op get_original_idx_op opd attributes (a0 :: rest) g =
    if decide (mode = "nearest")
    then nearest_branch get_nearest_op get_original_idx_op attributes c
                        (get_nearest_mode attributes) r a0 g
    else linear_branch get_nearest_op (get_original_idx_op c) r a0 g.
Proof.
  intros Hc Hm Hex Hr. unfold parse.
  rewrite bind_lift, Hc, bind_lift, Hm.
  rewrite bool_decide_eq_false_2 by done.
  rewrite bind_lift, Hr. by case_decide.
Qed.

(** The compile-time nearest lowering: the three nodes and the literal of
    source offsets, one per output element in ascending flat position. *)
Lemma nearest_gather (opd : op_desc) (attributes : attribute_map) (a0 : instruction)
    (rest : list instruction) (r : resolved) (c : string) (g : list node) :
  get_coord_trans_mode attributes = Ok c →
  get_mode attributes = Ok "nearest" →
  AttributeProto.i <$> attributes !! "exclude_outside" ≠ Some 1 →
  resolve opd attributes a0 (a0 :: rest) = Ok r →
  dynamic (get_shape a0) = false →
  is_constant_scale_input r = true →
  let out_s := static_shape (type (get_shape a0)) (out_lens r) in
  parse get_nearest_op get_original_idx_op opd attributes (a0 :: rest) g =
    (Ok (ref_new (length g + 2)),
     g ++ gather_nodes a0 (to_int64 (elements (get_shape a0))) (out_lens r)
            ((λ k : nat,
                to_int (index (get_shape a0)
                  (nearest_tuple (get_nearest_op (get_nearest_mode attributes))
                     (get_original_idx_op c) (lens (get_shape a0)) (out_lens r)
                     (vec_scale r) (multi out_s (Z.of_nat k)))))
               <$> seq 0 (Z.to_nat (elements out_s)))
            (length g)).
Proof.
  intros Hc Hm Hex Hr Hdyn Hk out_s.
  rewrite (parse_branches _ _ _ _ r c "nearest") by done.
  rewrite decide_True by done.
  unfold nearest_branch. rewrite Hdyn, Hk. cbn [negb orb].
  rewrite (make_gather_instruction_eq _ c) by done.
  destruct (resolve_Ok _ _ _ _ _ Hr) as (Hs & Hl & _).
  destruct (resolve_lengths _ _ _ _ _ Hr Hk) as [_ Hlo].
  rewrite to_static_static in Hs by done. rewrite Hs in Hl.
  rewrite Hl, Hs, gather_ind_eq. fold out_s.
  do 3 f_equal. apply list_fmap_ext. intros _ k _.
  do 2 f_equal. apply nearest_in_idx_eq.
  rewrite length_multi. unfold out_s. rewrite lens_static_shape. congruence.
Qed.

(** C3, as the code has it: an invocation that fails with any error other
    than [DimensionOverflow] has inserted no instruction and no literal;
    [DimensionOverflow] is raised by the corner enumeration after the
    reshape of the input was inserted, and that one node stays in the
    graph. *)
Theorem parse_error_leaves_graph (opd : op_desc) (attributes : attribute_map)
    (args : list instruction) (g : list node) (e : error) (g' : list node) :
  parse get_nearest_op get_original_idx_op opd attributes args g = (Throw e, g') →
  (e ≠ DimensionOverflow → g' = g) ∧
  (e = DimensionOverflow →
     ∃ dims a0, g' = g ++ [ins (op_reshape dims) [ref_arg a0]]).
Proof.
  intros H. apply parse_throw in H.
  destruct e; split; try done; try (intros _; by destruct H).
  intros _. destruct H as (a0 & rest & r & _ & _ & _ & _ & _ & ->).
  by eexists _, _.
Qed.

(** Whatever the input shape, constant scales keep the linear branch from
    refusing the lowering. *)
Lemma constant_scales_never_refused (opd : op_desc) (attributes : attribute_map)
    (a0 : instruction) (rest : list instruction) (r : resolved) (g : list node) :
  resolve opd attributes a0 (a0 :: rest) = Ok r →
  is_constant_scale_input r = true →
  (parse get_nearest_op get_original_idx_op opd attributes (a0 :: rest) g).1
    ≠ Throw UnsupportedDynamicLinear.
Proof.
  intros Hr Hk.
  destruct (parse _ _ _ _ _ _) as [o g'] eqn:Hp. simpl. intros ->.
  apply parse_throw in Hp as [(a1 & rest1 & r1 & [= <- <-] & Hr1 & Hk1 & _) _].
  congruence.
Qed.

(** Scales or sizes that are only known at run time are refused in linear
    mode, before anything is inserted. *)
Lemma linear_runtime_scales_refused (opd : op_desc) (attributes : attribute_map)
    (a0 : instruction) (rest : list instruction) (r : resolved) (c : string)
    (g : list node) :
  get_coord_trans_mode attributes = Ok c →
  get_mode attributes = Ok "linear" →
  AttributeProto.i <$> attributes !! "exclude_outside" ≠ Some 1 →
  resolve opd attributes a0 (a0 :: rest) = Ok r →
  is_constant_scale_input r = false →
  parse get_nearest_op get_original_idx_op opd attributes (a0 :: rest) g =
    (Throw UnsupportedDynamicLinear, g).
Proof.
  intros Hc Hm Hex Hr Hk.
  rewrite (parse_branches _ _ _ _ r c "linear") by done.
  rewrite decide_False by done.
  unfold linear_branch. by rewrite Hk.
Qed.

(** C5, as the code has it: in nearest mode the lowering inserts a single
    [resize] instruction, carrying the nearest mode and the coordinate
    transformation mode and taking the data argument and the argument
    [scales_sizes_arg] (the first eligible argument when the scales do not
    come from the attribute), exactly when the input shape is dynamic or
    the scales or sizes are not constant; otherwise it inserts the reshape
    to one dimension, the literal of shape [out_lens] whose entry for an
    output coordinate is the flat index of the per-dimension nearest source
    indices, converted to [int], and the gather along axis 0. *)
Theorem nearest_lowering (opd : op_desc) (attributes : attribute_map)
    (a0 : instruction) (rest : list instruction) (r : resolved) (c : string)
    (g : list node) :
  get_coord_trans_mode attributes = Ok c →
  get_mode attributes = Ok "nearest" →
  AttributeProto.i <$> attributes !! "exclude_outside" ≠ Some 1 →
  resolve opd attributes a0 (a0 :: rest) = Ok r →
  let out_s := static_shape (type (get_shape a0)) (out_lens r) in
  if dynamic (get_shape a0) || negb (is_constant_scale_input r)
  then
    parse get_nearest_op get_original_idx_op opd attributes (a0 :: rest) g =
      (Ok (ref_new (length g)),
       g ++ [ins (op_resize (get_nearest_mode attributes) c)
                 [ref_arg a0; ref_arg (scales_sizes_arg r)]]) ∧
    (get_scales attributes = [] →
       first_eligible (a0 :: rest) = Some (scales_sizes_arg r))
  else
    ∃ ind,
      parse get_nearest_op get_original_idx_op opd attributes (a0 :: rest) g =
        (Ok (ref_new (length g + 2)),
         g ++ gather_nodes a0 (to_int64 (elements (get_shape a0))) (out_lens r) ind
                (length g)) ∧
      length ind = Z.to_nat (elements out_s) ∧
      ∀ out_coord,
        Forall2 (λ i n, 0 ≤ i < n) out_coord (out_lens r) →
        ind !! Z.to_nat (index out_s out_coord) =
          Some (to_int (index (get_shape a0)
                  (nearest_tuple (get_nearest_op (get_nearest_mode attributes))
                     (get_original_idx_op c) (lens (get_shape a0)) (out_lens r)
                     (vec_scale r) out_coord))).
Proof.
  intros Hc Hm Hex Hr out_s.
  destruct (dynamic (get_shape a0) || negb (is_constant_scale_input r)) eqn:Hcond.
  - split.
    + rewrite (parse_branches _ _ _ _ r c "nearest") by done.
      rewrite decide_True by done.
      unfold nearest_branch. by rewrite Hcond.
    + intros Hs.
      destruct (resolve_Ok _ _ _ _ _ Hr) as (_ & _ & sc & Hsc & -> & _).
      rewrite decide_True in Hsc by done.
      by apply parse_args_Ok in Hsc as [Hfirst _].
  - apply orb_false_iff in Hcond as [Hdyn Hk].
    apply negb_false_iff in Hk.
    eexists. split; [by apply nearest_gather|].
    fold out_s. split; [by rewrite length_fmap, length_seq|].
    intros out_coord Hcoord.
    assert (Hcoord' : Forall2 (λ i n, 0 ≤ i < n) out_coord (lens out_s)).
    { unfold out_s. by rewrite lens_static_shape. }
    pose proof (index_bounds _ _ Hcoord') as Hidx.
    rewrite list_lookup_fmap, lookup_seq_lt by lia.
    simpl. rewrite Z2Nat.id by lia.
    by rewrite multi_index.
Qed.

(** C10, as the code has it: in the compile-time nearest lowering, when the
    rounding policy clamps its result to [[0, in_len - 1]] for every
    dimension and the input has at most [2^31] elements, every entry of the
    index literal lies in [[0, elements)]. *)
Theorem gather_indices_in_bounds (opd : op_desc) (attributes : attribute_map)
    (a0 : instruction) (rest : list instruction) (r : resolved) (c : string)
    (g : list node) :
  get_coord_trans_mode attributes = Ok c →
  get_mode attributes = Ok "nearest" →
  AttributeProto.i <$> attributes !! "exclude_outside" ≠ Some 1 →
  resolve opd attributes a0 (a0 :: rest) = Ok r →
  dynamic (get_shape a0) = false →
  is_constant_scale_input r = true →
  (∀ n x, n ∈ lens (get_shape a0) →
          0 ≤ get_nearest_op (get_nearest_mode attributes) n x ≤ n - 1) →
  elements (get_shape a0) ≤ 2 ^ 31 →
  ∃ ind,
    parse get_nearest_op get_original_idx_op opd attributes (a0 :: rest) g =
      (Ok (ref_new (length g + 2)),
       g ++ gather_nodes a0 (to_int64 (elements (get_shape a0))) (out_lens r) ind
              (length g)) ∧
    Forall (λ o, 0 ≤ o < elements (get_shape a0)) ind.
Proof.
  intros Hc Hm Hex Hr Hdyn Hk Hclamp Hfit.
  eexists. split; [by apply nearest_gather|].
  apply Forall_fmap, Forall_forall. intros k _. simpl.
  match goal with |- context [index _ ?t] => set (tuple := t) end.
  assert (Hvalid : Forall2 (λ i n, 0 ≤ i < n) tuple (lens (get_shape a0))).
  { apply Forall2_same_length_lookup. split.
    - unfold tuple, nearest_tuple. by rewrite length_fmap, length_seq.
    - intros d i n Hi Hn. unfold tuple, nearest_tuple in Hi.
      rewrite list_lookup_fmap, lookup_seq_lt in Hi by (by eapply lookup_lt_Some).
      simpl in Hi. injection Hi as <-.
      rewrite (list_lookup_total_correct _ _ _ Hn).
      pose proof (Hclamp n
        (get_original_idx_op c n (out_lens r !!! d)
           (multi (static_shape (type (get_shape a0)) (out_lens r)) (Z.of_nat k) !!! d)
           (vec_scale r !!! d))
        ltac:(by eapply list_elem_of_lookup_2)). lia. }
  apply index_bounds in Hvalid.
  rewrite to_int_small by lia. done.
Qed.

(** C6, as the code has it: in linear mode with constant scales, a rank
    [0 < n < 64] and a leading output length [o0 > 0] with
    [o0 * 2^n < 2^63], the lowering inserts the reshape, the literal of
    corner offsets and the single gather, and then exactly [n] blending
    turns.  Turn [j] handles dimension [n - 1 - j] (last to first): it
    tiles that dimension's delta values to the current block of leading
    length [o0 * 2^(n-1-j)], slices the current tensor along dimension 0
    into the low half [[0, block)] and the high half [[block, 2 * block)],
    and replaces it by [low + (high - low) * delta]; the block halves from
    one turn to the next, is [o0] in the last turn, and the tensor of the
    last turn is the result. *)
Theorem linear_blend_turns (opd : op_desc) (attributes : attribute_map)
    (a0 : instruction) (rest : list instruction) (r : resolved) (c : string)
    (g : list node) (o0 : Z) (ol : list Z) :
  get_coord_trans_mode attributes = Ok c →
  get_mode attributes = Ok "linear" →
  AttributeProto.i <$> attributes !! "exclude_outside" ≠ Some 1 →
  resolve opd attributes a0 (a0 :: rest) = Ok r →
  dynamic (get_shape a0) = false →
  is_constant_scale_input r = true →
  out_lens r = o0 :: ol →
  (length (out_lens r) < 64)%nat →
  0 < o0 →
  o0 * 2 ^ Z.of_nat (length (out_lens r)) < 2 ^ 63 →
  let n := length (out_lens r) in
  let out_s := static_shape (type (in_s r)) (out_lens r) in
  let tables := linear_tables get_nearest_op (get_original_idx_op c) (in_lens r)
                              (out_lens r) (vec_scale r) out_s (elements out_s) in
  ∃ ind,
    calc_neighbor_points tables.1 (in_s r) = Ok ind ∧
    parse get_nearest_op get_original_idx_op opd attributes (a0 :: rest) g =
      (Ok (ref_new (length g + 2 + 6 * n)),
       (g ++ [ins (op_reshape [to_int64 (elements (in_s r))]) [ref_arg a0];
              lit (static_shape int32_type (o0 * 2 ^ Z.of_nat n :: ol)) (arg_int ind);
              ins (op_gather 0) [ref_new (length g); ref_new (length g + 1)]])
         ++ mjoin (blend_turn o0 ol tables.2 n (length g + 2) <$> seq 0 n)) ∧
    blend_turn o0 ol tables.2 n (length g + 2) (n - 1) =
      blend_nodes ol (tables.2 !!! 0%nat) 1 o0
                  (ref_new (length g + 2 + 6 * (n - 1)))
                  (length g + 2 + 1 + 6 * (n - 1)).
Proof.
  intros Hc Hm Hex Hr _ Hk Ho Hn Hpos Hfit n out_s tables.
  assert (Hn0 : (0 < n)%nat) by (unfold n; rewrite Ho; simpl; lia).
  destruct (linear_tables_dims (get_original_idx_op c) (in_lens r) (out_lens r)
              (vec_scale r) out_s (elements out_s)) as (Hlen & Hdims & _).
  fold tables in Hlen, Hdims.
  assert (Hcalc : ∃ ind, calc_neighbor_points tables.1 (in_s r) = Ok ind).
  { eexists. apply (calc_neighbor_points_unfold _ _ _ Hdims). rewrite Hlen. done. }
  destruct Hcalc as [ind Hcalc]. exists ind. split; [done|]. split.
  - rewrite (parse_branches _ _ _ _ r c "linear") by done.
    rewrite decide_False by done.
    unfold linear_branch. rewrite Hk. cbn [negb].
    rewrite bind_add_instruction, bind_lift.
    fold out_s. fold tables. rewrite Hcalc.
    rewrite bind_lift. fold n. rewrite Ho. unfold update_front.
    rewrite bind_add_literal, bind_add_instruction, bind_lift.
    unfold mbind at 1, builder_mbind at 1.
    rewrite !Z.shiftl_1_l.
    assert (Hp : 0 < 2 ^ Z.of_nat n) by (apply Z.pow_pos_nonneg; lia).
    assert (Hp1 : 2 ^ Z.of_nat n = 2 * 2 ^ (Z.of_nat n - 1)).
    { rewrite <- Z.pow_succ_r by lia. f_equal. lia. }
    assert (Hw : wrap_size_t (o0 * 2 ^ Z.of_nat n) = o0 * 2 ^ Z.of_nat n).
    { unfold wrap_size_t, size_t_digits. apply Z.mod_small. fold n in Hfit. lia. }
    assert (Hw1 : wrap_size_t (o0 * 2 ^ (Z.of_nat n - 1))
                  = (o0 * 2 ^ Z.of_nat (n - 1)) `div` 2 ^ Z.of_nat 0).
    { replace (Z.of_nat (n - 1)) with (Z.of_nat n - 1) by lia.
      change (2 ^ Z.of_nat 0) with 1. rewrite Z.div_1_r.
      unfold wrap_size_t, size_t_digits. apply Z.mod_small. fold n in Hfit. nia. }
    rewrite Hw, Hw1.
    rewrite !length_app. simpl length.
    replace (length g + 1 + 1)%nat with (length g + 2 + 6 * 0)%nat by lia.
    rewrite (blend_loop_eq o0 ol tables.2 n (length g + 2) Hpos Hfit n 0).
    + unfold mret, builder_ret. cbn [fst snd].
      rewrite Nat.add_0_l. f_equal.
      rewrite <- !app_assoc. simpl. done.
    + lia.
    + rewrite !length_app. simpl. lia.
  - unfold blend_turn.
    replace (n - 1 - (n - 1))%nat with 0%nat by lia.
    rewrite Z.mul_1_r. done.
Qed.

(** C8: whenever [coordinate_transformation_mode] is
    ["tf_crop_and_resize"] the lowering fails with
    [UnsupportedCoordinateTransformMode] and leaves the graph as it was,
    whatever the other attributes and the arguments; an absent attribute
    stands for ["half_pixel"], every other value is taken as it is, and in
    both cases the lowering does not fail with that error. *)
Theorem tf_crop_and_resize_rejected (opd : op_desc) (attributes : attribute_map)
    (args : list instruction) (g : list node) :
  (∀ a, attributes !! "coordinate_transformation_mode" = Some a →
        AttributeProto.s a = "tf_crop_and_resize" →
        parse get_nearest_op get_original_idx_op opd attributes args g =
          (Throw UnsupportedCoordinateTransformMode, g)) ∧
  (attributes !! "coordinate_transformation_mode" = None →
     get_coord_trans_mode attributes = Ok "half_pixel" ∧
     (parse get_nearest_op get_original_idx_op opd attributes args g).1
       ≠ Throw UnsupportedCoordinateTransformMode) ∧
  (∀ a, attributes !! "coordinate_transformation_mode" = Some a →
        AttributeProto.s a ≠ "tf_crop_and_resize" →
        get_coord_trans_mode attributes = Ok (AttributeProto.s a) ∧
        (parse get_nearest_op get_original_idx_op opd attributes args g).1
          ≠ Throw UnsupportedCoordinateTransformMode).
Proof.
  assert (Haccepted : ∀ c, get_coord_trans_mode attributes = Ok c →
            (parse get_nearest_op get_original_idx_op opd attributes args g).1
              ≠ Throw UnsupportedCoordinateTransformMode).
  { intros c Hc.
    destruct (parse _ _ _ _ _ _) as [o g'] eqn:Hp. simpl. intros ->.
    apply parse_throw in Hp as [Hp _]. congruence. }
  split; [|split].
  - intros a Ha Hs. unfold parse, get_coord_trans_mode.
    rewrite bind_lift, Ha, decide_True by done. done.
  - intros Ha.
    assert (Hc : get_coord_trans_mode attributes = Ok "half_pixel").
    { unfold get_coord_trans_mode. by rewrite Ha. }
    split; [done|]. by apply (Haccepted "half_pixel").
  - intros a Ha Hs.
    assert (Hc : get_coord_trans_mode attributes = Ok (AttributeProto.s a)).
    { unfold get_coord_trans_mode. by rewrite Ha, decide_False. }
    split; [done|]. by apply (Haccepted (AttributeProto.s a)).
Qed.

(** C9, as the code has it: whenever [exclude_outside] is [1] and the
    attributes [coordinate_transformation_mode] and [mode], which are read
    first, hold supported values, the lowering fails with
    [UnsupportedExcludeOutside], whatever the other attributes and the
    arguments; when the attribute is absent no such error is raised. *)
Theorem exclude_outside_rejected (opd : op_desc) (attributes : attribute_map)
    (args : list instruction) (g : list node) :
  (AttributeProto.i <$> attributes !! "exclude_outside" = Some 1 →
   (∀ a, attributes !! "coordinate_transformation_mode" = Some a →
         AttributeProto.s a ≠ "tf_crop_and_resize") →
   (∀ a, attributes !! "mode" = Some a →
         AttributeProto.s a = "nearest" ∨ AttributeProto.s a = "linear") →
   parse get_nearest_op get_original_idx_op opd attributes args g =
     (Throw UnsupportedExcludeOutside, g)) ∧
  (attributes !! "exclude_outside" = None →
   (parse get_nearest_op get_original_idx_op opd attributes args g).1
     ≠ Throw UnsupportedExcludeOutside).
Proof.
  split.
  - intros Hex Hctm Hmode. unfold parse.
    assert (Hc : ∃ c, get_coord_trans_mode attributes = Ok c).
    { unfold get_coord_trans_mode.
      destruct (attributes !! "coordinate_transformation_mode") as [a|] eqn:Ha;
        [|by eexists].
      rewrite decide_False by (by apply Hctm). by eexists. }
    assert (Hm : ∃ m, get_mode attributes = Ok m).
    { unfold get_mode. destruct (attributes !! "mode") as [a|] eqn:Ha; [|by eexists].
      destruct (Hmode a eq_refl) as [Hs|Hs]; rewrite Hs; by eexists. }
    destruct Hc as [c ->]. destruct Hm as [m ->].
    rewrite !bind_lift. by rewrite bool_decide_eq_true_2.
  - intros Hex.
    destruct (parse _ _ _ _ _ _) as [o g'] eqn:Hp. simpl. intros ->.
    apply parse_throw in Hp as [Hp _]. by rewrite Hex in Hp.
Qed.

End LoweringFacts.

(** ** The lowering on the sample inputs *)

Lemma parse_error_leaves_graph_witness :
  (OutputRankMismatch ≠ DimensionOverflow →
     [lit shape_2x2 (arg_int [0; 1; 2; 3])] = [lit shape_2x2 (arg_int [0; 1; 2; 3])]) ∧
  (OutputRankMismatch = DimensionOverflow →
     ∃ dims a0, [lit shape_2x2 (arg_int [0; 1; 2; 3])]
                = [lit shape_2x2 (arg_int [0; 1; 2; 3])] ++ [ins (op_reshape dims) [ref_arg a0]]).
Proof.
  apply (parse_error_leaves_graph sample_nearest_op sample_idx_op Resize ∅
           [data_1x1x4; sizes_2] [lit shape_2x2 (arg_int [0; 1; 2; 3])]).
  vm_compute. reflexivity.
Defined.

(** C3 as stated fails: on an input of rank 64 in linear mode the lowering
    fails with [DimensionOverflow] after it has inserted the reshape. *)
Lemma dimension_overflow_after_reshape :
  sample_parse Upsample scales_rank64 [data_rank64] [] =
    (Throw DimensionOverflow, [ins (op_reshape [1]) [ref_arg data_rank64]]) ∧
  length [ins (op_reshape [1]) [ref_arg data_rank64]] = 1%nat.
Proof. split; [vm_compute; reflexivity|reflexivity]. Qed.

(** C4 fails on the code: an input whose shape is only known at run time
    is lowered in linear mode, from the lengths [to_static(1)] gives it,
    whenever the scales are constant. *)
Lemma linear_dynamic_input_lowered :
  dynamic (get_shape data_dynamic) = true ∧
  get_mode scales_1_2 = Ok "linear" ∧
  ∃ g', sample_parse Upsample scales_1_2 [data_dynamic] [] = (Ok (ref_new 14), g') ∧
        length g' = 15%nat.
Proof.
  split; [reflexivity|]. split; [reflexivity|].
  eexists. split; [vm_compute; reflexivity|reflexivity].
Qed.

Lemma nearest_lowering_witness :
  (sample_parse Resize ∅ [data_1x1x4; scales_runtime] [] =
     (Ok (ref_new 0),
      [ins (op_resize "round_prefer_floor" "half_pixel")
           [ref_arg data_1x1x4; ref_arg scales_runtime]]) ∧
   (get_scales ∅ = [] → first_eligible [data_1x1x4; scales_runtime] = Some scales_runtime)) ∧
  (∃ ind,
     sample_parse Resize ∅ [data_1x1x4; scales_1_1_2] [] =
       (Ok (ref_new 2), gather_nodes data_1x1x4 4 [1; 1; 8] ind 0) ∧
     length ind = 8%nat ∧
     ∀ out_coord,
       Forall2 (λ i n, 0 ≤ i < n) out_coord [1; 1; 8] →
       ind !! Z.to_nat (index (static_shape float_type [1; 1; 8]) out_coord) =
         Some (to_int (index (get_shape data_1x1x4)
                 (nearest_tuple (sample_nearest_op "round_prefer_floor")
                    (sample_idx_op "half_pixel") [1; 1; 4] [1; 1; 8]
                    [PrimFloat.one; PrimFloat.one; PrimFloat.two] out_coord)))).
Proof.
  split.
  - refine (nearest_lowering sample_nearest_op sample_idx_op Resize ∅ data_1x1x4
              [scales_runtime] resolved_runtime "half_pixel" [] _ _ _ _).
    + reflexivity.
    + reflexivity.
    + discriminate.
    + vm_compute. reflexivity.
  - refine (nearest_lowering sample_nearest_op sample_idx_op Resize ∅ data_1x1x4
              [scales_1_1_2] resolved_1x1x8 "half_pixel" [] _ _ _ _).
    + reflexivity.
    + reflexivity.
    + discriminate.
    + vm_compute. reflexivity.
Defined.

(** C5 as stated fails on an input of [2^32] elements resized to two: the
    entry for the output coordinate [1] is [-2^31], the flat index of its
    nearest source element is [2^31]. *)
Lemma nearest_entry_not_flat_index :
  ∃ r ind,
    resolve Resize {["coordinate_transformation_mode" := attr_s "asymmetric"]}
            data_wide [data_wide; sizes_2] = Ok r ∧
    sample_parse Resize {["coordinate_transformation_mode" := attr_s "asymmetric"]}
                 [data_wide; sizes_2] [] =
      (Ok (ref_new 2), gather_nodes data_wide 4294967296 (out_lens r) ind 0) ∧
    Forall2 (λ i n, 0 ≤ i < n) [1] (out_lens r) ∧
    ind !! Z.to_nat (index (static_shape float_type (out_lens r)) [1])
      = Some (- 2147483648) ∧
    index (get_shape data_wide)
          (nearest_tuple (sample_nearest_op "round_prefer_floor")
             (sample_idx_op "asymmetric") (in_lens r) (out_lens r) (vec_scale r) [1])
      = 2147483648.
Proof.
  eexists _, _. split; [vm_compute; reflexivity|].
  split; [vm_compute; reflexivity|].
  split; [simpl; repeat constructor; lia|].
  split; [reflexivity|vm_compute; reflexivity].
Qed.

(** With the [scales] attribute and an input shape only known at run time
    the [resize] instruction takes the data argument twice. *)
Lemma nearest_dynamic_scales_attribute :
  sample_parse Upsample {["scales" := attr_floats [PrimFloat.one; PrimFloat.two]]}
               [data_dynamic] [] =
    (Ok (ref_new 0),
     [ins (op_resize "round_prefer_floor" "half_pixel")
          [ref_arg data_dynamic; ref_arg data_dynamic]]).
Proof. vm_compute. reflexivity. Qed.

Lemma sample_nearest_op_clamped (mode : string) (n : Z) (x : double) :
  0 < n → 0 ≤ sample_nearest_op mode n x ≤ n - 1.
Proof. intros Hn. unfold sample_nearest_op, clamp. case_decide; lia. Qed.

Lemma gather_indices_in_bounds_witness :
  ∃ ind,
    sample_parse Resize ∅ [data_1x1x4; scales_1_1_2] [] =
      (Ok (ref_new 2), gather_nodes data_1x1x4 4 [1; 1; 8] ind 0) ∧
    Forall (λ o, 0 ≤ o < 4) ind.
Proof.
  refine (gather_indices_in_bounds sample_nearest_op sample_idx_op Resize ∅ data_1x1x4
            [scales_1_1_2] resolved_1x1x8 "half_pixel" [] _ _ _ _ _ _ _ _).
  - reflexivity.
  - reflexivity.
  - discriminate.
  - vm_compute. reflexivity.
  - reflexivity.
  - reflexivity.
  - intros n x Hn. apply sample_nearest_op_clamped.
    change (lens (get_shape data_1x1x4)) with [1; 1; 4] in Hn.
    apply list_elem_of_In in Hn. simpl in Hn. lia.
  - vm_compute. discriminate.
Defined.

(** C10 as stated fails on the input of [2^32] elements: the rounding
    policy is clamped, and the entry of the second output element is
    negative. *)
Lemma gather_index_negative :
  (∀ n x, n ∈ lens (get_shape data_wide) →
          0 ≤ sample_nearest_op "round_prefer_floor" n x ≤ n - 1) ∧
  ∃ r ind,
    resolve Resize {["coordinate_transformation_mode" := attr_s "asymmetric"]}
            data_wide [data_wide; sizes_2] = Ok r ∧
    sample_parse Resize {["coordinate_transformation_mode" := attr_s "asymmetric"]}
                 [data_wide; sizes_2] [] =
      (Ok (ref_new 2), gather_nodes data_wide 4294967296 (out_lens r) ind 0) ∧
    ind !! 1%nat = Some (- 2147483648) ∧ - 2147483648 < 0.
Proof.
  split.
  - intros n x Hn. apply sample_nearest_op_clamped.
    change (lens (get_shape data_wide)) with [4294967296] in Hn.
    apply list_elem_of_In in Hn. simpl in Hn. lia.
  - eexists _, _. split; [vm_compute; reflexivity|].
    split; [vm_compute; reflexivity|]. split; [reflexivity|lia].
Qed.

Lemma linear_blend_turns_witness :
  ∃ ind,
    calc_neighbor_points tables_1x1x4.1 (static_shape float_type [1; 1; 2]) = Ok ind ∧
    sample_parse Resize linear_mode [data_1x1x2; scales_1_1_2] [] =
      (Ok (ref_new 20),
       [ins (op_reshape [2]) [ref_arg data_1x1x2];
        lit (static_shape int32_type [8; 1; 4]) (arg_int ind);
        ins (op_gather 0) [ref_new 0; ref_new 1]]
         ++ mjoin (blend_turn 1 [1; 4] tables_1x1x4.2 3 2 <$> seq 0 3)) ∧
    blend_turn 1 [1; 4] tables_1x1x4.2 3 2 2 =
      blend_nodes [1; 4] (tables_1x1x4.2 !!! 0%nat) 1 1 (ref_new 14) 15.
Proof.
  refine (linear_blend_turns sample_nearest_op sample_idx_op Resize linear_mode
            data_1x1x2 [scales_1_1_2] resolved_1x1x4 "half_pixel" [] 1 [1; 4]
            _ _ _ _ _ _ _ _ _ _).
  - reflexivity.
  - reflexivity.
  - discriminate.
  - vm_compute. reflexivity.
  - reflexivity.
  - reflexivity.
  - reflexivity.
  - simpl. lia.
  - lia.
  - vm_compute. reflexivity.
Defined.

(** C6 as stated fails: on the input of rank 64 the lowering throws before
    the gather and runs no blending turn; and on an empty input of leading
    length [2^62] and rank 2 the block size [2^63] of the first turn does
    not fit the slice bound, which comes out negative. *)
Lemma linear_without_blend_turns :
  sample_parse Upsample scales_rank64 [data_rank64] [] =
    (Throw DimensionOverflow, [ins (op_reshape [1]) [ref_arg data_rank64]]) ∧
  ∃ h g', sample_parse Upsample scales_1_1 [data_tall] [] = (Ok h, g') ∧
          g' !! 4%nat = Some (ins (op_slice [0] [0] [- 9223372036854775808]) [ref_new 2]).
Proof.
  split; [vm_compute; reflexivity|].
  eexists _, _. split; [vm_compute; reflexivity|reflexivity].
Qed.

(** A leading output length of zero makes the first blending turn divide
    by zero. *)
Lemma linear_zero_leading_length :
  ∃ g', sample_parse Upsample scales_half_1 [data_1x4] [] = (Undefined, g') ∧
        length g' = 3%nat.
Proof. eexists. split; [vm_compute; reflexivity|reflexivity]. Qed.

Lemma tf_crop_and_resize_rejected_witness :
  sample_parse Resize
    (<["exclude_outside" := attr_i 1]>
       {["coordinate_transformation_mode" := attr_s "tf_crop_and_resize"]})
    [data_1x1x4; scales_1_1_2] [lit shape_2x2 (arg_int [0; 1; 2; 3])] =
    (Throw UnsupportedCoordinateTransformMode, [lit shape_2x2 (arg_int [0; 1; 2; 3])]) ∧
  (get_coord_trans_mode ∅ = Ok "half_pixel" ∧
   (sample_parse Resize ∅ [data_1x1x4; scales_1_1_2] []).1
     ≠ Throw UnsupportedCoordinateTransformMode) ∧
  (get_coord_trans_mode {["coordinate_transformation_mode" := attr_s "asymmetric"]}
     = Ok "asymmetric" ∧
   (sample_parse Resize {["coordinate_transformation_mode" := attr_s "asymmetric"]}
                 [data_1x1x4; scales_1_1_2] []).1
     ≠ Throw UnsupportedCoordinateTransformMode).
Proof.
  split; [|split].
  - apply (proj1 (tf_crop_and_resize_rejected sample_nearest_op sample_idx_op Resize
                    _ _ _) (attr_s "tf_crop_and_resize")); reflexivity.
  - apply (proj1 (proj2 (tf_crop_and_resize_rejected sample_nearest_op sample_idx_op
                           Resize ∅ _ _))). reflexivity.
  - apply (proj2 (proj2 (tf_crop_and_resize_rejected sample_nearest_op sample_idx_op
                           Resize _ _ _)) (attr_s "asymmetric")); [reflexivity|].
    discriminate.
Defined.

Lemma exclude_outside_rejected_witness :
  sample_parse Resize {["exclude_outside" := attr_i 1]} [data_1x1x4; scales_1_1_2] [] =
    (Throw UnsupportedExcludeOutside, []) ∧
  (sample_parse Resize ∅ [data_1x1x4; scales_1_1_2] []).1
    ≠ Throw UnsupportedExcludeOutside.
Proof.
  split.
  - apply (proj1 (exclude_outside_rejected sample_nearest_op sample_idx_op Resize
                    {["exclude_outside" := attr_i 1]} _ _)).
    + reflexivity.
    + intros a Ha. vm_compute in Ha. discriminate Ha.
    + intros a Ha. vm_compute in Ha. discriminate Ha.
  - apply (proj2 (exclude_outside_rejected sample_nearest_op sample_idx_op Resize
                    ∅ _ _)). reflexivity.
Defined.

(** C9 as stated fails: with [exclude_outside = 1] the lowering fails with
    the error of the attribute read first when
    [coordinate_transformation_mode] or [mode] is not supported. *)
Lemma exclude_outside_other_error :
  sample_parse Resize
    (<["exclude_outside" := attr_i 1]>
       {["coordinate_transformation_mode" := attr_s "tf_crop_and_resize"]})
    [data_1x1x4; scales_1_1_2] [] =
    (Throw UnsupportedCoordinateTransformMode, []) ∧
  sample_parse Resize
    (<["exclude_outside" := attr_i 1]> {["mode" := attr_s "cubic"]})
    [data_1x1x4; scales_1_1_2] [] =
    (Throw UnsupportedInterpolationMode, []).
Proof. split; vm_compute; reflexivity. Qed.

(** * Further properties of the lowering *)

(** ** The attributes [parse] reads *)

Section AttributeFacts.

Variable get_nearest_op : string → Z → double → Z.
Variable get_original_idx_op : string → Z → Z → Z → double → double.

(** [parse] sees the attributes through its four readers and the test on
    [exclude_outside]. *)
Lemma parse_ext_getters (opd : op_desc) (a b : attribute_map)
    (args : list instruction) (g : list node) :
  get_coord_trans_mode a = get_coord_trans_mode b →
  get_mode a = get_mode b →
  get_nearest_mode a = get_nearest_mode b →
  get_scales a = get_scales b →
  (AttributeProto.i <$> a !! "exclude_outside" = Some 1 ↔
   AttributeProto.i <$> b !! "exclude_outside" = Some 1) →
  parse get_nearest_op get_original_idx_op opd a args g =
  parse get_nearest_op get_original_idx_op opd b args g.
Proof.
  intros Hc Hm Hn Hs Hex.
  unfold parse. rewrite Hc, Hm, Hn.
  rewrite (bool_decide_ext _ _ Hex).
  unfold resolve, nearest_branch, make_gather_instruction.
  rewrite Hs, Hc, Hn. done.
Qed.

(** X1: the lowering reads five attributes only.  Two attribute maps that
    hold the same [coordinate_transformation_mode], [mode], [nearest_mode]
    and [scales] and agree on whether [exclude_outside] is [1] give the same
    outcome and the same graph, whatever else they hold: every other
    attribute of the node is ignored. *)
Theorem parse_reads_five_attributes (opd : op_desc) (a b : attribute_map)
    (args : list instruction) (g : list node) :
  same_read_attributes a b →
  parse get_nearest_op get_original_idx_op opd a args g =
  parse get_nearest_op get_original_idx_op opd b args g.
Proof.
  intros [Hk Hex]. apply parse_ext_getters; [| | | |exact Hex];
    unfold get_coord_trans_mode, get_mode, get_nearest_mode, get_scales;
    rewrite Hk; try done; unfold read_keys;
    repeat first [apply list_elem_of_here | apply list_elem_of_further].
Qed.

(** X2: an [exclude_outside] attribute whose value is not [1] changes
    nothing: the lowering behaves as if the attribute were absent (the test
    is on the value [1] alone, so [0], [2] or [-1] are all accepted). *)
Theorem exclude_outside_other_value_ignored (opd : op_desc)
    (attributes : attribute_map) (a : AttributeProto.t)
    (args : list instruction) (g : list node) :
  attributes !! "exclude_outside" = Some a →
  AttributeProto.i a ≠ 1 →
  parse get_nearest_op get_original_idx_op opd attributes args g =
  parse get_nearest_op get_original_idx_op opd
        (delete "exclude_outside" attributes) args g.
Proof.
  intros Ha Hi. apply parse_ext_getters;
    unfold get_coord_trans_mode, get_mode, get_nearest_mode, get_scales;
    rewrite ?lookup_delete_ne by done; try done.
  rewrite lookup_delete_eq, Ha. simpl. split; [|done]. intros [= ?]. done.
Qed.

(** X3: the lowering fails with [UnsupportedInterpolationMode] exactly when
    the [mode] attribute is present with a value other than ["nearest"] and
    ["linear"] and [coordinate_transformation_mode], read before it, is not
    ["tf_crop_and_resize"]; the graph is then unchanged.  Neither
    [exclude_outside] nor the arguments (not even their absence) matter. *)
Theorem unsupported_interpolation_mode_iff (opd : op_desc)
    (attributes : attribute_map) (args : list instruction) (g g' : list node) :
  parse get_nearest_op get_original_idx_op opd attributes args g
    = (Throw UnsupportedInterpolationMode, g') ↔
  AttributeProto.s <$> attributes !! "coordinate_transformation_mode"
    ≠ Some "tf_crop_and_resize" ∧
  (∃ a, attributes !! "mode" = Some a ∧
        AttributeProto.s a ≠ "nearest" ∧ AttributeProto.s a ≠ "linear") ∧
  g' = g.
Proof.
  split.
  - intros H. pose proof (parse_throw _ _ _ _ _ _ _ _ H) as [Hm ->].
    split; [|split; [|done]].
    + intros Hc. unfold parse in H. rewrite bind_lift in H.
      unfold get_coord_trans_mode in H.
      destruct (attributes !! "coordinate_transformation_mode") as [a|]; [|done].
      injection Hc as Hc. rewrite decide_True in H by done. done.
    + unfold get_mode in Hm. destruct (attributes !! "mode") as [a|]; [|done].
      exists a. by case_decide.
  - intros (Hc & (a & Ha & Hn & Hl) & ->).
    unfold parse. rewrite bind_lift.
    assert (∃ c, get_coord_trans_mode attributes = Ok c) as [c ->].
    { unfold get_coord_trans_mode.
      destruct (attributes !! "coordinate_transformation_mode") as [a'|]; [|by eexists].
      rewrite decide_False; [by eexists|]. intros He. apply Hc. simpl. by f_equal. }
    rewrite bind_lift. unfold get_mode. rewrite Ha.
    rewrite decide_True by done. done.
Qed.

End AttributeFacts.

(** ** The scan of the arguments, seen from [parse] *)

Lemma length_lens_to_static (x : Z) (s : shape) :
  length (lens (to_static x s)) = length (lens s).
Proof. unfold lens, to_static. simpl. by rewrite !length_fmap. Qed.

(** An argument that is not eligible is passed over. *)
Lemma parse_args_from_skip (front arg : instruction) (rest : list instruction)
    (in_lens : list Z) (vs : list double) (ol : list Z) (r : instruction) :
  ¬ eligible front arg →
  parse_args_from front (arg :: rest) in_lens vs ol r =
  parse_args_from front rest in_lens vs ol r.
Proof.
  intros He. simpl. case_decide; [done|].
  destruct (lens (get_shape arg)) eqn:Hl; [done|].
  exfalso. apply He. unfold eligible. rewrite Hl. done.
Qed.

(** The scan ends at an eligible argument, whatever follows it, and not
    with the error of a scan that found nothing. *)
Lemma parse_args_from_stop (front arg : instruction) (rest : list instruction)
    (in_lens : list Z) (vs : list double) (ol : list Z) (r : instruction) :
  eligible front arg →
  parse_args_from front (arg :: rest) in_lens vs ol r =
  parse_args_from front [arg] in_lens vs ol r ∧
  parse_args_from front [arg] in_lens vs ol r ≠ Throw MissingScaleOrSizeInput.
Proof.
  intros [Hs Hl]. simpl. rewrite !decide_False by done.
  destruct (lens (get_shape arg)) as [|l0 ls]; [congruence|]. split; [done|].
  case_decide.
  - destruct (eval arg) as [|v|v]; [done| |].
    + simpl. by case_decide.
    + unfold mbind, outcome_mbind. simpl.
      destruct (mapM _ _); simpl; [|done]. by case_decide.
  - case_decide; [|done]. by destruct (eval arg).
Qed.

Lemma parse_args_from_find (front : instruction) (rest : list instruction)
    (in_lens : list Z) (vs : list double) (ol : list Z) (r : instruction) :
  match list_find (eligible front) rest with
  | Some (_, a) =>
      parse_args_from front rest in_lens vs ol r =
      parse_args_from front [a] in_lens vs ol r ∧
      parse_args_from front rest in_lens vs ol r ≠ Throw MissingScaleOrSizeInput
  | None => parse_args_from front rest in_lens vs ol r = Throw MissingScaleOrSizeInput
  end.
Proof.
  induction rest as [|arg rest IH]; [done|].
  cbn [list_find]. destruct (decide (eligible front arg)) as [He|He].
  - destruct (parse_args_from_stop front arg rest in_lens vs ol r He) as [H1 H2].
    split; [done|]. by rewrite H1.
  - rewrite parse_args_from_skip by done.
    destruct (list_find (eligible front) rest) as [[i a]|]; simpl; done.
Qed.

(** The data argument is never taken for scales or sizes. *)
Lemma front_not_eligible (front : instruction) : ¬ eligible front front.
Proof. unfold eligible. tauto. Qed.

(** The scan seen from [parse_args]: the first eligible argument decides
    alone, and without one the scan fails. *)
Lemma parse_args_find (a0 : instruction) (rest : list instruction)
    (in_lens : list Z) (vs : list double) (ol : list Z) (r : instruction) :
  match first_eligible (a0 :: rest) with
  | Some a =>
      parse_args (a0 :: rest) in_lens vs ol r = parse_args [a0; a] in_lens vs ol r ∧
      parse_args (a0 :: rest) in_lens vs ol r ≠ Throw MissingScaleOrSizeInput
  | None => parse_args (a0 :: rest) in_lens vs ol r = Throw MissingScaleOrSizeInput
  end.
Proof.
  unfold parse_args, first_eligible.
  pose proof (parse_args_from_find a0 (a0 :: rest) in_lens vs ol r) as H.
  destruct (list_find (eligible a0) (a0 :: rest)) as [[i a]|] eqn:Hf;
    simpl (snd <$> _); cbv iota; [|done].
  destruct H as [H1 H2]. split; [|done].
  rewrite H1. by rewrite (parse_args_from_skip a0 a0 [a]) by apply front_not_eligible.
Qed.

Lemma first_eligible_eligible (a0 a : instruction) (rest : list instruction) :
  first_eligible (a0 :: rest) = Some a → eligible a0 a ∧ a ∈ a0 :: rest.
Proof.
  unfold first_eligible.
  destruct (list_find _ _) as [[i x]|] eqn:Hf; [|done].
  intros [= <-]. apply list_find_Some in Hf as (Hx & He & _).
  split; [done|]. by eapply list_elem_of_lookup_2.
Qed.

Section ArgumentFacts.

Variable get_nearest_op : string → Z → double → Z.
Variable get_original_idx_op : string → Z → Z → Z → double → double.

(** [parse] reads the arguments after the first one through [resolve]
    only. *)
Lemma parse_ext_resolve (opd : op_desc) (attributes : attribute_map)
    (a0 : instruction) (rest rest' : list instruction) (g : list node) :
  resolve opd attributes a0 (a0 :: rest) = resolve opd attributes a0 (a0 :: rest') →
  parse get_nearest_op get_original_idx_op opd attributes (a0 :: rest) g =
  parse get_nearest_op get_original_idx_op opd attributes (a0 :: rest') g.
Proof. intros H. unfold parse. by rewrite H. Qed.

(** With accepted attributes, [parse] fails where [resolve] does. *)
Lemma parse_resolve_throw (opd : op_desc) (attributes : attribute_map)
    (a0 : instruction) (rest : list instruction) (g : list node) (e : error) :
  config_accepted attributes →
  resolve opd attributes a0 (a0 :: rest) = Throw e →
  parse get_nearest_op get_original_idx_op opd attributes (a0 :: rest) g = (Throw e, g).
Proof.
  intros ((c & Hc) & (mode & Hm) & Hex) Hr. unfold parse.
  rewrite bind_lift, Hc, bind_lift, Hm.
  rewrite bool_decide_eq_false_2 by done.
  by rewrite bind_lift, Hr.
Qed.

(** The scan of [resolve] when there is no [scales] attribute and the first
    eligible argument is [a]. *)
Lemma resolve_first_eligible (opd : op_desc) (attributes : attribute_map)
    (a0 a : instruction) (rest : list instruction) :
  get_scales attributes = [] →
  first_eligible (a0 :: rest) = Some a →
  resolve opd attributes a0 (a0 :: rest) = resolve opd attributes a0 [a0; a] ∧
  parse_args [a0; a] (lens (to_static 1 (get_shape a0))) []
             (replicate (length (lens (to_static 1 (get_shape a0)))) 0) a0 =
    parse_args_from a0 [a] (lens (to_static 1 (get_shape a0))) []
             (replicate (length (lens (to_static 1 (get_shape a0)))) 0) a0.
Proof.
  intros Hs Hf. split.
  - unfold resolve. rewrite Hs.
    rewrite bool_decide_eq_false_2 by (by intros ?).
    match goal with |- context [parse_args (a0 :: rest) ?b ?c ?d ?e] =>
      pose proof (parse_args_find a0 rest b c d e) as Hp end.
    rewrite Hf in Hp. destruct Hp as [-> _]. done.
  - unfold parse_args. by rewrite parse_args_from_skip by apply front_not_eligible.
Qed.

(** X4: with accepted attributes, the lowering fails with
    [MissingScaleOrSizeInput] exactly when there is no [scales] attribute
    (or an empty one) and no argument after the data is eligible: each is a
    placeholder named ["undefined"], the data argument again, or of a shape
    without dimensions.  The graph is unchanged. *)
Theorem missing_scale_or_size_input_iff (opd : op_desc)
    (attributes : attribute_map) (a0 : instruction) (rest : list instruction)
    (g g' : list node) :
  config_accepted attributes →
  parse get_nearest_op get_original_idx_op opd attributes (a0 :: rest) g
    = (Throw MissingScaleOrSizeInput, g') ↔
  get_scales attributes = [] ∧ first_eligible (a0 :: rest) = None ∧ g' = g.
Proof.
  intros Hcfg. split.
  - intros H. apply parse_throw in H as [(a1 & rest1 & [= <- <-] & Hr) ->].
    unfold resolve in Hr.
    destruct (decide (get_scales attributes = [])) as [Hs|Hs].
    + split; [done|]. split; [|done].
      rewrite bool_decide_eq_false_2 in Hr by (by intros ?).
      match type of Hr with context [parse_args ?a ?b ?c ?d ?e] =>
        pose proof (parse_args_find a0 rest b c d e) as Hf;
        destruct (parse_args a b c d e) as [sc|e'|] eqn:Hp end; simpl in Hr.
      * exfalso. destruct (negb (non_static sc)); [|done].
        case_decide; [done|]. destruct (forallb _ _); [|done].
        unfold scaled_lens in Hr. by destruct (mapM _ _).
      * injection Hr as ->.
        destruct (first_eligible (a0 :: rest)); [by destruct Hf|done].
      * done.
    + exfalso. rewrite bool_decide_eq_true_2 in Hr by done. simpl in Hr.
      case_decide; [done|]. destruct (forallb _ _); [|done].
      unfold scaled_lens in Hr. by destruct (mapM _ _).
  - intros (Hs & Hf & ->). apply parse_resolve_throw; [done|].
    unfold resolve. rewrite bool_decide_eq_false_2 by (by intros ?).
    match goal with |- context [parse_args ?a ?b ?c ?d ?e] =>
      pose proof (parse_args_find a0 rest b c d e) as Hp end.
    rewrite Hf in Hp. by rewrite Hp.
Qed.

(** X5: only the first eligible argument counts.  Whatever the attributes
    and the graph, a call gives the same outcome and the same graph as the
    call on the data argument and the first eligible argument alone: the
    arguments the scan passes over and every argument after the one it
    stops at are never read. *)
Theorem parse_first_eligible_alone (opd : op_desc) (attributes : attribute_map)
    (a0 a : instruction) (rest : list instruction) (g : list node) :
  first_eligible (a0 :: rest) = Some a →
  parse get_nearest_op get_original_idx_op opd attributes (a0 :: rest) g =
  parse get_nearest_op get_original_idx_op opd attributes [a0; a] g.
Proof.
  intros Hf. apply parse_ext_resolve. unfold resolve.
  destruct (bool_decide _); [done|].
  match goal with |- context [parse_args (a0 :: rest) ?b ?c ?d ?e] =>
    pose proof (parse_args_find a0 rest b c d e) as Hp end.
  rewrite Hf in Hp. destruct Hp as [-> _]. done.
Qed.

(** X6: a non-empty [scales] attribute overrides the arguments: the call
    gives the same outcome and the same graph as the call on the data
    argument alone, so scale or size inputs given besides the attribute are
    never read. *)
Theorem scales_attribute_overrides_arguments (opd : op_desc)
    (attributes : attribute_map) (a0 : instruction) (rest : list instruction)
    (g : list node) :
  get_scales attributes ≠ [] →
  parse get_nearest_op get_original_idx_op opd attributes (a0 :: rest) g =
  parse get_nearest_op get_original_idx_op opd attributes [a0] g.
Proof.
  intros Hs. apply parse_ext_resolve. unfold resolve.
  by rewrite bool_decide_eq_true_2 by done.
Qed.

(** X7: with accepted attributes, a non-empty [scales] attribute that does
    not hold one scale per dimension of the data argument makes the lowering
    fail with [RankMismatch], whatever the mode and the other arguments, and
    leaves the graph unchanged. *)
Theorem scales_attribute_rank_mismatch (opd : op_desc)
    (attributes : attribute_map) (a0 : instruction) (rest : list instruction)
    (g : list node) :
  config_accepted attributes →
  get_scales attributes ≠ [] →
  length (get_scales attributes) ≠ length (lens (get_shape a0)) →
  parse get_nearest_op get_original_idx_op opd attributes (a0 :: rest) g
    = (Throw RankMismatch, g).
Proof.
  intros Hcfg Hs Hlen. apply parse_resolve_throw; [done|].
  unfold resolve. rewrite bool_decide_eq_true_2 by done. simpl.
  rewrite decide_True; [done|]. rewrite length_lens_to_static. congruence.
Qed.

(** X8: the first eligible argument is taken for the scales whenever its
    element type is not [int64].  When its leading length is not the rank of
    the data (a region of interest of [2 * rank] values, say) no scale is
    read from it, the scan still ends there, and for data of rank above
    zero the lowering fails with [RankMismatch] even if valid scales or
    sizes follow. *)
Theorem other_input_read_as_scales (opd : op_desc)
    (attributes : attribute_map) (a0 a : instruction) (rest : list instruction)
    (g : list node) :
  config_accepted attributes →
  get_scales attributes = [] →
  first_eligible (a0 :: rest) = Some a →
  type (get_shape a) ≠ int64_type →
  head (lens (get_shape a)) ≠ Some (Z.of_nat (length (lens (get_shape a0)))) →
  lens (get_shape a0) ≠ [] →
  parse get_nearest_op get_original_idx_op opd attributes (a0 :: rest) g
    = (Throw RankMismatch, g).
Proof.
  intros Hcfg Hs Hf Ht Hhd Hrank. apply parse_resolve_throw; [done|].
  destruct (resolve_first_eligible opd attributes a0 a rest Hs Hf) as [-> Hp].
  destruct (first_eligible_eligible _ _ _ Hf) as [[Hskip Hl] _].
  unfold resolve. rewrite Hs. rewrite bool_decide_eq_false_2 by (by intros ?).
  rewrite Hp. simpl. rewrite decide_False by done.
  destruct (lens (get_shape a)) as [|l0 ls]; [congruence|].
  rewrite decide_False by done.
  rewrite decide_False.
  2:{ intros ->. apply Hhd. simpl. by rewrite length_lens_to_static. }
  simpl. rewrite decide_True; [done|].
  rewrite length_lens_to_static. simpl. destruct (lens (get_shape a0)); done.
Qed.

(** X9: with accepted attributes and no [scales] attribute, when the first
    eligible argument is of type [int64] and evaluates at compile time to a
    number of sizes other than the rank of the data, the lowering fails with
    [OutputRankMismatch] and leaves the graph unchanged. *)
Theorem sizes_rank_mismatch (opd : op_desc)
    (attributes : attribute_map) (a0 a : instruction) (rest : list instruction)
    (sizes : list Z) (g : list node) :
  config_accepted attributes →
  get_scales attributes = [] →
  first_eligible (a0 :: rest) = Some a →
  type (get_shape a) = int64_type →
  eval a = arg_int sizes →
  length sizes ≠ length (lens (get_shape a0)) →
  parse get_nearest_op get_original_idx_op opd attributes (a0 :: rest) g
    = (Throw OutputRankMismatch, g).
Proof.
  intros Hcfg Hs Hf Ht Hev Hlen. apply parse_resolve_throw; [done|].
  destruct (resolve_first_eligible opd attributes a0 a rest Hs Hf) as [-> Hp].
  destruct (first_eligible_eligible _ _ _ Hf) as [[Hskip Hl] _].
  unfold resolve. rewrite Hs. rewrite bool_decide_eq_false_2 by (by intros ?).
  rewrite Hp. simpl. rewrite decide_False by done.
  destruct (lens (get_shape a)) as [|l0 ls]; [congruence|].
  rewrite decide_True by done. rewrite Hev. simpl.
  rewrite decide_True; [done|].
  rewrite length_fmap, length_lens_to_static. done.
Qed.

End ArgumentFacts.

(** ** Corners and bits *)

(** Adding [2^d] to a value whose bit [d] is clear sets that bit and
    leaves the others. *)
Lemma testbit_add_pow2 (v d k : Z) :
  0 ≤ v → 0 ≤ d → 0 ≤ k → Z.testbit v d = false →
  Z.testbit (v + 2 ^ d) k = if decide (k = d) then true else Z.testbit v k.
Proof.
  intros Hv Hd Hk Hbit.
  assert (Hland : Z.land v (2 ^ d) = 0).
  { apply Z.bits_inj'. intros j Hj.
    rewrite Z.land_spec, Z.pow2_bits_eqb, Z.bits_0 by done.
    destruct (Z.eqb_spec d j) as [<-|]; [by rewrite Hbit|by rewrite andb_false_r]. }
  rewrite Z.add_nocarry_lxor, Z.lxor_lor by done.
  rewrite Z.lor_spec, Z.pow2_bits_eqb by done.
  case_decide as Hkd.
  - subst. by rewrite Z.eqb_refl, orb_true_r.
  - destruct (Z.eqb_spec d k); [congruence|]. by rewrite orb_false_r.
Qed.

Lemma add_pow2_lt (v d n : Z) :
  0 ≤ v < 2 ^ n → 0 ≤ d < n → Z.testbit v d = false → v + 2 ^ d < 2 ^ n.
Proof.
  intros Hv Hd Hbit.
  assert (Hland : Z.land v (2 ^ d) = 0).
  { apply Z.bits_inj'. intros j Hj.
    rewrite Z.land_spec, Z.pow2_bits_eqb, Z.bits_0 by lia.
    destruct (Z.eqb_spec d j) as [<-|]; [by rewrite Hbit|by rewrite andb_false_r]. }
  rewrite Z.add_nocarry_lxor, Z.lxor_lor by done.
  assert (Hp : 0 < 2 ^ d) by (apply Z.pow_pos_nonneg; lia).
  assert (Hpos : 0 < Z.lor v (2 ^ d)).
  { rewrite <- Z.lxor_lor, <- Z.add_nocarry_lxor by done. lia. }
  apply Z.log2_lt_pow2; [done|].
  rewrite Z.log2_lor by lia. rewrite Z.log2_pow2 by lia.
  apply Z.max_lub_lt; [|lia].
  destruct (decide (v = 0)) as [->|Hv0]; [simpl; lia|].
  apply Z.log2_lt_pow2; lia.
Qed.

(** Setting bit [d] of the corner value moves dimension [d] of the
    coordinate tuple from row [0] to row [1] of the table. *)
Lemma corner_indices_add_pow2 (vvv_ind : list (list (list Z))) (v : Z) (d e : nat) :
  0 ≤ v → (d < length vvv_ind)%nat → Z.testbit v (Z.of_nat d) = false →
  corner_indices vvv_ind v e !! d = Some (((vvv_ind !!! d) !!! 0%nat) !!! e) ∧
  corner_indices vvv_ind (v + 2 ^ Z.of_nat d) e =
    <[d := ((vvv_ind !!! d) !!! 1%nat) !!! e]> (corner_indices vvv_ind v e).
Proof.
  intros Hv Hd Hbit. unfold corner_indices.
  destruct (lookup_lt_is_Some_2 vvv_ind d Hd) as [vv Hvv].
  rewrite (list_lookup_total_correct _ _ _ Hvv).
  split.
  - rewrite list_lookup_imap, Hvv. simpl. unfold bitset_at. by rewrite Hbit.
  - apply list_eq. intros k.
    destruct (decide (k = d)) as [->|Hk].
    + rewrite list_lookup_insert_eq by (by rewrite length_imap).
      rewrite list_lookup_imap, Hvv. simpl. unfold bitset_at.
      rewrite testbit_add_pow2 by (done || lia). by rewrite decide_True.
    + rewrite list_lookup_insert_ne by done.
      rewrite !list_lookup_imap. destruct (vvv_ind !! k); [|done]. simpl.
      unfold bitset_at. rewrite testbit_add_pow2 by (done || lia).
      rewrite decide_False by lia. done.
Qed.

(** X10: on a table of two rows of [m] entries per dimension (the tables
    on which every read of the enumeration is within its row), whatever the
    values of the entries and whatever the input shape, the corner
    enumeration fails with [DimensionOverflow] when the table has 64
    dimensions or more, and for a rank [0 < n < 63] it returns exactly
    [2^n * m] offsets. *)
Theorem calc_neighbor_points_rank_guard (m : nat)
    (vvv_ind : list (list (list Z))) (in_s : shape) :
  table_dims vvv_ind m →
  ((64 ≤ length vvv_ind)%nat →
     calc_neighbor_points vvv_ind in_s = Throw DimensionOverflow) ∧
  ((0 < length vvv_ind < 63)%nat →
     ∃ offsets, calc_neighbor_points vvv_ind in_s = Ok offsets ∧
                length offsets = (2 ^ length vvv_ind * m)%nat).
Proof.
  intros Hdims. split; intros Hn.
  - unfold table_dims in Hdims.
    destruct vvv_ind as [|vv rest] eqn:Hv; [simpl in Hn; lia|].
    apply Forall_cons in Hdims as [[Hvv _] _].
    destruct vv as [|v00 vv]; [done|].
    unfold calc_neighbor_points, size_t_digits.
    destruct (Z.leb_spec 64 (Z.of_nat (length ((v00 :: vv) :: rest)))); [done|lia].
  - rewrite (calc_neighbor_points_unfold _ _ m Hdims) by lia.
    eexists. split; [done|].
    rewrite (length_join_uniform _ m).
    + by rewrite length_seqZ, Z_to_nat_pow2.
    + intros val. by rewrite length_fmap, length_seq.
Qed.

(** X11: bit [d] of the corner value selects the row of dimension [d].
    For a corner [v] whose bit [d] is clear, the offset of element [e] in
    block [v] is the flat offset of a tuple whose dimension [d] is read from
    row [0] of the table, and the offset of [e] in block [v + 2^d] is the
    flat offset of the same tuple with dimension [d] read from row [1]:
    the two blocks differ in that one coordinate only.  With [d] the last
    dimension these are the low and the high half of the gathered corners,
    which the first blending turn subtracts. *)
Theorem corner_bit_selects_dimension (m : nat) (vvv_ind : list (list (list Z)))
    (in_s : shape) (offsets : list Z) (v d e : nat) :
  (0 < length vvv_ind < 64)%nat →
  table_dims vvv_ind m →
  calc_neighbor_points vvv_ind in_s = Ok offsets →
  (d < length vvv_ind)%nat →
  (v < 2 ^ length vvv_ind)%nat →
  Z.testbit (Z.of_nat v) (Z.of_nat d) = false →
  (e < m)%nat →
  let low := corner_tuple vvv_ind (Z.of_nat v) e in
  low !! d = Some (((vvv_ind !!! d) !!! 0%nat) !!! e) ∧
  offsets !! (v * m + e)%nat = Some (to_int (index in_s low)) ∧
  offsets !! ((v + 2 ^ d) * m + e)%nat =
    Some (to_int (index in_s (<[d := ((vvv_ind !!! d) !!! 1%nat) !!! e]> low))).
Proof.
  intros Hr Hdims Hcalc Hd Hv Hbit He low.
  rewrite (calc_neighbor_points_unfold _ _ m Hdims Hr) in Hcalc.
  injection Hcalc as <-.
  set (row := λ val : Z, (λ e, to_int (index in_s (corner_indices vvv_ind val e)))
                           <$> seq 0 m).
  assert (Hrow : ∀ val, length (row val) = m).
  { intros val. unfold row. by rewrite length_fmap, length_seq. }
  assert (Hpow : Z.of_nat (2 ^ length vvv_ind) = 2 ^ Z.of_nat (length vvv_ind)).
  { by rewrite Nat2Z.inj_pow. }
  destruct (corner_indices_add_pow2 vvv_ind (Z.of_nat v) d e) as [Hlow Hhigh];
    [lia|done|done|].
  unfold low. rewrite <- corner_indices_tuple.
  split; [done|]. split.
  - rewrite (lookup_join_uniform row m _ v e (Z.of_nat v)); [|done| |done].
    + unfold row. by rewrite list_lookup_fmap, lookup_seq_lt by done.
    + rewrite lookup_seqZ. split; lia.
  - assert (Hlt : Z.of_nat v + 2 ^ Z.of_nat d < 2 ^ Z.of_nat (length vvv_ind)).
    { apply add_pow2_lt; [lia|lia|done]. }
    rewrite (lookup_join_uniform row m _ (v + 2 ^ d) e (Z.of_nat v + 2 ^ Z.of_nat d));
      [|done| |done].
    + unfold row. rewrite list_lookup_fmap, lookup_seq_lt by done. simpl.
      by rewrite Hhigh.
    + rewrite lookup_seqZ. rewrite Nat2Z.inj_add, Nat2Z.inj_pow. split; [done|]. lia.
Qed.

(** ** The nodes a call inserts *)

Lemma inserted_from_nil (args : list instruction) (base from : nat) :
  inserted_from args base from [].
Proof. intros k n Hk. done. Qed.

Lemma inserted_from_app (args : list instruction) (base from : nat)
    (l1 l2 : list node) :
  inserted_from args base from l1 →
  inserted_from args base (from + length l1) l2 →
  inserted_from args base from (l1 ++ l2).
Proof.
  intros H1 H2 k n Hk. apply lookup_app_Some in Hk as [Hk|[Hlen Hk]].
  - by apply H1.
  - replace (from + k)%nat with (from + length l1 + (k - length l1))%nat by lia.
    by apply H2.
Qed.

Ltac in_scope :=
  let k := fresh "k" in
  let n := fresh "n" in
  let Hk := fresh "Hk" in
  intros k n Hk;
  repeat (destruct k as [|k];
          [injection Hk as <-; simpl;
           repeat (apply Forall_cons; split); try apply Forall_nil; simpl;
           first [lia | assumption | apply list_elem_of_here]|]);
  done.

Lemma length_join_replicate {A} (d : list A) (k : nat) :
  length (mjoin (replicate k d)) = (k * length d)%nat.
Proof.
  induction k as [|k IH]; [done|]. simpl.
  change (mjoin (d :: replicate k d)) with (d ++ mjoin (replicate k d)).
  rewrite length_app, IH. lia.
Qed.

Lemma elements_static_cons (t : type_t) (x : Z) (l : list Z) :
  elements (static_shape t (x :: l)) = x * product l.
Proof. unfold elements. by rewrite lens_static_shape. Qed.

Lemma product_nonneg (l : list Z) : Forall (λ o, 0 ≤ o) l → 0 ≤ product l.
Proof.
  induction 1 as [|x l Hx Hl IH]; [done|].
  change (product (x :: l)) with (x * product l). lia.
Qed.

Lemma size_t_of_double_range (x : double) (t : Z) :
  size_t_of_double x = Some t → 0 ≤ t < 2 ^ size_t_digits.
Proof.
  unfold size_t_of_double. destruct (double_trunc x) as [t'|]; [|done].
  destruct (Z.leb_spec 0 t'); [|done].
  destruct (Z.ltb_spec t' (2 ^ size_t_digits)); [|done].
  intros [= <-]. done.
Qed.

Lemma assign_size_t_nonneg (a : argument) (l : list Z) :
  assign_size_t a = Ok l → Forall (λ o, 0 ≤ o) l.
Proof.
  destruct a as [|v|v]; simpl.
  - intros [= <-]. done.
  - intros [= <-]. apply Forall_fmap, Forall_forall. intros x _. simpl.
    unfold wrap_size_t, size_t_digits. apply Z.mod_pos_bound. done.
  - destruct (mapM size_t_of_double v) as [l'|] eqn:Hm; [|done].
    intros [= <-]. apply mapM_Some_1 in Hm.
    apply Forall_lookup. intros i o Ho.
    destruct (Forall2_lookup_r _ _ _ _ _ Hm Ho) as (p & _ & Hp).
    apply size_t_of_double_range in Hp. lia.
Qed.

(** Output lengths resolved at compile time are [std::size_t] values. *)
Lemma resolve_out_lens_nonneg (opd : op_desc) (attributes : attribute_map)
    (a0 : instruction) (args : list instruction) (r : resolved) :
  resolve opd attributes a0 args = Ok r →
  is_constant_scale_input r = true →
  Forall (λ o, 0 ≤ o) (out_lens r).
Proof.
  intros Hr Hk.
  destruct (resolve_Ok _ _ _ _ _ Hr) as (_ & _ & sc & Hsc & _ & _ & Hk' & _ & Hout).
  rewrite Hk in Hk'. destruct (non_static sc); [done|].
  destruct (Hout eq_refl) as [_ Hol].
  destruct (forallb _ _).
  - apply scaled_lens_Ok in Hol.
    apply Forall_lookup. intros i o Ho.
    destruct (Forall2_lookup_r _ _ _ _ _ Hol Ho) as (p & _ & Hp).
    apply size_t_of_double_range in Hp. lia.
  - rewrite Hol. case_decide.
    + apply parse_args_Ok in Hsc as [_ Hsc].
      destruct Hsc; simpl; try (by apply Forall_replicate).
      by eapply assign_size_t_nonneg.
    + subst sc. simpl. by apply Forall_replicate.
Qed.

(** The argument [resolve] keeps for the [resize] instruction is one of
    the arguments of the call. *)
Lemma resolve_arg_elem_of (opd : op_desc) (attributes : attribute_map)
    (a0 : instruction) (rest : list instruction) (r : resolved) :
  resolve opd attributes a0 (a0 :: rest) = Ok r →
  scales_sizes_arg r ∈ a0 :: rest.
Proof.
  intros Hr.
  destruct (resolve_Ok _ _ _ _ _ Hr) as (_ & _ & sc & Hsc & -> & _).
  case_decide.
  - apply parse_args_Ok in Hsc as [Hf _]. by apply first_eligible_eligible in Hf as [_ ?].
  - subst sc. simpl. apply list_elem_of_here.
Qed.

Section GraphFacts.

Variable get_nearest_op : string → Z → double → Z.
Variable get_original_idx_op : string → Z → Z → Z → double → double.

(** A turn of the blending loop, started on the handle of the last node,
    which the call itself inserted: it appends nodes that are in scope,
    never throws, and returns the handle of the last node again. *)
Lemma blend_step_run (args : list instruction) (base : nat) (out_lens : list Z)
    (delta : list (list double)) (n i p : nat) (dl : list Z) (g : list node)
    (o : outcome (instruction_ref * list Z)) (g' : list node) :
  (base ≤ p)%nat →
  S p = length g →
  blend_step out_lens delta n i (ref_new p, dl) g = (o, g') →
  ∃ nodes, g' = g ++ nodes ∧ inserted_from args base (length g) nodes ∧
    match o with
    | Ok st' => ∃ q, st'.1 = ref_new q ∧ S q = length g'
    | Throw _ => False
    | Undefined => True
    end.
Proof.
  intros Hb Hp. unfold blend_step.
  destruct dl as [|d0 dl].
  { intros [= <- <-]. exists []. rewrite app_nil_r.
    split; [done|]. split; [apply inserted_from_nil|done]. }
  destruct out_lens as [|o0 ol].
  { intros [= <- <-]. exists []. rewrite app_nil_r.
    split; [done|]. split; [apply inserted_from_nil|done]. }
  case_decide.
  { intros [= <- <-]. exists []. rewrite app_nil_r.
    split; [done|]. split; [apply inserted_from_nil|done]. }
  step_builder. simpl. step_builder. unfold mret, builder_ret.
  intros [= <- <-]. rewrite <- !app_assoc. simpl.
  eexists. split; [done|]. split.
  - rewrite !length_app. simpl. in_scope.
  - eexists. split; [done|]. rewrite !length_app. simpl. lia.
Qed.

Lemma blend_loop_run (args : list instruction) (base : nat) (out_lens : list Z)
    (delta : list (list double)) (n : nat) (steps : list nat) (p : nat)
    (dl : list Z) (g : list node)
    (o : outcome (instruction_ref * list Z)) (g' : list node) :
  (base ≤ p)%nat →
  S p = length g →
  blend_loop out_lens delta n steps (ref_new p, dl) g = (o, g') →
  ∃ nodes, g' = g ++ nodes ∧ inserted_from args base (length g) nodes ∧
    match o with
    | Ok st' => ∃ q, st'.1 = ref_new q ∧ S q = length g'
    | Throw _ => False
    | Undefined => True
    end.
Proof.
  revert p dl g. induction steps as [|i steps IH]; intros p dl g Hb Hp;
    cbn [blend_loop].
  - unfold mret, builder_ret. intros [= <- <-]. exists []. rewrite app_nil_r.
    split; [done|]. split; [apply inserted_from_nil|]. by exists p.
  - unfold mbind, builder_mbind.
    destruct (blend_step out_lens delta n i (ref_new p, dl) g) as [o1 g1] eqn:Hstep.
    destruct (blend_step_run args base _ _ _ _ _ _ _ _ _ Hb Hp Hstep)
      as (nodes & -> & Hs & Ho).
    destruct o1 as [[h dl']| |]; [|done|].
    + destruct Ho as (q & Hq & Hlen). simpl in Hq. subst h.
      intros Hloop.
      assert (Hbq : (base ≤ q)%nat) by (rewrite length_app in Hlen; lia).
      destruct (IH _ _ _ Hbq Hlen Hloop) as (nodes' & -> & Hs' & Ho').
      exists (nodes ++ nodes'). rewrite app_assoc. split; [done|]. split; [|done].
      apply inserted_from_app; [done|]. by rewrite <- length_app.
    + intros [= <- <-]. by exists nodes.
Qed.

Lemma linear_branch_run (args : list instruction) (idx_op : Z → Z → Z → double → double)
    (r : resolved) (a0 : instruction) (g : list node)
    (o : outcome instruction_ref) (g' : list node) :
  a0 ∈ args →
  linear_branch get_nearest_op idx_op r a0 g = (o, g') →
  ∃ nodes, g' = g ++ nodes ∧ inserted_in_scope args (length g) nodes ∧
    ∀ h, o = Ok h → nodes ≠ [] ∧ ∃ q, h = ref_new q ∧ S q = length g'.
Proof.
  intros Ha. unfold linear_branch, inserted_in_scope.
  destruct (is_constant_scale_input r); cbn [negb].
  2:{ unfold lift. intros [= <- <-]. exists []. rewrite app_nil_r.
      split; [done|]. split; [apply inserted_from_nil|done]. }
  rewrite bind_add_instruction, bind_lift.
  assert (Hone : inserted_from args (length g) (length g)
            [ins (op_reshape [to_int64 (elements (in_s r))]) [ref_arg a0]]) by in_scope.
  destruct (calc_neighbor_points _ _) as [ind|e'|] eqn:Hcalc.
  2,3: intros [= <- <-]; eexists; split; [done|]; split; done.
  rewrite bind_lift. unfold update_front.
  destruct (out_lens r) as [|o0 ol] eqn:Ho.
  { intros [= <- <-]. eexists. split; [done|]. split; done. }
  step_builder.
  unfold mbind at 1, builder_mbind at 1.
  match goal with |- context [blend_loop ?ol ?d ?n ?l (ref_new ?p, ?dl) ?g0] =>
    destruct (blend_loop ol d n l (ref_new p, dl) g0) as [o1 g1] eqn:Hloop;
    destruct (blend_loop_run args (length g) ol d n l p dl g0 o1 g1)
      as (nodes & -> & Hs & Ho1)
  end.
  { rewrite !length_app. simpl. lia. }
  { rewrite !length_app. simpl. lia. }
  { exact Hloop. }
  rewrite <- !app_assoc in *. simpl in *.
  assert (Hall : inserted_from args (length g) (length g)
            ([ins (op_reshape [to_int64 (elements (in_s r))]) [ref_arg a0];
              lit (static_shape int32_type
                     (wrap_size_t (o0 * 1 ≪ Z.of_nat (length (o0 :: ol))) :: ol))
                  (arg_int ind);
              ins (op_gather 0) [ref_new (length g); ref_new (length (g ++
                 [ins (op_reshape [to_int64 (elements (in_s r))]) [ref_arg a0]]))]]
             ++ nodes)).
  { apply inserted_from_app.
    - rewrite length_app. simpl. in_scope.
    - rewrite length_app in Hs. exact Hs. }
  destruct o1 as [st'| |]; [|done|].
  - unfold mret, builder_ret. intros [= <- <-].
    eexists. split; [done|]. split; [done|].
    intros h [= <-]. done.
  - intros [= <- <-]. eexists. split; [done|]. split; done.
Qed.

Lemma nearest_branch_run (opd : op_desc) (attributes : attribute_map)
    (c nm : string) (r : resolved) (a0 : instruction) (rest : list instruction)
    (g : list node) (o : outcome instruction_ref) (g' : list node) :
  get_coord_trans_mode attributes = Ok c →
  resolve opd attributes a0 (a0 :: rest) = Ok r →
  nearest_branch get_nearest_op get_original_idx_op attributes c nm r a0 g = (o, g') →
  ∃ nodes, g' = g ++ nodes ∧ inserted_in_scope (a0 :: rest) (length g) nodes ∧
    ∀ h, o = Ok h → nodes ≠ [] ∧ ∃ q, h = ref_new q ∧ S q = length g'.
Proof.
  intros Hc Hr. unfold nearest_branch, inserted_in_scope.
  destruct (_ || _).
  - unfold add_instruction. intros [= <- <-].
    eexists. split; [done|]. split.
    + pose proof (resolve_arg_elem_of _ _ _ _ _ Hr). in_scope.
    + intros h [= <-]. split; [done|].
      eexists. split; [done|]. rewrite length_app. simpl. lia.
  - rewrite (make_gather_instruction_eq _ _ _ c) by done.
    intros [= <- <-]. eexists. split; [done|]. split.
    + unfold gather_nodes. in_scope.
    + intros h [= <-]. split; [done|]. eexists. split; [done|].
      rewrite length_app. unfold gather_nodes. simpl. lia.
Qed.

(** What every run of [parse] does to the graph. *)
Lemma parse_run (opd : op_desc) (attributes : attribute_map)
    (args : list instruction) (g : list node)
    (o : outcome instruction_ref) (g' : list node) :
  parse get_nearest_op get_original_idx_op opd attributes args g = (o, g') →
  ∃ nodes, g' = g ++ nodes ∧ inserted_in_scope args (length g) nodes ∧
    ∀ h, o = Ok h → nodes ≠ [] ∧ ∃ q, h = ref_new q ∧ S q = length g'.
Proof.
  assert (Hnone : ∀ o0 : outcome instruction_ref, (∀ h, o0 ≠ Ok h) →
            (o0, g) = (o, g') →
            ∃ nodes, g' = g ++ nodes ∧ inserted_in_scope args (length g) nodes ∧
              ∀ h, o = Ok h → nodes ≠ [] ∧ ∃ q, h = ref_new q ∧ S q = length g').
  { intros o0 Ho0 [= <- <-]. exists []. rewrite app_nil_r.
    split; [done|]. split; [apply inserted_from_nil|].
    intros h Hh. by destruct (Ho0 h). }
  unfold parse. rewrite bind_lift.
  destruct (get_coord_trans_mode attributes) as [c|e1|] eqn:Hc;
    [|by apply Hnone..].
  rewrite bind_lift.
  destruct (get_mode attributes) as [mode|e1|] eqn:Hm; [|by apply Hnone..].
  case_bool_decide as Hex; [by apply Hnone|].
  destruct args as [|a0 rest]; [by apply Hnone|].
  rewrite bind_lift.
  destruct (resolve opd attributes a0 (a0 :: rest)) as [r|e1|] eqn:Hr;
    [|by apply Hnone..].
  case_decide.
  - by apply (nearest_branch_run opd attributes c _ r a0 rest).
  - apply linear_branch_run. apply list_elem_of_here.
Qed.

(** X12: a call that returns has appended at least one node to the graph,
    has left the nodes that were there as they were, and returns the handle
    of the last node it appended. *)
Theorem parse_returns_last_node (opd : op_desc) (attributes : attribute_map)
    (args : list instruction) (g : list node) (h : instruction_ref)
    (g' : list node) :
  parse get_nearest_op get_original_idx_op opd attributes args g = (Ok h, g') →
  ∃ front last, g' = g ++ front ++ [last] ∧
                h = ref_new (length g + length front).
Proof.
  intros H. apply parse_run in H as (nodes & -> & _ & Hh).
  destruct (Hh h eq_refl) as (Hne & q & -> & Hq).
  destruct nodes as [|n0 nodes' _] using rev_ind; [done|].
  exists nodes', n0. split; [done|]. f_equal.
  rewrite !length_app in Hq. simpl in Hq. lia.
Qed.

(** X13: when a call returns or throws, the graph it leaves is the graph
    it found followed by the nodes it inserted, and every input of an
    inserted node is an argument of the call or a node the same call
    inserted earlier: no inserted node reads a later node, itself, a node
    that was in the graph before the call, or an instruction that was not
    passed to the call. *)
Theorem inserted_nodes_in_scope (opd : op_desc) (attributes : attribute_map)
    (args : list instruction) (g : list node) (o : outcome instruction_ref)
    (g' : list node) :
  parse get_nearest_op get_original_idx_op opd attributes args g = (o, g') →
  o ≠ Undefined →
  ∃ nodes, g' = g ++ nodes ∧ inserted_in_scope args (length g) nodes.
Proof.
  intros H _. apply parse_run in H as (nodes & -> & Hs & _). by exists nodes.
Qed.

(** With rounding policies that clamp to [[0, in_len - 1]], every entry of
    the tables of the linear branch is a valid index of its dimension. *)
Lemma linear_tables_valid (idx_op : Z → Z → Z → double → double)
    (in_s : shape) (out_lens : list Z) (vec_scale : list double) (out_s : shape)
    (out_elements : Z) :
  length out_lens = length (lens in_s) →
  (∀ n x, n ∈ lens in_s → 0 ≤ get_nearest_op "floor" n x ≤ n - 1) →
  (∀ n x, n ∈ lens in_s → 0 ≤ get_nearest_op "ceil" n x ≤ n - 1) →
  table_valid
    (linear_tables get_nearest_op idx_op (lens in_s) out_lens vec_scale
                   out_s out_elements).1 in_s.
Proof.
  intros Hlen Hfloor Hceil. unfold linear_tables, shape_for_each, table_valid.
  apply (foldl_invariant (λ st : list (list (list Z)) * list (list double),
           Forall2 (λ vv n, Forall (Forall (λ x, 0 ≤ x < n)) vv) st.1 (lens in_s))).
  - cbn [fst]. apply Forall2_same_length_lookup. split.
    + by rewrite length_replicate.
    + intros i vv n Hvv Hn. apply lookup_replicate in Hvv as [-> _].
      pose proof (Hfloor n PrimFloat.zero ltac:(by eapply list_elem_of_lookup_2)).
      do 2 apply Forall_replicate. lia.
  - intros st out_idx Hst.
    apply foldl_invariant; [done|].
    intros [vvv_ind delta] ii Hv. cbn [fst] in *.
    apply Forall2_alter_l.
    + apply Forall2_alter_l; [done|].
      intros vv n Hvv Hn Hall. rewrite (list_lookup_total_correct _ _ _ Hn).
      apply Forall_alter; [done|]. intros v _ Hrow.
      apply Forall_insert; [done|].
      match goal with |- 0 ≤ get_nearest_op "floor" n ?x < n =>
        pose proof (Hfloor n x ltac:(by eapply list_elem_of_lookup_2)) end. lia.
    + intros vv n Hvv Hn Hall. rewrite (list_lookup_total_correct _ _ _ Hn).
      apply Forall_alter; [done|]. intros v _ Hrow.
      apply Forall_insert; [done|].
      match goal with |- 0 ≤ get_nearest_op "ceil" n ?x < n =>
        pose proof (Hceil n x ltac:(by eapply list_elem_of_lookup_2)) end. lia.
Qed.

(** Every row of deltas of the linear branch has one entry per output
    element. *)
Lemma linear_tables_delta_rows (idx_op : Z → Z → Z → double → double)
    (in_lens out_lens : list Z) (vec_scale : list double) (out_s : shape)
    (out_elements : Z) :
  Forall (λ row, length row = Z.to_nat out_elements)
    (linear_tables get_nearest_op idx_op in_lens out_lens vec_scale
                   out_s out_elements).2.
Proof.
  unfold linear_tables, shape_for_each.
  apply (foldl_invariant (λ st : list (list (list Z)) * list (list double),
           Forall (λ row, length row = Z.to_nat out_elements) st.2)).
  - cbn [snd]. apply Forall_replicate. by rewrite length_replicate.
  - intros st out_idx Hst.
    apply foldl_invariant; [done|].
    intros [vvv_ind delta] ii Hd. cbn [snd] in *.
    apply Forall_alter; [done|]. intros row _ Hrow. by rewrite length_insert.
Qed.

(** The corner enumeration refuses the tables of a rank of 64 or more. *)
Lemma linear_tables_overflow (idx_op : Z → Z → Z → double → double)
    (in_lens out_lens : list Z) (vec_scale : list double) (out_s : shape)
    (out_elements : Z) (in_s : shape) :
  (64 ≤ length out_lens)%nat →
  calc_neighbor_points
    (linear_tables get_nearest_op idx_op in_lens out_lens vec_scale
                   out_s out_elements).1 in_s = Throw DimensionOverflow.
Proof.
  intros Hn.
  destruct (linear_tables_dims get_nearest_op idx_op in_lens out_lens vec_scale
              out_s out_elements) as (Hlen & Hdims & _).
  destruct (linear_tables _ _ _ _ _ _ _).1 as [|vv rest] eqn:Ht;
    [simpl in Hlen; lia|].
  unfold table_dims in Hdims. apply Forall_cons in Hdims as [[Hvv _] _].
  destruct vv as [|v00 vv]; [done|].
  unfold calc_neighbor_points, size_t_digits.
  destruct (Z.leb_spec 64 (Z.of_nat (length ((v00 :: vv) :: rest)))); [done|lia].
Qed.

(** X14: with accepted attributes and resolved scales, the lowering fails
    with [DimensionOverflow] exactly when the mode is linear, the scales or
    sizes are constant and the data has 64 dimensions or more; the graph
    then holds one more node, the reshape of the data to one dimension. *)
Theorem dimension_overflow_iff (opd : op_desc) (attributes : attribute_map)
    (a0 : instruction) (rest : list instruction) (r : resolved)
    (g g' : list node) :
  config_accepted attributes →
  resolve opd attributes a0 (a0 :: rest) = Ok r →
  parse get_nearest_op get_original_idx_op opd attributes (a0 :: rest) g
    = (Throw DimensionOverflow, g') ↔
  get_mode attributes = Ok "linear" ∧
  is_constant_scale_input r = true ∧
  (64 ≤ length (lens (get_shape a0)))%nat ∧
  g' = g ++ [ins (op_reshape [to_int64 (elements (in_s r))]) [ref_arg a0]].
Proof.
  intros ((c & Hc) & (mode & Hm) & Hex) Hr.
  assert (Hrank : is_constant_scale_input r = true →
                  length (out_lens r) = length (lens (get_shape a0))).
  { intros Hk. destruct (resolve_lengths _ _ _ _ _ Hr Hk) as [_ ->].
    destruct (resolve_Ok _ _ _ _ _ Hr) as (Hs & -> & _).
    by rewrite Hs, length_lens_to_static. }
  split.
  - intros H. apply parse_throw in H
      as (a1 & rest1 & r1 & [= <- <-] & Hr1 & Hk & Hl & Hn & ->).
    assert (r1 = r) as -> by congruence.
    rewrite <- Hrank by done. done.
  - intros (Hl & Hk & Hn & ->).
    rewrite (parse_branches _ _ _ _ _ _ r c "linear") by done.
    rewrite decide_False by done.
    unfold linear_branch. rewrite Hk. cbn [negb].
    rewrite bind_add_instruction, bind_lift.
    rewrite linear_tables_overflow; [done|]. by rewrite Hrank.
Qed.

(** X15: in linear mode with constant scales, a static input of rank
    [0 < n < 64] with at most [2^31] elements, and ["floor"] and ["ceil"]
    rounding policies that clamp to [[0, in_len - 1]], the lowering inserts
    the reshape, the literal of corner offsets and the gather (whatever
    becomes of the blending turns after them); the literal holds [2^n]
    offsets per output element and every one of them lies in
    [[0, elements)], so that the gather on the flattened input never reads
    out of bounds. *)
Theorem linear_corner_offsets_in_bounds (opd : op_desc)
    (attributes : attribute_map) (a0 : instruction) (rest : list instruction)
    (r : resolved) (c : string) (g : list node) :
  get_coord_trans_mode attributes = Ok c →
  get_mode attributes = Ok "linear" →
  AttributeProto.i <$> attributes !! "exclude_outside" ≠ Some 1 →
  resolve opd attributes a0 (a0 :: rest) = Ok r →
  dynamic (get_shape a0) = false →
  is_constant_scale_input r = true →
  (0 < length (lens (get_shape a0)) < 64)%nat →
  (∀ n x, n ∈ lens (get_shape a0) → 0 ≤ get_nearest_op "floor" n x ≤ n - 1) →
  (∀ n x, n ∈ lens (get_shape a0) → 0 ≤ get_nearest_op "ceil" n x ≤ n - 1) →
  elements (get_shape a0) ≤ 2 ^ 31 →
  ∃ o ind_s ind nodes,
    parse get_nearest_op get_original_idx_op opd attributes (a0 :: rest) g =
      (o, g ++ [ins (op_reshape [to_int64 (elements (get_shape a0))]) [ref_arg a0];
                lit ind_s (arg_int ind);
                ins (op_gather 0) [ref_new (length g); ref_new (length g + 1)]]
            ++ nodes) ∧
    length ind =
      (2 ^ length (out_lens r)
       * Z.to_nat (elements (static_shape (type (get_shape a0)) (out_lens r))))%nat ∧
    Forall (λ x, 0 ≤ x < elements (get_shape a0)) ind.
Proof.
  intros Hc Hm Hex Hr Hdyn Hk Hrank Hfloor Hceil Hfit.
  destruct (resolve_Ok _ _ _ _ _ Hr) as (Hs & Hl & _).
  rewrite to_static_static in Hs by done. rewrite Hs in Hl.
  destruct (resolve_lengths _ _ _ _ _ Hr Hk) as [_ Hlo]. rewrite Hl in Hlo.
  rewrite (parse_branches _ _ _ _ _ _ r c "linear") by done.
  rewrite decide_False by done.
  unfold linear_branch. rewrite Hk. cbn [negb].
  rewrite bind_add_instruction, bind_lift. rewrite Hs, Hl.
  set (out_s := static_shape (type (get_shape a0)) (out_lens r)).
  set (tables := linear_tables get_nearest_op (get_original_idx_op c)
                   (lens (get_shape a0)) (out_lens r) (vec_scale r) out_s
                   (elements out_s)).
  destruct (linear_tables_dims get_nearest_op (get_original_idx_op c)
              (lens (get_shape a0)) (out_lens r) (vec_scale r) out_s (elements out_s))
    as (Hlen & Hdims & _).
  fold tables in Hlen, Hdims.
  pose proof (linear_tables_valid (get_original_idx_op c) (get_shape a0) (out_lens r)
                (vec_scale r) out_s (elements out_s) Hlo Hfloor Hceil) as Hvalid.
  fold tables in Hvalid.
  assert (Hr' : (0 < length tables.1 < 64)%nat) by (rewrite Hlen, Hlo; done).
  pose proof (calc_neighbor_points_unfold tables.1 (get_shape a0) _ Hdims Hr') as Hcalc.
  destruct (calc_neighbor_points_in_range _ _ _ _ Hr' Hdims Hvalid Hfit Hcalc)
    as [Hcount Hoff].
  rewrite Hcalc. rewrite bind_lift. unfold update_front.
  destruct (out_lens r) as [|o0 ol] eqn:Ho; [simpl in Hlo; lia|].
  step_builder.
  unfold mbind at 1, builder_mbind at 1.
  match goal with |- context [blend_loop ?o ?d ?n ?l ?st ?g0] =>
    destruct (blend_loop_outcome o d n l st g0) as [(st' & nodes & Hloop)|(nodes & Hloop)]
  end; rewrite Hloop.
  all: eexists _, _, _, nodes.
  all: (split; [unfold mret, builder_ret; rewrite <- !app_assoc, length_app; simpl;
                reflexivity|]).
  all: split; [by rewrite Hcount, Hlen|].
  all: apply Forall_lookup; intros k x Hx.
  all: assert (Hk' : (k < 2 ^ length tables.1 * Z.to_nat (elements out_s))%nat)
         by (rewrite <- Hcount; by eapply lookup_lt_Some).
  all: assert (Hm0 : (0 < Z.to_nat (elements out_s))%nat) by nia.
  all: destruct (Hoff (k / Z.to_nat (elements out_s))%nat
                      (k mod Z.to_nat (elements out_s))%nat) as [Hlook Hb];
         [apply Nat.Div0.div_lt_upper_bound; lia|apply Nat.mod_upper_bound; lia|].
  all: replace (k `div` Z.to_nat (elements out_s) * Z.to_nat (elements out_s)
               + k `mod` Z.to_nat (elements out_s))%nat with k in Hlook
         by (rewrite (Nat.div_mod_eq k (Z.to_nat (elements out_s))) at 1; lia).
  all: rewrite Hx in Hlook; injection Hlook as ->; done.
Qed.

(** The nodes of the linear lowering for a rank below 64 and a leading
    output length [o0 > 0] with [o0 * 2^n < 2^63]. *)
Lemma linear_lowering_nodes (opd : op_desc) (attributes : attribute_map)
    (a0 : instruction) (rest : list instruction) (r : resolved) (c : string)
    (g : list node) (o0 : Z) (ol : list Z) :
  get_coord_trans_mode attributes = Ok c →
  get_mode attributes = Ok "linear" →
  AttributeProto.i <$> attributes !! "exclude_outside" ≠ Some 1 →
  resolve opd attributes a0 (a0 :: rest) = Ok r →
  is_constant_scale_input r = true →
  out_lens r = o0 :: ol →
  (length (out_lens r) < 64)%nat →
  0 < o0 →
  o0 * 2 ^ Z.of_nat (length (out_lens r)) < 2 ^ 63 →
  let n := length (out_lens r) in
  let out_s := static_shape (type (in_s r)) (out_lens r) in
  let tables := linear_tables get_nearest_op (get_original_idx_op c) (in_lens r)
                              (out_lens r) (vec_scale r) out_s (elements out_s) in
  ∃ ind,
    length ind = (2 ^ n * Z.to_nat (elements out_s))%nat ∧
    parse get_nearest_op get_original_idx_op opd attributes (a0 :: rest) g =
      (Ok (ref_new (length g + 2 + 6 * n)),
       (g ++ [ins (op_reshape [to_int64 (elements (in_s r))]) [ref_arg a0];
              lit (static_shape int32_type (o0 * 2 ^ Z.of_nat n :: ol)) (arg_int ind);
              ins (op_gather 0) [ref_new (length g); ref_new (length g + 1)]])
         ++ mjoin (blend_turn o0 ol tables.2 n (length g + 2) <$> seq 0 n)).
Proof.
  intros Hc Hm Hex Hr Hk Ho Hn Hpos Hfit n out_s tables.
  assert (Hn0 : (0 < n)%nat) by (unfold n; rewrite Ho; simpl; lia).
  destruct (linear_tables_dims get_nearest_op (get_original_idx_op c) (in_lens r)
              (out_lens r) (vec_scale r) out_s (elements out_s)) as (Hlen & Hdims & _).
  fold tables in Hlen, Hdims.
  assert (Hr' : (0 < length tables.1 < 64)%nat) by (rewrite Hlen; done).
  pose proof (calc_neighbor_points_unfold tables.1 (in_s r) _ Hdims Hr') as Hcalc.
  eexists. split.
  2:{ rewrite (parse_branches _ _ _ _ _ _ r c "linear") by done.
      rewrite decide_False by done.
      unfold linear_branch. rewrite Hk. cbn [negb].
      rewrite bind_add_instruction, bind_lift.
      fold out_s. fold tables. rewrite Hcalc.
      rewrite bind_lift. fold n. rewrite Ho. unfold update_front.
      rewrite bind_add_literal, bind_add_instruction, bind_lift.
      unfold mbind at 1, builder_mbind at 1.
      rewrite !Z.shiftl_1_l.
      assert (Hp : 0 < 2 ^ Z.of_nat n) by (apply Z.pow_pos_nonneg; lia).
      assert (Hp1 : 2 ^ Z.of_nat n = 2 * 2 ^ (Z.of_nat n - 1)).
      { rewrite <- Z.pow_succ_r by lia. f_equal. lia. }
      assert (Hw : wrap_size_t (o0 * 2 ^ Z.of_nat n) = o0 * 2 ^ Z.of_nat n).
      { unfold wrap_size_t, size_t_digits. apply Z.mod_small. fold n in Hfit. lia. }
      assert (Hw1 : wrap_size_t (o0 * 2 ^ (Z.of_nat n - 1))
                    = (o0 * 2 ^ Z.of_nat (n - 1)) `div` 2 ^ Z.of_nat 0).
      { replace (Z.of_nat (n - 1)) with (Z.of_nat n - 1) by lia.
        change (2 ^ Z.of_nat 0) with 1. rewrite Z.div_1_r.
        unfold wrap_size_t, size_t_digits. apply Z.mod_small. fold n in Hfit. nia. }
      rewrite Hw, Hw1.
      rewrite !length_app. simpl length.
      replace (length g + 1 + 1)%nat with (length g + 2 + 6 * 0)%nat by lia.
      rewrite (blend_loop_eq o0 ol tables.2 n (length g + 2) Hpos Hfit n 0).
      + unfold mret, builder_ret. cbn [fst snd].
        rewrite Nat.add_0_l. f_equal.
        rewrite <- !app_assoc. simpl. done.
      + lia.
      + rewrite !length_app. simpl. lia. }
  rewrite (length_join_uniform _ (Z.to_nat (elements out_s))).
  - by rewrite length_seqZ, Z_to_nat_pow2, Hlen.
  - intros val. by rewrite length_fmap, length_seq.
Qed.

(** X16: every literal the lowering inserts holds exactly as many elements
    as its shape has.  In nearest mode this holds for every call that gets
    past the resolution of the scales; in linear mode it is shown for
    constant scales, a rank below 64 and a leading output length [o0 > 0]
    with [o0 * 2^n < 2^63], where the literal of corner offsets and the
    tiled deltas of every blending turn fit their shapes. *)
Theorem inserted_literals_sized (opd : op_desc) (attributes : attribute_map)
    (a0 : instruction) (rest : list instruction) (r : resolved) (c mode : string)
    (g : list node) :
  get_coord_trans_mode attributes = Ok c →
  get_mode attributes = Ok mode →
  AttributeProto.i <$> attributes !! "exclude_outside" ≠ Some 1 →
  resolve opd attributes a0 (a0 :: rest) = Ok r →
  (mode ≠ "nearest" →
     is_constant_scale_input r = true ∧
     (length (out_lens r) < 64)%nat ∧
     ∃ o0 ol, out_lens r = o0 :: ol ∧ 0 < o0 ∧
              o0 * 2 ^ Z.of_nat (length (out_lens r)) < 2 ^ 63) →
  ∃ h nodes,
    parse get_nearest_op get_original_idx_op opd attributes (a0 :: rest) g
      = (Ok h, g ++ nodes) ∧
    Forall literal_sized nodes.
Proof.
  intros Hc Hm Hex Hr Hlin.
  destruct (decide (mode = "nearest")) as [->|Hmode].
  - rewrite (parse_branches _ _ _ _ _ _ r c "nearest") by done.
    rewrite decide_True by done. unfold nearest_branch.
    destruct (dynamic (get_shape a0) || negb (is_constant_scale_input r)) eqn:Hcond.
    + eexists _, _. split; [reflexivity|]. by repeat constructor.
    + apply orb_false_iff in Hcond as [_ Hk]. apply negb_false_iff in Hk.
      rewrite (make_gather_instruction_eq _ _ _ c) by done.
      eexists _, _. split; [reflexivity|].
      unfold gather_nodes. repeat constructor. simpl.
      rewrite gather_ind_eq, length_fmap, length_seq.
      unfold elements. rewrite !lens_static_shape.
      pose proof (product_nonneg _ (resolve_out_lens_nonneg _ _ _ _ _ Hr Hk)). lia.
  - destruct (Hlin Hmode) as (Hk & Hn & o0 & ol & Ho & Hpos & Hfit).
    assert (mode = "linear") as ->.
    { unfold get_mode in Hm. destruct (attributes !! "mode"); [|by injection Hm as <-].
      case_decide as Hd; [done|]. injection Hm as <-.
      destruct (decide (AttributeProto.s t = "linear")); [done|]. tauto. }
    destruct (linear_lowering_nodes opd attributes a0 rest r c g o0 ol)
      as (ind & Hind & ->); try done.
    rewrite <- app_assoc. eexists _, _. split; [reflexivity|].
    pose proof (resolve_out_lens_nonneg _ _ _ _ _ Hr Hk) as Hnn.
    rewrite Ho in Hnn. apply Forall_cons in Hnn as [_ Hnn].
    apply product_nonneg in Hnn.
    set (n := length (out_lens r)) in *.
    set (out_s := static_shape (type (in_s r)) (out_lens r)) in *.
    assert (Hoe : elements out_s = o0 * product ol).
    { unfold out_s. by rewrite Ho, elements_static_cons. }
    apply Forall_app. split.
    + repeat constructor. simpl. rewrite Hind.
      rewrite elements_static_cons, Hoe, Nat2Z.inj_mul, Nat2Z.inj_pow, Z2Nat.id by nia.
      change (Z.of_nat 2) with 2. lia.
    + apply Forall_forall. intros node Hnode.
      apply list_elem_of_join in Hnode as (turn & Hnode & Hturn).
      apply list_elem_of_fmap in Hturn as (j & -> & Hj).
      apply elem_of_seq in Hj.
      unfold blend_turn, blend_nodes in Hnode.
      apply list_elem_of_In in Hnode. simpl in Hnode.
      destruct Hnode as [<-|[<-|[<-|[<-|[<-|[<-|[]]]]]]]; try done.
      unfold literal_sized.
      pose proof (linear_tables_delta_rows (get_original_idx_op c)
                    (in_lens r) (out_lens r) (vec_scale r) out_s (elements out_s))
        as Hrows.
      destruct (linear_tables_dims get_nearest_op (get_original_idx_op c) (in_lens r)
              (out_lens r) (vec_scale r) out_s (elements out_s)) as (_ & _ & Hdl).
      rewrite Forall_lookup in Hrows.
      match goal with |- context [?d !!! (n - 1 - j)%nat] =>
        destruct (lookup_lt_is_Some_2 d (n - 1 - j)%nat) as [row Hrow];
          [rewrite Hdl; fold n; lia|];
        rewrite (list_lookup_total_correct _ _ _ Hrow);
        pose proof (Hrows _ _ Hrow) as Hlenrow
      end.
      rewrite length_join_replicate, Hlenrow.
      rewrite elements_static_cons, Hoe, Nat2Z.inj_mul, Nat2Z.inj_pow, Z2Nat.id by nia.
      change (Z.of_nat 2) with 2. lia.
Qed.

(** X17: in nearest mode, when the scales come from the [scales] attribute
    and the shape of the data is only known at run time, the single
    [resize] instruction takes the data argument as both of its inputs: the
    scales of the attribute are carried neither by an input nor by a
    parameter of the instruction. *)
Theorem scales_attribute_dynamic_input (opd : op_desc)
    (attributes : attribute_map) (a0 : instruction) (rest : list instruction)
    (r : resolved) (c : string) (g : list node) :
  get_coord_trans_mode attributes = Ok c →
  get_mode attributes = Ok "nearest" →
  AttributeProto.i <$> attributes !! "exclude_outside" ≠ Some 1 →
  resolve opd attributes a0 (a0 :: rest) = Ok r →
  get_scales attributes ≠ [] →
  dynamic (get_shape a0) = true →
  parse get_nearest_op get_original_idx_op opd attributes (a0 :: rest) g =
    (Ok (ref_new (length g)),
     g ++ [ins (op_resize (get_nearest_mode attributes) c) [ref_arg a0; ref_arg a0]]).
Proof.
  intros Hc Hm Hex Hr Hs Hdyn.
  rewrite (parse_branches _ _ _ _ _ _ r c "nearest") by done.
  rewrite decide_True by done. unfold nearest_branch. rewrite Hdyn. cbn [orb].
  destruct (resolve_Ok _ _ _ _ _ Hr) as (_ & _ & sc & Hsc & -> & _).
  rewrite decide_False in Hsc by done. by subst sc.
Qed.

End GraphFacts.

Section ModeFacts.

Variable get_nearest_op : string → Z → double → Z.
Variable get_original_idx_op : string → Z → Z → Z → double → double.

(** X18: in linear mode the [nearest_mode] attribute has no effect: the
    outcome and the graph are the same whatever value it is given (the
    linear branch rounds with the ["floor"] and ["ceil"] policies only). *)
Theorem linear_ignores_nearest_mode (opd : op_desc) (attributes : attribute_map)
    (v : AttributeProto.t) (args : list instruction) (g : list node) :
  get_mode attributes = Ok "linear" →
  parse get_nearest_op get_original_idx_op opd
        (<["nearest_mode" := v]> attributes) args g =
  parse get_nearest_op get_original_idx_op opd attributes args g.
Proof.
  intros Hm.
  assert (Hc : get_coord_trans_mode (<["nearest_mode" := v]> attributes)
               = get_coord_trans_mode attributes).
  { unfold get_coord_trans_mode. by rewrite lookup_insert_ne. }
  assert (Hm' : get_mode (<["nearest_mode" := v]> attributes) = Ok "linear").
  { rewrite <- Hm. unfold get_mode. by rewrite lookup_insert_ne. }
  assert (Hs : get_scales (<["nearest_mode" := v]> attributes) = get_scales attributes).
  { unfold get_scales. by rewrite lookup_insert_ne. }
  unfold parse. rewrite Hc, !bind_lift.
  destruct (get_coord_trans_mode attributes) as [c| |]; [|done..].
  rewrite !bind_lift, Hm, Hm'.
  rewrite lookup_insert_ne by done.
  destruct (bool_decide _); [done|].
  destruct args as [|a0 rest]; [done|].
  rewrite !bind_lift. unfold resolve. rewrite Hs.
  match goal with |- context [mbind ?k ?x] => destruct (mbind k x) as [r| |] end;
    [|done..].
  by rewrite !decide_False by done.
Qed.

(** X19: an argument of integers of a type other than [int64] is read as
    scales.  When it is the first eligible argument, there is no [scales]
    attribute, its leading length is the rank of the data and it evaluates
    at compile time to the integers [v], the scales are the integers [v]
    converted to doubles and every output length is the input length times
    the integer taken as a scale, not the integer itself. *)
Theorem integral_input_read_as_scales (opd : op_desc)
    (attributes : attribute_map) (a0 a : instruction) (rest : list instruction)
    (r : resolved) (v : list Z) :
  resolve opd attributes a0 (a0 :: rest) = Ok r →
  get_scales attributes = [] →
  first_eligible (a0 :: rest) = Some a →
  type (get_shape a) ≠ int64_type →
  head (lens (get_shape a)) = Some (Z.of_nat (length (lens (get_shape a0)))) →
  eval a = arg_int v →
  is_constant_scale_input r = true ∧
  vec_scale r = double_of_Z <$> v ∧
  lengths_from_scales r.
Proof.
  intros Hr Hs Hf Ht Hhd Hev.
  destruct (resolve_Ok _ _ _ _ _ Hr)
    as (Hin & Hl & sc & Hsc & _ & Hvs & Hk & _ & Hout).
  rewrite decide_True in Hsc by done.
  apply parse_args_Ok in Hsc as [Hf' Hscan].
  rewrite Hf in Hf'. injection Hf' as Hf'.
  revert Hvs Hk Hout. rewrite <- Hf' in Hscan.
  destruct Hscan as [Ht' _|sizes Ht' _ _ _|_ _ He|_ _ _|_ Hhd'];
    cbn [non_static scan_scale scan_out_lens]; intros Hvs Hk Hout.
  - done.
  - done.
  - by rewrite Hev in He.
  - rewrite Hev in Hvs. split; [done|]. split; [done|].
    destruct (Hout eq_refl) as [_ Hol].
    rewrite forallb_replicate_zero in Hol.
    by apply scaled_lens_from_scales.
  - exfalso. apply Hhd'. rewrite Hhd, Hl, Hin. by rewrite length_lens_to_static.
Qed.

(** X20: with accepted attributes, the lowering fails with
    [UnsupportedDynamicLinear] exactly when the mode is linear, there is no
    [scales] attribute, and the first eligible argument cannot be evaluated
    at compile time while it is of type [int64] or its leading length is the
    rank of the data.  The graph is unchanged; the shape of the data plays
    no part in the test. *)
Theorem unsupported_dynamic_linear_iff (opd : op_desc)
    (attributes : attribute_map) (a0 : instruction) (rest : list instruction)
    (g g' : list node) :
  config_accepted attributes →
  parse get_nearest_op get_original_idx_op opd attributes (a0 :: rest) g
    = (Throw UnsupportedDynamicLinear, g') ↔
  get_mode attributes = Ok "linear" ∧
  get_scales attributes = [] ∧
  (∃ a, first_eligible (a0 :: rest) = Some a ∧ eval a = arg_empty ∧
        (type (get_shape a) = int64_type ∨
         head (lens (get_shape a)) = Some (Z.of_nat (length (lens (get_shape a0)))))) ∧
  g' = g.
Proof.
  intros Hcfg. split.
  - intros H. apply parse_throw in H
      as [(a1 & rest1 & r & [= <- <-] & Hr & Hk & Hm) ->].
    split; [done|].
    destruct (resolve_Ok _ _ _ _ _ Hr) as (Hin & Hl & sc & Hsc & _ & _ & Hk' & _).
    rewrite Hk in Hk'.
    destruct (decide (get_scales attributes = [])) as [Hs|Hs];
      [|by subst sc].
    split; [done|]. split; [|done].
    apply parse_args_Ok in Hsc as [Hf Hscan].
    remember (r_arg sc) as a eqn:Ha. clear Ha.
    exists a. split; [done|].
    revert Hk'.
    destruct Hscan as [Ht He|sizes ? ? ? ?|Ht Hhd He|? ? ?|? ?];
      cbn [non_static negb]; intros Hk'; try done.
    + split; [done|]. by left.
    + split; [done|]. right. rewrite Hhd, Hl, Hin. by rewrite length_lens_to_static.
  - intros (Hm & Hs & (a & Hf & He & Hty) & ->).
    destruct Hcfg as ((c & Hc) & _ & Hex).
    assert (Hr : resolve opd attributes a0 (a0 :: rest) =
                 Ok (mk_resolved (to_static 1 (get_shape a0))
                       (lens (to_static 1 (get_shape a0)))
                       (replicate (length (lens (to_static 1 (get_shape a0)))) 0)
                       [] a false)).
    { destruct (resolve_first_eligible opd attributes a0 a rest Hs Hf) as [-> Hp].
      destruct (first_eligible_eligible _ _ _ Hf) as [[Hskip Hl] _].
      unfold resolve. rewrite Hs. rewrite bool_decide_eq_false_2 by (by intros ?).
      rewrite Hp. simpl. rewrite decide_False by done.
      destruct (lens (get_shape a)) as [|l0 ls]; [congruence|].
      destruct (decide (type (get_shape a) = int64_type)) as [Ht|Ht].
      - by rewrite He.
      - destruct Hty as [?|Hhd]; [done|].
        simpl in Hhd. injection Hhd as ->.
        rewrite decide_True by (by rewrite length_lens_to_static).
        by rewrite He. }
    rewrite (parse_branches _ _ _ _ _ _ _ c "linear" g Hc Hm Hex Hr).
    by rewrite decide_False.
Qed.

End ModeFacts.

(** ** The further properties on the sample inputs *)

Ltac accept_config :=
  split; [eexists; reflexivity|];
  split; [eexists; reflexivity|];
  let H := fresh in intros H; vm_compute in H; discriminate H.

Ltac refute :=
  let H := fresh in intros H; vm_compute in H; discriminate H.

Lemma parse_reads_five_attributes_witness :
  sample_parse Resize linear_mode [data_1x1x2; scales_1_1_2] [] =
  sample_parse Resize linear_mode_antialias [data_1x1x2; scales_1_1_2] [].
Proof.
  apply (parse_reads_five_attributes sample_nearest_op sample_idx_op).
  split.
  - intros k Hk. apply list_elem_of_In in Hk. simpl in Hk.
    destruct Hk as [<-|[<-|[<-|[<-|[]]]]]; reflexivity.
  - split; refute.
Defined.

Lemma exclude_outside_other_value_ignored_witness :
  sample_parse Resize linear_mode_exclude_0 [data_1x1x2; scales_1_1_2] [] =
  sample_parse Resize (delete "exclude_outside" linear_mode_exclude_0)
               [data_1x1x2; scales_1_1_2] [].
Proof.
  apply (exclude_outside_other_value_ignored sample_nearest_op sample_idx_op Resize
           linear_mode_exclude_0 (attr_i 0)); [reflexivity|refute].
Defined.

Lemma unsupported_interpolation_mode_iff_witness :
  sample_parse Resize (<["exclude_outside" := attr_i 1]> {["mode" := attr_s "cubic"]})
               [] [] =
    (Throw UnsupportedInterpolationMode, []).
Proof.
  apply (proj2 (unsupported_interpolation_mode_iff sample_nearest_op sample_idx_op
                  Resize _ [] [] [])).
  split; [refute|]. split; [|reflexivity].
  exists (attr_s "cubic"). split; [reflexivity|]. split; refute.
Defined.

Lemma missing_scale_or_size_input_iff_witness :
  sample_parse Resize ∅ [data_1x1x4; arg_undefined; data_1x1x4; arg_no_lens] [] =
    (Throw MissingScaleOrSizeInput, []).
Proof.
  refine (proj2 (missing_scale_or_size_input_iff sample_nearest_op sample_idx_op
                   Resize ∅ data_1x1x4 [arg_undefined; data_1x1x4; arg_no_lens]
                   [] [] _) _).
  - accept_config.
  - split; [reflexivity|]. split; [vm_compute; reflexivity|reflexivity].
Defined.

Lemma parse_first_eligible_alone_witness :
  sample_parse Resize ∅ [data_1x1x4; arg_undefined; scales_1_1_2; sizes_1_1_8] [] =
  sample_parse Resize ∅ [data_1x1x4; scales_1_1_2] [].
Proof.
  apply (parse_first_eligible_alone sample_nearest_op sample_idx_op).
  vm_compute. reflexivity.
Defined.

Lemma scales_attribute_overrides_arguments_witness :
  sample_parse Upsample scales_1_2 [data_1x4; sizes_2] [] =
  sample_parse Upsample scales_1_2 [data_1x4] [].
Proof.
  apply (scales_attribute_overrides_arguments sample_nearest_op sample_idx_op).
  refute.
Defined.

Lemma scales_attribute_rank_mismatch_witness :
  sample_parse Upsample scales_1_2 [data_1x1x4; scales_1_1_2] [] =
    (Throw RankMismatch, []).
Proof.
  apply (scales_attribute_rank_mismatch sample_nearest_op sample_idx_op).
  - accept_config.
  - refute.
  - refute.
Defined.

Lemma other_input_read_as_scales_witness :
  sample_parse Resize ∅ [data_1x1x4; roi_6; scales_1_1_2] [] =
    (Throw RankMismatch, []).
Proof.
  apply (other_input_read_as_scales sample_nearest_op sample_idx_op Resize ∅
           data_1x1x4 roi_6).
  - accept_config.
  - reflexivity.
  - vm_compute. reflexivity.
  - refute.
  - refute.
  - refute.
Defined.

Lemma sizes_rank_mismatch_witness :
  sample_parse Resize ∅ [data_1x1x4; arg_no_lens; sizes_2; scales_1_1_2] [] =
    (Throw OutputRankMismatch, []).
Proof.
  apply (sizes_rank_mismatch sample_nearest_op sample_idx_op Resize ∅
           data_1x1x4 sizes_2 _ [2]).
  - accept_config.
  - reflexivity.
  - vm_compute. reflexivity.
  - reflexivity.
  - reflexivity.
  - refute.
Defined.

Lemma calc_neighbor_points_rank_guard_witness :
  ∃ offsets, calc_neighbor_points table_2x3 shape_2x3 = Ok offsets ∧
             length offsets = (2 ^ 2 * 2)%nat.
Proof.
  refine (proj2 (calc_neighbor_points_rank_guard 2 table_2x3 shape_2x3 _) _).
  - repeat constructor.
  - simpl. lia.
Defined.

Lemma corner_bit_selects_dimension_witness :
  ∃ offsets,
    calc_neighbor_points table_2x3 shape_2x3 = Ok offsets ∧
    let low := corner_tuple table_2x3 (Z.of_nat 1) 0 in
    low !! 1%nat = Some (((table_2x3 !!! 1%nat) !!! 0%nat) !!! 0%nat) ∧
    offsets !! (1 * 2 + 0)%nat = Some (to_int (index shape_2x3 low)) ∧
    offsets !! ((1 + 2 ^ 1) * 2 + 0)%nat =
      Some (to_int (index shape_2x3
              (<[1%nat := ((table_2x3 !!! 1%nat) !!! 1%nat) !!! 0%nat]> low))).
Proof.
  eexists. split; [vm_compute; reflexivity|].
  apply (corner_bit_selects_dimension 2 table_2x3 shape_2x3 _ 1 1 0).
  - simpl. lia.
  - repeat constructor.
  - vm_compute. reflexivity.
  - simpl. lia.
  - simpl. lia.
  - reflexivity.
  - lia.
Defined.

Lemma parse_returns_last_node_witness :
  ∃ front last,
    [lit shape_2x2 (arg_int [0; 1; 2; 3]);
     ins (op_resize "round_prefer_floor" "half_pixel")
         [ref_arg data_1x1x4; ref_arg scales_runtime]]
      = [lit shape_2x2 (arg_int [0; 1; 2; 3])] ++ front ++ [last] ∧
    ref_new 1 = ref_new (length [lit shape_2x2 (arg_int [0; 1; 2; 3])] + length front).
Proof.
  apply (parse_returns_last_node sample_nearest_op sample_idx_op Resize ∅
           [data_1x1x4; scales_runtime]).
  vm_compute. reflexivity.
Defined.

Lemma dimension_overflow_iff_witness :
  sample_parse Upsample scales_rank64 [data_rank64] [] =
    (Throw DimensionOverflow,
     [ins (op_reshape [to_int64 (elements (in_s resolved_rank64))])
          [ref_arg data_rank64]]).
Proof.
  refine (proj2 (dimension_overflow_iff sample_nearest_op sample_idx_op Upsample
                   scales_rank64 data_rank64 [] resolved_rank64 [] _ _ _) _).
  - accept_config.
  - vm_compute. reflexivity.
  - split; [reflexivity|]. split; [reflexivity|].
    split; [vm_compute; lia|reflexivity].
Defined.

Lemma linear_corner_offsets_in_bounds_witness :
  ∃ o ind_s ind nodes,
    sample_parse Resize linear_mode [data_1x1x2; scales_1_1_2] [] =
      (o, [ins (op_reshape [to_int64 (elements (get_shape data_1x1x2))])
               [ref_arg data_1x1x2];
           lit ind_s (arg_int ind);
           ins (op_gather 0) [ref_new 0; ref_new 1]] ++ nodes) ∧
    length ind = (2 ^ 3 * 4)%nat ∧
    Forall (λ x, 0 ≤ x < elements (get_shape data_1x1x2)) ind.
Proof.
  refine (linear_corner_offsets_in_bounds sample_nearest_op sample_idx_op Resize
            linear_mode data_1x1x2 [scales_1_1_2] resolved_1x1x4 "half_pixel" []
            _ _ _ _ _ _ _ _ _ _).
  - reflexivity.
  - reflexivity.
  - discriminate.
  - vm_compute. reflexivity.
  - reflexivity.
  - reflexivity.
  - simpl. lia.
  - intros n x Hn. apply sample_nearest_op_clamped.
    change (lens (get_shape data_1x1x2)) with [1; 1; 2] in Hn.
    apply list_elem_of_In in Hn. simpl in Hn. lia.
  - intros n x Hn. apply sample_nearest_op_clamped.
    change (lens (get_shape data_1x1x2)) with [1; 1; 2] in Hn.
    apply list_elem_of_In in Hn. simpl in Hn. lia.
  - vm_compute. discriminate.
Defined.

Lemma inserted_literals_sized_witness :
  ∃ h nodes,
    sample_parse Resize linear_mode [data_1x1x2; scales_1_1_2] [] = (Ok h, nodes) ∧
    Forall literal_sized nodes.
Proof.
  refine (inserted_literals_sized sample_nearest_op sample_idx_op Resize
            linear_mode data_1x1x2 [scales_1_1_2] resolved_1x1x4 "half_pixel" "linear"
            [] _ _ _ _ _).
  - reflexivity.
  - reflexivity.
  - discriminate.
  - vm_compute. reflexivity.
  - intros _. split; [reflexivity|]. split; [simpl; lia|].
    exists 1, [1; 4]. split; [reflexivity|]. split; [lia|vm_compute; reflexivity].
Defined.

Lemma scales_attribute_dynamic_input_witness :
  sample_parse Upsample upsample_1_2 [data_dynamic] [] =
    (Ok (ref_new 0),
     [ins (op_resize (get_nearest_mode upsample_1_2) "half_pixel")
          [ref_arg data_dynamic; ref_arg data_dynamic]]).
Proof.
  refine (scales_attribute_dynamic_input sample_nearest_op sample_idx_op Upsample
            upsample_1_2 data_dynamic [] resolved_dynamic "half_pixel" [] _ _ _ _ _ _).
  - reflexivity.
  - reflexivity.
  - discriminate.
  - vm_compute. reflexivity.
  - refute.
  - reflexivity.
Defined.

Lemma linear_ignores_nearest_mode_witness :
  sample_parse Resize (<["nearest_mode" := attr_s "ceil"]> linear_mode)
               [data_1x1x2; scales_1_1_2] [] =
  sample_parse Resize linear_mode [data_1x1x2; scales_1_1_2] [].
Proof.
  apply (linear_ignores_nearest_mode sample_nearest_op sample_idx_op).
  reflexivity.
Defined.

Lemma integral_input_read_as_scales_witness :
  is_constant_scale_input resolved_int32_1_1_8 = true ∧
  vec_scale resolved_int32_1_1_8 = double_of_Z <$> [1; 1; 8] ∧
  lengths_from_scales resolved_int32_1_1_8.
Proof.
  apply (integral_input_read_as_scales Resize ∅ data_1x1x4 sizes_int32_1_1_8
           [sizes_int32_1_1_8]).
  - vm_compute. reflexivity.
  - reflexivity.
  - vm_compute. reflexivity.
  - refute.
  - reflexivity.
  - reflexivity.
Defined.

Lemma unsupported_dynamic_linear_iff_witness :
  sample_parse Resize linear_mode [data_1x1x4; scales_runtime] [] =
    (Throw UnsupportedDynamicLinear, []).
Proof.
  refine (proj2 (unsupported_dynamic_linear_iff sample_nearest_op sample_idx_op
                   Resize linear_mode data_1x1x4 [scales_runtime] [] [] _) _).
  - accept_config.
  - split; [reflexivity|]. split; [reflexivity|]. split; [|reflexivity].
    exists scales_runtime. split; [vm_compute; reflexivity|].
    split; [reflexivity|]. right. reflexivity.
Defined.

Lemma inserted_nodes_in_scope_witness :
  ∃ nodes,
    (sample_parse Resize linear_mode [data_1x1x2; scales_1_1_2]
                  [lit shape_2x2 (arg_int [0; 1; 2; 3])]).2
      = [lit shape_2x2 (arg_int [0; 1; 2; 3])] ++ nodes ∧
    inserted_in_scope [data_1x1x2; scales_1_1_2]
                      (length [lit shape_2x2 (arg_int [0; 1; 2; 3])]) nodes.
Proof.
  refine (inserted_nodes_in_scope sample_nearest_op sample_idx_op Resize linear_mode
            [data_1x1x2; scales_1_1_2] [lit shape_2x2 (arg_int [0; 1; 2; 3])]
            (sample_parse Resize linear_mode [data_1x1x2; scales_1_1_2]
                          [lit shape_2x2 (arg_int [0; 1; 2; 3])]).1 _ _ _).
  - unfold sample_parse. by destruct (parse _ _ _ _ _ _).
  - refute.
Defined.
